(** * Scene/canvas synchronisation of the scene builder (src/App.jsx)

    A shallow embedding of the React component [App]: the scene store
    ([scenes], [activeScene]), the dirty flag ([edited]), the rebuild guard
    ([inEdit]) and the canvas ([graph]) are fields of one explicit state that
    every listener and callback receives and returns.  A JavaScript exception
    is an explicit outcome that carries the state at the point of the throw.

    The canvas is an object of the X6 graph library.  It is kept as what the
    component reads and writes through it: the nodes with their properties,
    the edges, the width of the container. *)

From Stdlib Require Import ZArith Ascii String Bool Arith Lia DecimalString
  DecimalN Permutation List.
Import ListNotations.

Set Implicit Arguments.

(** ** JavaScript array and object helpers *)

Module Js.

(** [arr.filter((_, idx) => keep idx)], indices counted from [from]. *)
Fixpoint filter_from {A : Type} (keep : Z -> bool) (from : Z) (arr : list A)
  : list A :=
  match arr with
  | [] => []
  | a :: rest =>
      if keep from then a :: filter_from keep (from + 1) rest
      else filter_from keep (from + 1) rest
  end.

Definition filter_index {A : Type} (keep : Z -> bool) (arr : list A) : list A :=
  filter_from keep 0 arr.

(** [arr.findIndex(p)]; [None] stands for the result [-1]. *)
Fixpoint findIndex {A : Type} (p : A -> bool) (arr : list A) : option nat :=
  match arr with
  | [] => None
  | a :: rest =>
      if p a then Some 0
      else match findIndex p rest with
           | Some i => Some (S i)
           | None => None
           end
  end.

(** [arr.push(a)]. *)
Definition push {A : Type} (arr : list A) (a : A) : list A := arr ++ [a].

(** [arr[i] = v] for an index inside the array. *)
Fixpoint set_nth {A : Type} (i : nat) (v : A) (arr : list A) : list A :=
  match arr, i with
  | [], _ => []
  | _ :: rest, O => v :: rest
  | a :: rest, S j => a :: set_nth j v rest
  end.

(** [arr[i] = v] for a number [i].  Inside the array the slot is replaced,
    at [i = arr.length] the array grows by one.  Any other index leaves
    holes (or sets a non-index property): the result is no longer a dense
    array and is reported as [None]. *)
Definition assign_index {A : Type} (arr : list A) (i : Z) (v : A)
  : option (list A) :=
  if (i <? 0)%Z then None
  else if (Z.to_nat i <? length arr) then Some (set_nth (Z.to_nat i) v arr)
  else if (Z.to_nat i =? length arr) then Some (push arr v)
  else None.

(** [obj[key] = v] on an object kept as its entries in insertion order:
    an existing key keeps its place. *)
Fixpoint obj_set {V : Type} (obj : list (string * V)) (key : string) (v : V)
  : list (string * V) :=
  match obj with
  | [] => [(key, v)]
  | (k, w) :: rest =>
      if String.eqb k key then (k, v) :: rest
      else (k, w) :: obj_set rest key v
  end.

End Js.

(** ** Data model *)

(** The fields of a position object other than its [id]. *)
Definition Info := list (string * string).

Module Position.
Record t := mk { id : string; info : Info }.
End Position.

Module Stage.
(** [fixed_len] is [stage.extra.fixed_len]. *)
Record t := mk { id : string; positions : list Position.t; fixed_len : Z }.

Definition with_positions (ps : list Position.t) (s : t) : t :=
  mk (id s) ps (fixed_len s).
End Stage.

Module Layout.
Record t := mk { x : Z; y : Z; dest : list string }.
End Layout.

Module Scene.
Record t := mk {
  id : string;
  name : string;
  root : option string;
  stages : list Stage.t;
  positions : list Position.t;
  graph : list (string * Layout.t);
  furniture : string;
  tags : list string;
  is_private : bool;
  has_warnings : bool
}.

Definition with_root (r : option string) (s : t) : t :=
  mk (id s) (name s) r (stages s) (positions s) (graph s)
     (furniture s) (tags s) (is_private s) (has_warnings s).

Definition with_stages (l : list Stage.t) (s : t) : t :=
  mk (id s) (name s) (root s) l (positions s) (graph s)
     (furniture s) (tags s) (is_private s) (has_warnings s).

Definition with_positions (l : list Position.t) (s : t) : t :=
  mk (id s) (name s) (root s) (stages s) l (graph s)
     (furniture s) (tags s) (is_private s) (has_warnings s).

Definition with_graph (g : list (string * Layout.t)) (s : t) : t :=
  mk (id s) (name s) (root s) (stages s) (positions s) g
     (furniture s) (tags s) (is_private s) (has_warnings s).

Definition with_has_warnings (b : bool) (s : t) : t :=
  mk (id s) (name s) (root s) (stages s) (positions s) (graph s)
     (furniture s) (tags s) (is_private s) b.
End Scene.

(** A node of the X6 canvas with the properties the component sets through
    [node.prop]. *)
Module Node.
Record t := mk {
  id : string;
  x : Z;
  y : Z;
  stage : option Stage.t;
  scene : option Scene.t;
  fixedLen : option Z;
  isStart : bool
}.

Definition with_isStart (b : bool) (n : t) : t :=
  mk (id n) (x n) (y n) (stage n) (scene n) (fixedLen n) b.
End Node.

(** The canvas: its nodes in insertion order, its edges as (source, target)
    node ids, and the width of its container. *)
Module Canvas.
Record t := mk {
  nodes : list Node.t;
  edges : list (string * string);
  clientWidth : Z
}.

Definition with_nodes (l : list Node.t) (g : t) : t :=
  mk l (edges g) (clientWidth g).

Definition with_edges (l : list (string * string)) (g : t) : t :=
  mk (nodes g) l (clientWidth g).
End Canvas.

(** The component state.  [idCalls] counts the calls of
    [generatePositionId] made so far. *)
Record State := mkState {
  scenes : list Scene.t;
  activeScene : option Scene.t;
  edited : bool;
  inEdit : bool;
  graph : Canvas.t;
  idCalls : nat
}.

Definition with_scenes (l : list Scene.t) (st : State) : State :=
  mkState l (activeScene st) (edited st) (inEdit st) (graph st) (idCalls st).

Definition with_activeScene (a : option Scene.t) (st : State) : State :=
  mkState (scenes st) a (edited st) (inEdit st) (graph st) (idCalls st).

Definition with_edited (b : bool) (st : State) : State :=
  mkState (scenes st) (activeScene st) b (inEdit st) (graph st) (idCalls st).

Definition with_inEdit (b : bool) (st : State) : State :=
  mkState (scenes st) (activeScene st) (edited st) b (graph st) (idCalls st).

Definition with_graph (g : Canvas.t) (st : State) : State :=
  mkState (scenes st) (activeScene st) (edited st) (inEdit st) g (idCalls st).

Definition with_idCalls (k : nat) (st : State) : State :=
  mkState (scenes st) (activeScene st) (edited st) (inEdit st) (graph st) k.

Inductive Error :=
| TypeError (what : string)
| ReferenceError (name : string).

(** What a listener does: it returns, or it throws with the state as it is
    at that point.  [Sparse st i p] is a return after the write
    [draft.positions[i] = p] on the active scene of [st] with [i] outside the
    dense range (see [Js.assign_index]): the list of positions it leaves has
    holes and is kept as this pending write. *)
Inductive Outcome :=
| Ok (st : State)
| Throw (e : Error) (st : State)
| Sparse (st : State) (index : Z) (value : Position.t).

(** ** Position identifiers *)

(** The two readings [generatePositionId] takes from its environment:
    [Date.now()] and [Math.random().toString(36)]. *)
Record Draw := mkDraw { now : N; random36 : string }.

(** The environment: the readings of the k-th call. *)
Definition World := nat -> Draw.

Definition generatePositionId (d : Draw) : string :=
  String.append (NilEmpty.string_of_uint (N.to_uint (now d)))
    (String.append "_" (substring 2 9 (random36 d))).

(** The nine characters that [substr(2, 9)] keeps of the random reading. *)
Definition suffix (d : Draw) : string := substring 2 9 (random36 d).

(** Two readings of the same millisecond with the same suffix. *)
Definition same_reading (d1 d2 : Draw) : Prop :=
  now d1 = now d2 /\ suffix d1 = suffix d2.

(** ** Position listeners *)

Record PositionRemoveMsg := mkRemove { rm_sceneId : string; rm_positionIdx : Z }.

(** [position.info] and [position.position] of an [on_position_add] payload. *)
Record PositionAddMsg := mkAdd {
  add_sceneId : string;
  add_info : Info;
  add_position_ : Info
}.

(** The callback [(_, idx) => idx !== positionIdx]. *)
Definition drop_index (positionIdx : Z) : Z -> bool :=
  fun idx => negb (idx =? positionIdx)%Z.

Definition remove_from_stage (positionIdx : Z) (stage : Stage.t) : Stage.t :=
  if ((0 <=? positionIdx)%Z
      && (positionIdx <? Z.of_nat (length (Stage.positions stage)))%Z)%bool
  then Stage.with_positions
         (Js.filter_index (drop_index positionIdx) (Stage.positions stage)) stage
  else stage.

Definition remove_position (positionIdx : Z) (scene : Scene.t) : Scene.t :=
  let stages' := map (remove_from_stage positionIdx) (Scene.stages scene) in
  let positions' :=
    Js.filter_index (drop_index positionIdx) (Scene.positions scene) in
  Scene.with_has_warnings true
    (Scene.with_positions positions' (Scene.with_stages stages' scene)).

(** [scene.stages.forEach(stage => stage.positions.push({...p, id: generatePositionId()}))];
    [k] is the number of identifier calls made before the loop. *)
Fixpoint push_to_stages (w : World) (k : nat) (p : Info) (stages : list Stage.t)
  : list Stage.t :=
  match stages with
  | [] => []
  | stage :: rest =>
      Stage.with_positions
        (Js.push (Stage.positions stage)
           (Position.mk (generatePositionId (w k)) p)) stage
      :: push_to_stages w (S k) p rest
  end.

(** Returns the patched scene; it makes [1 + |scene.stages|] identifier
    calls. *)
Definition add_position (w : World) (k : nat) (m : PositionAddMsg)
    (scene : Scene.t) : Scene.t :=
  let newPosition := Position.mk (generatePositionId (w k)) (add_info m) in
  let stages' := push_to_stages w (S k) (add_position_ m) (Scene.stages scene) in
  Scene.with_has_warnings true
    (Scene.with_positions (Js.push (Scene.positions scene) newPosition)
       (Scene.with_stages stages' scene)).

Definition add_position_calls (scene : Scene.t) : nat :=
  S (length (Scene.stages scene)).

(** [scenes.length === 0 || activeScene.id === sceneId]; [None] when
    [activeScene] is [null] and its [id] is read. *)
Definition targetsActive (st : State) (sceneId : string) : option bool :=
  if (length (scenes st) =? 0) then Some true
  else match activeScene st with
       | None => None
       | Some a => Some (String.eqb (Scene.id a) sceneId)
       end.

Definition null_id : Error := TypeError "activeScene.id".
Definition null_draft : Error := TypeError "draft is null".

Definition undefined_scene : Error := TypeError "scene is undefined".

Definition on_position_remove (st : State) (m : PositionRemoveMsg) : Outcome :=
  match targetsActive st (rm_sceneId m) with
  | None => Throw null_id st
  | Some true =>
      match activeScene st with
      | None => Throw null_draft st
      | Some draft =>
          Ok (with_activeScene
                (Some (remove_position (rm_positionIdx m) draft)) st)
      end
  | Some false =>
      match Js.findIndex (fun it => String.eqb (Scene.id it) (rm_sceneId m))
              (scenes st) with
      | None => Ok st
      | Some idx =>
          match nth_error (scenes st) idx with
          | None => Throw undefined_scene st
          | Some scene =>
              Ok (with_scenes
                    (Js.set_nth idx (remove_position (rm_positionIdx m) scene)
                       (scenes st)) st)
          end
      end
  end.

Definition on_position_add (w : World) (st : State) (m : PositionAddMsg)
  : Outcome :=
  match targetsActive st (add_sceneId m) with
  | None => Throw null_id st
  | Some true =>
      match activeScene st with
      | None => Throw null_draft st
      | Some draft =>
          Ok (with_idCalls (idCalls st + add_position_calls draft)
                (with_activeScene
                   (Some (add_position w (idCalls st) m draft)) st))
      end
  | Some false =>
      match Js.findIndex (fun it => String.eqb (Scene.id it) (add_sceneId m))
              (scenes st) with
      | None => Ok st
      | Some idx =>
          match nth_error (scenes st) idx with
          | None => Throw undefined_scene st
          | Some scene =>
              Ok (with_idCalls (idCalls st + add_position_calls scene)
                    (with_scenes
                       (Js.set_nth idx (add_position w (idCalls st) m scene)
                          (scenes st)) st))
          end
      end
  end.

(** [stageId === 0] marks a change sent by the scene-level position editor
    itself; any other value is a stage id. *)
Inductive Origin :=
| FromScenePosition
| FromStage (stageId : string).

Record PositionChangeMsg := mkChange {
  ch_sceneId : string;
  ch_stageId : Origin;
  ch_positionIdx : Z;
  ch_info : Info
}.

Definition on_position_change (w : World) (st : State) (m : PositionChangeMsg)
  : Outcome :=
  match ch_stageId m with
  | FromScenePosition => Ok st
  | FromStage _ =>
      match targetsActive st (ch_sceneId m) with
      | None => Throw null_id st
      | Some true =>
          match activeScene st with
          | None => Throw null_draft st
          | Some draft =>
              let newPosition :=
                Position.mk (generatePositionId (w (idCalls st))) (ch_info m) in
              match Js.assign_index (Scene.positions draft)
                      (ch_positionIdx m) newPosition with
              | Some ps =>
                  Ok (with_idCalls (S (idCalls st))
                        (with_activeScene
                           (Some (Scene.with_positions ps draft)) st))
              | None =>
                  Sparse (with_idCalls (S (idCalls st)) st)
                    (ch_positionIdx m) newPosition
              end
          end
      | Some false => Ok st
      end
  end.

(** ** Canvas operations *)

Definition has_id (id : string) (n : Node.t) : bool := String.eqb (Node.id n) id.

(** [nodes.find(node => node.id === id)], also [graph.getCellById(id)] for a
    stage id. *)
Definition find_node (id : string) (nodes : list Node.t) : option Node.t :=
  find (has_id id) nodes.

(** A property write on the node object that [find_node id] returns. *)
Fixpoint update_node (id : string) (f : Node.t -> Node.t) (nodes : list Node.t)
  : list Node.t :=
  match nodes with
  | [] => []
  | n :: rest =>
      if has_id id n then f n :: rest else n :: update_node id f rest
  end.

Definition node_prop (id : string) (f : Node.t -> Node.t) (st : State) : State :=
  with_graph
    (Canvas.with_nodes (update_node id f (Canvas.nodes (graph st))) (graph st))
    st.

Definition gridSize : Z := 200.

(** [stageToGraphX], [stageToGraphY]: locals of one render of the component.
    A listener registered by a fresh render starts from their initial
    values; the calls made through the closures of one render share them. *)
Definition Cursor := (Z * Z)%type.
Definition cursor0 : Cursor := (40, 40)%Z.

Definition advance (g : Canvas.t) (c : Cursor) : Cursor :=
  match Canvas.nodes g with
  | [] => c
  | _ :: _ =>
      let x := (fst c + gridSize)%Z in
      if (Canvas.clientWidth g - gridSize <? x)%Z
      then (40%Z, (snd c + gridSize)%Z)
      else (x, snd c)
  end.

(** [addStageToGraph(stage)]: places a node with the stage's id; the canvas
    then fires [node:added], which marks the scene dirty unless [inEdit] is
    set.  Both callers add an id that is not on the canvas.  [Canvas.nodes]
    keeps the nodes in the order they were added; [graph.getNodes()] need not
    list a node added later last (the library lists ids made of digits only
    before the others), so what is said of the nodes after a single node was
    added is said up to their order. *)
Definition addStageToGraph (c : Cursor) (st : State) (stage : Stage.t)
  : Cursor * State :=
  let c' := advance (graph st) c in
  let node := Node.mk (Stage.id stage) (fst c') (snd c') None None None false in
  let g' := Canvas.with_nodes (Js.push (Canvas.nodes (graph st)) node) (graph st) in
  (c', with_edited (if inEdit st then edited st else true) (with_graph g' st)).

(** [belongingScene && belongingScene.root === stage.id], read as a flag. *)
Definition is_root_of (belongingScene : option Scene.t) (stage : Stage.t) : bool :=
  match belongingScene with
  | None => false
  | Some sc =>
      match Scene.root sc with
      | None => false
      | Some r => String.eqb r (Stage.id stage)
      end
  end.

(** [updateNodeProps(stage, node, belongingScene)] for the node whose id is
    the stage's. *)
Definition updateNodeProps (stage : Stage.t) (belongingScene : option Scene.t)
    (st : State) : State :=
  node_prop (Stage.id stage)
    (fun n => Node.mk (Node.id n) (Node.x n) (Node.y n) (Some stage)
                belongingScene (Some (Stage.fixed_len stage))
                (is_root_of belongingScene stage))
    st.

(** ** The [on_stage_saved] listener *)

Record StageSavedMsg := mkSaved {
  ss_scene : string;
  ss_positions : list Position.t;
  ss_stage : Stage.t
}.

(** The listener destructures its payload as [{ scene, positions, stage }];
    the identifier [sceneId] that its background branch reads is bound
    nowhere, so evaluating it throws. *)
Definition sceneId_unbound : Error + string := inl (ReferenceError "sceneId").

(** [arr.findIndex(p)] for a callback that may throw. *)
Fixpoint findIndex_throwing {A : Type} (p : A -> Error + bool) (arr : list A)
  : Error + option nat :=
  match arr with
  | [] => inr None
  | a :: rest =>
      match p a with
      | inl e => inl e
      | inr true => inr (Some 0)
      | inr false =>
          match findIndex_throwing p rest with
          | inl e => inl e
          | inr (Some i) => inr (Some (S i))
          | inr None => inr None
          end
      end
  end.

(** Lines 229-245: the clone of the scene is patched with the stage and the
    positions; [node] is the canvas node of the active branch and
    [undefined] in the background branch. *)
Definition patch_scene (node : option string) (m : StageSavedMsg)
    (updatedScene : Scene.t) (st : State) : Error + (Scene.t * State) :=
  let stage := ss_stage m in
  match Js.findIndex (fun it => String.eqb (Stage.id it) (Stage.id stage))
          (Scene.stages updatedScene) with
  | None =>
      let stages' := Js.push (Scene.stages updatedScene) stage in
      if (length stages' =? 1) then
        match node with
        | None => inl (TypeError "node is undefined")
        | Some nid =>
            inr (Scene.with_positions (ss_positions m)
                   (Scene.with_root (Some (Stage.id stage))
                      (Scene.with_stages stages' updatedScene)),
                 node_prop nid (Node.with_isStart true) st)
        end
      else
        inr (Scene.with_positions (ss_positions m)
               (Scene.with_stages stages' updatedScene), st)
  | Some editedStageIdx =>
      inr (Scene.with_positions (ss_positions m)
             (Scene.with_stages
                (Js.set_nth editedStageIdx stage (Scene.stages updatedScene))
                updatedScene), st)
  end.

(** The listener as a render registers it after [activeScene] or [scenes]
    changed: a node it adds is placed from [cursor0].  (A listener that has
    outlived an activation made through its own render's closures goes on
    from the cursor that activation left; only the place of the new node
    differs.) *)
Definition on_stage_saved (st : State) (m : StageSavedMsg) : Outcome :=
  let stage := ss_stage m in
  match targetsActive st (ss_scene m) with
  | None => Throw null_id st
  | Some true =>
      let st1 :=
        match find_node (Stage.id stage) (Canvas.nodes (graph st)) with
        | Some _ => st
        | None => snd (addStageToGraph cursor0 st stage)
        end in
      let st2 := updateNodeProps stage (activeScene st) st1 in
      match activeScene st with
      | None => Throw (TypeError "updatedScene is null") st2
      | Some a =>
          match patch_scene (Some (Stage.id stage)) m a st2 with
          | inl e => Throw e st2
          | inr (updatedScene, st3) =>
              Ok (with_edited true (with_activeScene (Some updatedScene) st3))
          end
      end
  | Some false =>
      match findIndex_throwing
              (fun it =>
                 match sceneId_unbound with
                 | inl e => inl e
                 | inr sceneId => inr (String.eqb (Scene.id it) sceneId)
                 end) (scenes st) with
      | inl e => Throw e st
      | inr None =>
          match sceneId_unbound with
          | inl e => Throw e st
          | inr _ => Ok st
          end
      | inr (Some updatedSceneIdx) =>
          match nth_error (scenes st) updatedSceneIdx with
          | None => Throw (TypeError "updatedScene is undefined") st
          | Some sc =>
              match patch_scene None m sc st with
              | inl e => Throw e st
              | inr (updatedScene, st') =>
                  Ok (with_scenes
                        (Js.set_nth updatedSceneIdx updatedScene (scenes st'))
                        st')
              end
          end
      end
  end.

(** ** The [node:doMarkRoot] handler *)

(** [node] is the id of the canvas node that fired the event. *)
Definition doMarkRoot (st : State) (node : string) : Outcome :=
  match activeScene st with
  | None => Throw (TypeError "prev is null") st
  | Some prev =>
      let st1 :=
        match Scene.root prev with
        | None => st
        | Some r => node_prop r (Node.with_isStart false) st
        end in
      let st2 := node_prop node (Node.with_isStart true) st1 in
      Ok (with_edited true
            (with_activeScene (Some (Scene.with_root (Some node) prev)) st2))
  end.

(** ** Scene activation *)

(** The two buttons of the "Unsaved changes" dialog. *)
Inductive Answer := ContinueWithoutSaving | Cancel.

(** First loop of [setActiveScene]: one node per entry of [newscene.graph].
    The stored [x] and [y] are passed along, but [addStageToGraph] takes the
    stage only. *)
Fixpoint add_nodes (newscene : Scene.t) (entries : list (string * Layout.t))
    (c : Cursor) (st : State) : Outcome :=
  match entries with
  | [] => Ok st
  | (key, _) :: rest =>
      match find (fun stage => String.eqb (Stage.id stage) key)
              (Scene.stages newscene) with
      | None => Throw (TypeError "stage is undefined") st
      | Some stage =>
          let (c', st1) := addStageToGraph c st stage in
          add_nodes newscene rest c' (updateNodeProps stage (Some newscene) st1)
      end
  end.

(** [dest.forEach(targetid => ...)] for one source node; [graph.addEdge]
    called by the program adds the edge it is given. *)
Definition add_edges_from (nodes : list Node.t) (sourceid : string)
    (dest : list string) (g : Canvas.t) : Canvas.t :=
  fold_left
    (fun g targetid =>
       match find_node targetid nodes with
       | None => g
       | Some _ => Canvas.with_edges (Js.push (Canvas.edges g) (sourceid, targetid)) g
       end) dest g.

(** Second loop of [setActiveScene]; every stage node has the output port
    that the edge starts from. *)
Definition add_edges (nodes : list Node.t) (entries : list (string * Layout.t))
    (g : Canvas.t) : Canvas.t :=
  fold_left
    (fun g entry =>
       match Layout.dest (snd entry) with
       | [] => g
       | dest =>
           match find_node (fst entry) nodes with
           | None => g
           | Some _ => add_edges_from nodes (fst entry) dest g
           end
       end) entries g.

(** The body of [setActiveScene] below its guard. *)
Definition activate (st : State) (newscene : Scene.t) : Outcome :=
  let st1 := with_inEdit true st in
  let st2 := with_graph (Canvas.mk [] [] (Canvas.clientWidth (graph st1))) st1 in
  let st3 := with_activeScene (Some newscene) st2 in
  match add_nodes newscene (Scene.graph newscene) cursor0 st3 with
  | Ok st4 =>
      let nodes := Canvas.nodes (graph st4) in
      let st5 := with_graph (add_edges nodes (Scene.graph newscene) (graph st4)) st4 in
      Ok (with_edited false (with_inEdit false st5))
  | other => other
  end.

(** [setActiveScene(newscene)]; [answer] is the button pressed when the
    dialog is shown.  [onOk] sets [inEdit] and calls [setActiveScene] again,
    which then passes the guard; [onCancel] is empty. *)
Definition setActiveScene (answer : Answer) (st : State) (newscene : Scene.t)
  : Outcome :=
  if (negb (inEdit st) && edited st)%bool then
    match answer with
    | ContinueWithoutSaving => activate (with_inEdit true st) newscene
    | Cancel => Ok st
    end
  else activate st newscene.

(** ** Reachability on the canvas *)

Definition on_canvas (g : Canvas.t) (id : string) : bool :=
  existsb (has_id id) (Canvas.nodes g).

(** [graph.getNeighbors(cell, { outgoing: true })]: the nodes at the far end
    of the edges that leave [id]. *)
Definition neighbors (g : Canvas.t) (id : string) : list string :=
  filter (on_canvas g)
    (map snd (filter (fun e => String.eqb (fst e) id) (Canvas.edges g))).

Definition visitedb (id : string) (visited : list string) : bool :=
  existsb (String.eqb id) visited.

(** The depth-first search of the X6 model: a stack of cells to look at and
    the cells seen so far (latest first). *)
Fixpoint dfs (g : Canvas.t) (fuel : nat) (stack visited : list string)
  : list string :=
  match fuel with
  | O => visited
  | S fuel' =>
      match stack with
      | [] => visited
      | next :: rest =>
          if visitedb next visited then dfs g fuel' rest visited
          else dfs g fuel' (neighbors g next ++ rest) (next :: visited)
      end
  end.

(** Modelled from the spec: [graph.getSuccessors(startNode)] is a call into
    the X6 graph library, whose code is not part of the sources.  It yields
    the nodes reachable from the start node by following outgoing edges, the
    start node itself not among them ("the reachable-set size plus one (the
    start node)"): every cell the search from [start] visits, in visiting
    order, [start] left out.  Each step pops one cell and only a newly seen
    cell pushes the targets of its own edges, so one more step than there
    are edges empties the stack. *)
Definition getSuccessors (g : Canvas.t) (start : string) : list string :=
  filter (fun id => negb (String.eqb id start))
    (rev (dfs g (S (length (Canvas.edges g))) [start] [])).

(** ** Saving *)

Inductive Notice := MissingName | MissingStartAnimation | UnreachableStages.

(** What [saveScene] does before it returns: the notifications it shows and
    the scene it hands to [invoke('save_scene', ...)], if any. *)
Record SaveEffects := mkEffects {
  notices : list Notice;
  save_scene : option Scene.t
}.

(** [graph.getOutgoingEdges(node)] mapped to the target ids. *)
Definition outgoing (g : Canvas.t) (id : string) : list string :=
  map snd (filter (fun e => String.eqb (fst e) id) (Canvas.edges g)).

(** The [graph] field of the saved scene. *)
Definition serialize_graph (g : Canvas.t) : list (string * Layout.t) :=
  fold_left
    (fun ret node =>
       Js.obj_set ret (Node.id node)
         (Layout.mk (Node.x node) (Node.y node) (outgoing g (Node.id node))))
    (Canvas.nodes g) [].

(** [nodes.find(node => node.id === activeScene.root)]. *)
Definition find_start (a : Scene.t) (g : Canvas.t) : option Node.t :=
  match Scene.root a with
  | None => None
  | Some r => find_node r (Canvas.nodes g)
  end.

Definition saveScene (st : State) : Error + SaveEffects :=
  match activeScene st with
  | None => inl (TypeError "activeScene.name")
  | Some a =>
      let named := negb (String.eqb (Scene.name a) EmptyString) in
      let n1 := if named then [] else [MissingName] in
      let doSave := named in
      let nodes := Canvas.nodes (graph st) in
      let '(n2, has_warnings) :=
        match find_start a (graph st) with
        | None => ([MissingStartAnimation], true)
        | Some startNode =>
            let dfsGraph := getSuccessors (graph st) (Node.id startNode) in
            if (length dfsGraph + 1 <? length nodes)
            then ([UnreachableStages], true)
            else ([], false)
        end in
      if (negb doSave || negb (edited st))%bool then
        inr (mkEffects (n1 ++ n2) None)
      else
        let scene :=
          Scene.with_has_warnings has_warnings
            (Scene.with_graph (serialize_graph (graph st)) a) in
        inr (mkEffects (n1 ++ n2) (Some scene))
  end.

(** The [then] callback of the persistence call. *)
Definition on_saved (st : State) (scene : Scene.t) : State :=
  let scenes' :=
    match Js.findIndex (fun it => String.eqb (Scene.id it) (Scene.id scene))
            (scenes st) with
    | None => Js.push (scenes st) scene
    | Some w => Js.set_nth w scene (scenes st)
    end in
  with_edited false (with_scenes scenes' (with_activeScene (Some scene) st)).

(** [saveScene()] followed by the acknowledgement of the persistence call it
    made, if it made one. *)
Definition save (st : State) : Outcome :=
  match saveScene st with
  | inl e => Throw e st
  | inr eff =>
      match save_scene eff with
      | None => Ok st
      | Some scene => Ok (on_saved st scene)
      end
  end.

(** ** Sequences of position edits *)

Inductive PositionEdit :=
| Added (m : PositionAddMsg)
| Removed (m : PositionRemoveMsg).

Definition state_of (o : Outcome) : State :=
  match o with
  | Ok st => st
  | Throw _ st => st
  | Sparse st _ _ => st
  end.

Definition deliver (w : World) (st : State) (e : PositionEdit) : Outcome :=
  match e with
  | Added m => on_position_add w st m
  | Removed m => on_position_remove st m
  end.

(** The listeners run to completion one after the other; a listener that
    throws leaves the state as it was at the throw. *)
Definition run_edits (w : World) (st : State) (es : list PositionEdit) : State :=
  fold_left (fun s e => state_of (deliver w s e)) es st.

(** A scene of the store: the active one or the i-th of the list. *)
Inductive Slot := ActiveSlot | Listed (i : nat).

Definition scene_at (st : State) (s : Slot) : option Scene.t :=
  match s with
  | ActiveSlot => activeScene st
  | Listed i => nth_error (scenes st) i
  end.

(** ** Invariants of the data model *)

(** Every stage's list is as long as [scene.positions]. *)
Definition parallel (sc : Scene.t) : Prop :=
  Forall (fun stage => length (Stage.positions stage) = length (Scene.positions sc))
    (Scene.stages sc).

(** The ids of the nodes flagged as start. *)
Definition start_nodes (g : Canvas.t) : list string :=
  map Node.id (filter Node.isStart (Canvas.nodes g)).

(** Only the node that [root] names may carry the start flag. *)
Definition start_mirrors_root (st : State) : Prop :=
  forall n, In n (Canvas.nodes (graph st)) -> Node.isStart n = true ->
    exists a, activeScene st = Some a /\ Scene.root a = Some (Node.id n).

Definition unique_ids (g : Canvas.t) : Prop := NoDup (map Node.id (Canvas.nodes g)).

(** Paths along canvas edges between nodes of the canvas. *)
Inductive reach (g : Canvas.t) : string -> string -> Prop :=
| reach_here : forall x, reach g x x
| reach_next : forall x y z, In y (neighbors g x) -> reach g y z -> reach g x z.

(** The slot a message with scene id [sceneId] is applied to: the active
    scene when the guard holds, else the first listed scene with that id. *)
Definition target_slot (st : State) (sceneId : string) : option Slot :=
  match targetsActive st sceneId with
  | None => None
  | Some true => Some ActiveSlot
  | Some false =>
      match Js.findIndex (fun it => String.eqb (Scene.id it) sceneId) (scenes st) with
      | None => None
      | Some idx => Some (Listed idx)
      end
  end.

(** The ids of the entries that [after] has beyond the length of [before]. *)
Definition appended_ids (before after : list Position.t) : list string :=
  map Position.id (skipn (length before) after).

(** The ids of all entries that [after] has beyond [before]: those of
    [scene.positions] first, then those of each stage in turn. *)
Definition new_position_ids (before after : Scene.t) : list string :=
  appended_ids (Scene.positions before) (Scene.positions after)
  ++ flat_map
       (fun p => appended_ids (Stage.positions (fst p)) (Stage.positions (snd p)))
       (combine (Scene.stages before) (Scene.stages after)).

(** The numbers of the identifier calls that two runs of the stage loop of
    [add_position] make for [n] stages, stage by stage; the runs start at
    calls [a] and [b]. *)
Fixpoint call_pairs (a b n : nat) : list nat :=
  match n with
  | O => []
  | S n' => a :: b :: call_pairs (S a) (S b) n'
  end.

(** The edges whose source the search has not seen yet: with the length of
    the stack they bound the steps the search still takes. *)
Definition pending (g : Canvas.t) (visited : list string) : nat :=
  length (filter (fun e => negb (visitedb (fst e) visited)) (Canvas.edges g)).

(** ** Canvas events *)

(** The [node:removed] handler; [node] is the id of the node that left the
    canvas. *)
Definition on_node_removed (st : State) (node : string) : Outcome :=
  if inEdit st then Ok st
  else
    match activeScene st with
    | None => Throw (TypeError "prev is null") st
    | Some prev =>
        let root' :=
          match Scene.root prev with
          | Some r => if String.eqb r node then None else Some r
          | None => None
          end in
        let stages' :=
          filter (fun it => negb (String.eqb (Stage.id it) node))
            (Scene.stages prev) in
        Ok (with_edited true
              (with_activeScene
                 (Some (Scene.with_stages stages' (Scene.with_root root' prev)))
                 st))
    end.

(** ** The rows of the bottom panel *)

(** The [onChange] of the [ScenePosition] row of index [idx], a row that is
    rendered for every position of the active scene.  It writes the new
    fields at [idx], keeping the id of the position unless that is empty,
    emits [on_position_change] with [stageId: 0] and marks the scene dirty.
    The result is the state and the message emitted. *)
Definition scene_position_onChange (w : World) (st : State) (idx : nat)
    (newPos : Info) : State * option PositionChangeMsg :=
  match activeScene st with
  | None => (st, None)
  | Some a =>
      match nth_error (Scene.positions a) idx with
      | None => (st, None)
      | Some pos =>
          let fresh := String.eqb (Position.id pos) EmptyString in
          let id :=
            if fresh then generatePositionId (w (idCalls st))
            else Position.id pos in
          let draft :=
            Scene.with_positions
              (Js.set_nth idx (Position.mk id newPos) (Scene.positions a)) a in
          (with_edited true
             (with_idCalls (if fresh then S (idCalls st) else idCalls st)
                (with_activeScene (Some draft) st)),
           Some (mkChange (Scene.id a) FromScenePosition (Z.of_nat idx) newPos))
      end
  end.

(** ** Activation with the placement cursor of its closure *)

(** [add_nodes] together with the cursor it leaves behind. *)
Fixpoint add_nodes_from (newscene : Scene.t) (entries : list (string * Layout.t))
    (c : Cursor) (st : State) : Outcome * Cursor :=
  match entries with
  | [] => (Ok st, c)
  | (key, _) :: rest =>
      match find (fun stage => String.eqb (Stage.id stage) key)
              (Scene.stages newscene) with
      | None => (Throw (TypeError "stage is undefined") st, advance (graph st) c)
      | Some stage =>
          let (c', st1) := addStageToGraph c st stage in
          add_nodes_from newscene rest c'
            (updateNodeProps stage (Some newscene) st1)
      end
  end.

(** [activate] started from the cursor [c] of the closure that runs it. *)
Definition activate_from (c : Cursor) (st : State) (newscene : Scene.t)
  : Outcome * Cursor :=
  let st1 := with_inEdit true st in
  let st2 := with_graph (Canvas.mk [] [] (Canvas.clientWidth (graph st1))) st1 in
  let st3 := with_activeScene (Some newscene) st2 in
  match add_nodes_from newscene (Scene.graph newscene) c st3 with
  | (Ok st4, c') =>
      let nodes := Canvas.nodes (graph st4) in
      let st5 := with_graph (add_edges nodes (Scene.graph newscene) (graph st4)) st4 in
      (Ok (with_edited false (with_inEdit false st5)), c')
  | other => other
  end.

(** ** The [on_project_update] listener *)

(** The listener is registered once, when the canvas exists.  The
    [setActiveScene] it calls is the one of that render: it reads the
    [edited] of that render, [editedSeen], and its placement cursor [c] lives
    on from one message to the next.  [stage_map] is the payload as its
    entries in enumeration order. *)
Definition on_project_update (editedSeen : bool) (answer : Answer) (c : Cursor)
    (st : State) (stage_map : list (string * Scene.t)) : Outcome * Cursor :=
  let scns := map snd stage_map in
  let st1 := with_edited false (with_scenes scns st) in
  match scns with
  | [] => (Ok (with_activeScene None st1), c)
  | first :: _ =>
      if (negb (inEdit st1) && editedSeen)%bool then
        match answer with
        | ContinueWithoutSaving => activate_from c (with_inEdit true st1) first
        | Cancel => (Ok st1, c)
        end
      else activate_from c st1 first
  end.

(** ** The sidebar menu *)

Definition underscore : Ascii.ascii := "_"%char.

(** [key.lastIndexOf("_")]; [None] stands for the result [-1]. *)
Fixpoint lastIndexOf (c : Ascii.ascii) (s : string) : option nat :=
  match s with
  | EmptyString => None
  | String a rest =>
      match lastIndexOf c rest with
      | Some i => Some (S i)
      | None => if Ascii.eqb a c then Some 0 else None
      end
  end.

(** The first lines of [onSiderSelect]: the option and the id of a key. *)
Definition parse_key (key : string) : string * string :=
  match lastIndexOf underscore key with
  | None => (key, key)
  | Some idx =>
      (substring 0 idx key,
       substring (S idx) (String.length key - S idx) key)
  end.

(** The keys that [sideBarMenu] gives the two entries of a scene. *)
Definition editKey (scene : Scene.t) : string :=
  String.append "editanim_" (Scene.id scene).

Definition deleteKey (scene : Scene.t) : string :=
  String.append "delanim_" (Scene.id scene).

(** [onOk] of the "Deleting Scene" dialog. *)
Definition delete_scene (st : State) (id : string) : State :=
  let st1 :=
    with_scenes
      (filter (fun scene => negb (String.eqb (Scene.id scene) id)) (scenes st))
      st in
  match activeScene st with
  | None => st1
  | Some a =>
      if String.eqb (Scene.id a) id
      then with_edited false (with_activeScene None st1)
      else st1
  end.

(** [setActiveScene(undefined)], what [editanim] runs into when no listed
    scene has the id: once past the guard the canvas is cleared, the active
    scene is gone and reading [newscene.graph] throws. *)
Definition setActiveScene_undefined (answer : Answer) (st : State) : Outcome :=
  let rebuild st0 :=
    Throw (TypeError "newscene is undefined")
      (with_activeScene None
         (with_graph (Canvas.mk [] [] (Canvas.clientWidth (graph st0)))
            (with_inEdit true st0))) in
  if (negb (inEdit st) && edited st)%bool then
    match answer with
    | ContinueWithoutSaving => rebuild st
    | Cancel => Ok st
    end
  else rebuild st.

(** [onSiderSelect({ key })].  [answer] and [deleteOk] are the buttons pressed
    in the dialogs that may open, [new_anim] is what [create_blank_scene]
    returns.  (The panel switch [setShowAreas] is not part of the state.) *)
Definition onSiderSelect (answer : Answer) (deleteOk : bool) (new_anim : Scene.t)
    (st : State) (key : string) : Outcome :=
  let (option, id) := parse_key key in
  let scene := find (fun scene => String.eqb (Scene.id scene) id) (scenes st) in
  if String.eqb option "add" then setActiveScene answer st new_anim
  else if String.eqb option "editanim" then
    match scene with
    | Some sc => setActiveScene answer st sc
    | None => setActiveScene_undefined answer st
    end
  else if String.eqb option "delanim" then
    match scene with
    | None => Throw (TypeError "scene is undefined") st
    | Some _ => if deleteOk then Ok (delete_scene st id) else Ok st
    end
  else Ok st.

(** ** The furniture panel *)

(** [scene.furniture] as the panel reads and writes it; the store above
    carries it as an opaque field. *)
Module Furniture.
Record t := mk {
  furni_types : list string;
  allow_bed : bool;
  offset : Info
}.
End Furniture.

Definition none_type : string := "None".

(** [arr.indexOf(v)]; [None] stands for the result [-1]. *)
Definition indexOf (v : string) (arr : list string) : option nat :=
  Js.findIndex (String.eqb v) arr.

(** [arr.includes(v)]. *)
Definition includes (v : string) (arr : list string) : bool :=
  existsb (String.eqb v) arr.

(** [onSelect] of the furniture selection. *)
Definition furniture_onSelect (value : string) (prev : Furniture.t) : Furniture.t :=
  if String.eqb value none_type then
    Furniture.mk [value] (Furniture.allow_bed prev) (Furniture.offset prev)
  else
    let types :=
      match indexOf none_type (Furniture.furni_types prev) with
      | None => Js.push (Furniture.furni_types prev) value
      | Some where_ => Js.set_nth where_ value (Furniture.furni_types prev)
      end in
    Furniture.mk types false (Furniture.offset prev).

(** [onDeselect] of the furniture selection. *)
Definition furniture_onDeselect (value : string) (prev : Furniture.t)
  : Furniture.t :=
  let types :=
    filter (fun it => negb (String.eqb it value)) (Furniture.furni_types prev) in
  Furniture.mk
    (if (length types =? 0) then [none_type] else types)
    (Furniture.allow_bed prev) (Furniture.offset prev).

(** The [disabled] property of the "Allow Bed" checkbox. *)
Definition allow_bed_disabled (f : Furniture.t) : bool :=
  negb (includes none_type (Furniture.furni_types f)).

(** [onChange] of the "Allow Bed" checkbox. *)
Definition allow_bed_onChange (checked : bool) (prev : Furniture.t) : Furniture.t :=
  Furniture.mk (Furniture.furni_types prev) checked (Furniture.offset prev).

(** ** Further invariants *)

(** [root], if set, is the id of a stage of the scene. *)
Definition root_in_stages (sc : Scene.t) : Prop :=
  match Scene.root sc with
  | None => True
  | Some r => In r (map Stage.id (Scene.stages sc))
  end.

(** Every node of the canvas stands for a stage of the active scene. *)
Definition nodes_are_stages (st : State) : Prop :=
  forall n, In n (Canvas.nodes (graph st)) ->
    exists a, activeScene st = Some a
              /\ In (Node.id n) (map Stage.id (Scene.stages a)).

(** The furniture settings the panel keeps: some type is always chosen,
    "None" is never chosen together with another type, and a bed is allowed
    only with "None". *)
Definition furniture_ok (f : Furniture.t) : Prop :=
  Furniture.furni_types f <> []
  /\ (In none_type (Furniture.furni_types f) -> Furniture.furni_types f = [none_type])
  /\ (Furniture.allow_bed f = true -> In none_type (Furniture.furni_types f)).

(** The placement grid of [addStageToGraph]: the next cell. *)
Definition next_cell (width : Z) (c : Cursor) : Cursor :=
  let x := (fst c + gridSize)%Z in
  if (width - gridSize <? x)%Z then (40%Z, (snd c + gridSize)%Z) else (x, snd c).

(** The cells of [n] nodes placed one after the other on an empty canvas by
    a closure whose cursor is at [c]. *)
Fixpoint cells_after (width : Z) (c : Cursor) (n : nat) : list Cursor :=
  match n with
  | O => []
  | S n' => next_cell width c :: cells_after width (next_cell width c) n'
  end.

Definition cells (width : Z) (c : Cursor) (n : nat) : list Cursor :=
  match n with
  | O => []
  | S n' => c :: cells_after width c n'
  end.

(** The transitions of a layout: its keys with their destinations. *)
Definition transitions (layout : list (string * Layout.t))
  : list (string * list string) :=
  map (fun entry => (fst entry, Layout.dest (snd entry))) layout.

(** Lines 216-219 of the active branch of [on_stage_saved]: the state once
    the node of the stage is found or created and has its properties. *)
Definition stage_node_ready (st : State) (stage : Stage.t) : State :=
  updateNodeProps stage (activeScene st)
    (match find_node (Stage.id stage) (Canvas.nodes (graph st)) with
     | Some _ => st
     | None => snd (addStageToGraph cursor0 st stage)
     end).

(** Where a node sits. *)
Definition place (n : Node.t) : Cursor := (Node.x n, Node.y n).

(** The start flag of a node is justified by the [root] of [sc]. *)
Definition flag_follows_root (sc : Scene.t) (n : Node.t) : Prop :=
  Node.isStart n = true -> Scene.root sc = Some (Node.id n).

(** The edges [setActiveScene] draws for a layout on a canvas whose nodes
    have the ids [ids]: every stored destination that is such an id. *)
Definition drawn_edges (ids : list string) (layout : list (string * Layout.t))
  : list (string * string) :=
  flat_map
    (fun entry =>
       map (pair (fst entry))
         (filter (fun target => existsb (String.eqb target) ids)
            (Layout.dest (snd entry))))
    layout.

(** ** Sample scenes *)

Definition pos (id : string) : Position.t := Position.mk id [].

Definition stageA : Stage.t := Stage.mk "A" [pos "a0"] 0.
Definition stageB : Stage.t := Stage.mk "B" [pos "b0"] 0.
Definition stageC : Stage.t := Stage.mk "C" [pos "c0"] 0.

(** Stages A, B and C, start A, no layout stored yet. *)
Definition sceneABC : Scene.t :=
  Scene.mk "scene-1" "Intro" (Some "A"%string) [stageA; stageB; stageC] [pos "p0"]
    [] EmptyString [] false false.

Definition sceneBlank : Scene.t :=
  Scene.mk "scene-2" EmptyString None [] [] [] EmptyString [] false false.

Definition nodeOf (stage : Stage.t) (x : Z) (start : bool) : Node.t :=
  Node.mk (Stage.id stage) x 40 (Some stage) (Some sceneABC) (Some 0%Z) start.

(** The canvas of [sceneABC] with the single edge A -> B. *)
Definition canvasAB : Canvas.t :=
  Canvas.mk [nodeOf stageA 40 true; nodeOf stageB 240 false; nodeOf stageC 440 false]
    [("A"%string, "B"%string)] 1000.

Definition emptyCanvas : Canvas.t := Canvas.mk [] [] 1000.

(** [sceneABC] active and dirty; the scenes list is still empty. *)
Definition stateABC : State := mkState [] (Some sceneABC) true false canvasAB 0.

(** [sceneABC] active, [sceneBlank] in the background. *)
Definition stateTwo : State :=
  mkState [sceneABC; sceneBlank] (Some sceneABC) true false canvasAB 0.

(** The blank scene active on an empty canvas. *)
Definition stateBlank : State :=
  mkState [sceneABC; sceneBlank] (Some sceneBlank) false false emptyCanvas 0.

(** A clock that advances one millisecond per call and a random source that
    keeps returning the same number. *)
Definition tickingWorld : World :=
  fun k => mkDraw (1700000000000 + N.of_nat k) "0.4fzyo82mvyr".

Definition addToScene1 : PositionAddMsg := mkAdd "scene-1" [] [].

(** The same canvas with the edges A -> B -> C. *)
Definition canvasChain : Canvas.t :=
  Canvas.with_edges [("A"%string, "B"%string); ("B"%string, "C"%string)] canvasAB.

Definition stateChain : State := mkState [] (Some sceneABC) true false canvasChain 0.

(** [sceneABC] as saved from [canvasAB]. *)
Definition sceneStored : Scene.t :=
  Scene.with_graph
    [("A"%string, Layout.mk 40 40 ["B"%string]);
     ("B"%string, Layout.mk 240 40 []);
     ("C"%string, Layout.mk 440 40 [])] sceneABC.

(** A scene whose only stage has one position more than the scene itself. *)
Definition sceneShort : Scene.t :=
  Scene.mk "scene-3" "Short" (Some "A"%string) [stageA] []
    [] EmptyString [] false false.

Definition stateShort : State :=
  mkState [] (Some sceneShort) false false emptyCanvas 0.

(** [sceneABC] with a stored layout that has an entry for a stage "Z" the
    scene does not have. *)
Definition sceneTorn : Scene.t :=
  Scene.with_graph
    [("A"%string, Layout.mk 40 40 ["B"%string]);
     ("Z"%string, Layout.mk 240 40 []);
     ("B"%string, Layout.mk 440 40 [])] sceneABC.

(** A scene whose id holds an underscore, listed and not active. *)
Definition sceneUnder : Scene.t :=
  Scene.mk "my_scene" "Outro" None [] [] [] EmptyString [] false false.

Definition stateUnder : State :=
  mkState [sceneABC; sceneUnder] (Some sceneABC) false false canvasAB 0.

(** A stage editor changes the first position of "scene-1". *)
Definition changeFirst : PositionChangeMsg :=
  mkChange "scene-1" (FromStage "A") 0 [("sex"%string, "female"%string)].

(** The same message at the index just past the end. *)
Definition changePastEnd : PositionChangeMsg :=
  mkChange "scene-1" (FromStage "A") 1 [("sex"%string, "female"%string)].

(** Stage B saved again for "scene-1". *)
Definition savedB : StageSavedMsg := mkSaved "scene-1" [pos "p0"] stageB.

(** What [saveScene] hands to the persistence call in [stateABC]. *)
Definition sceneHanded : Scene.t :=
  Scene.with_has_warnings true
    (Scene.with_graph (serialize_graph canvasAB) sceneABC).

Definition effectsABC : SaveEffects :=
  mkEffects [UnreachableStages] (Some sceneHanded).

(** No furniture, bed allowed. *)
Definition furnitureBed : Furniture.t := Furniture.mk [none_type] true [].

(** A clock that stands still and a random source that keeps returning the
    same number. *)
Definition stuckWorld : World :=
  fun _ => mkDraw 1700000000000 "0.4fzyo82mvyr".

(** The blank scene active and dirty: something was changed, no name was
    given. *)
Definition stateUnnamed : State :=
  mkState [sceneABC; sceneBlank] (Some sceneBlank) true false emptyCanvas 0.

Definition stageD : Stage.t := Stage.mk "D" [pos "d0"] 0.

(** A new stage D saved for "scene-1". *)
Definition savedD : StageSavedMsg := mkSaved "scene-1" [pos "p0"] stageD.

(** Stage A saved for the listed blank scene "scene-2". *)
Definition savedIntoBlank : StageSavedMsg := mkSaved "scene-2" [pos "p0"] stageA.

(** * Properties *)

(** ** Arrays *)

Lemma filter_from_all {A : Type} (keep : Z -> bool) (l : list A) :
  forall from,
    (forall i, (from <= i < from + Z.of_nat (length l))%Z -> keep i = true) ->
    Js.filter_from keep from l = l.
Proof.
  induction l as [|a l IH]; intros from Hkeep; simpl; [reflexivity|].
  rewrite Hkeep by (simpl length; lia).
  f_equal. apply IH. intros i Hi. apply Hkeep. simpl length. lia.
Qed.

Lemma filter_index_outside {A : Type} (idx : Z) (l : list A) :
  (idx < 0 \/ Z.of_nat (length l) <= idx)%Z ->
  Js.filter_index (drop_index idx) l = l.
Proof.
  intros Hout. apply filter_from_all. intros i Hi.
  unfold drop_index. apply negb_true_iff, Z.eqb_neq. lia.
Qed.

Lemma filter_from_drop_length {A : Type} (idx : Z) (l : list A) :
  forall from,
    (from <= idx < from + Z.of_nat (length l))%Z ->
    S (length (Js.filter_from (drop_index idx) from l)) = length l.
Proof.
  induction l as [|a l IH]; intros from Hin; simpl in *; [lia|].
  unfold drop_index at 1. destruct (Z.eqb_spec from idx) as [->|Hne]; simpl.
  - rewrite filter_from_all; [reflexivity|].
    intros i Hi. unfold drop_index. apply negb_true_iff, Z.eqb_neq. lia.
  - f_equal. apply IH. lia.
Qed.

Lemma filter_index_inside_length {A : Type} (idx : Z) (l : list A) :
  (0 <= idx < Z.of_nat (length l))%Z ->
  S (length (Js.filter_index (drop_index idx) l)) = length l.
Proof. intros H. apply filter_from_drop_length. lia. Qed.

Lemma set_nth_length {A : Type} (v : A) (l : list A) :
  forall i, length (Js.set_nth i v l) = length l.
Proof. induction l; destruct i; simpl; auto. Qed.

Lemma nth_error_set_nth_same {A : Type} (v : A) (l : list A) :
  forall i, i < length l -> nth_error (Js.set_nth i v l) i = Some v.
Proof.
  induction l as [|a l IH]; intros [|i] Hi; simpl in *; try lia; auto.
  apply IH. lia.
Qed.

Lemma nth_error_set_nth_other {A : Type} (v : A) (l : list A) :
  forall i j, i <> j -> nth_error (Js.set_nth i v l) j = nth_error l j.
Proof.
  induction l as [|a l IH]; intros [|i] [|j] Hne; simpl; auto; try congruence.
Qed.

Lemma findIndex_some {A : Type} (p : A -> bool) (l : list A) :
  forall i, Js.findIndex p l = Some i ->
    exists a, nth_error l i = Some a /\ p a = true.
Proof.
  induction l as [|a l IH]; simpl; intros i H; [discriminate|].
  destruct (p a) eqn:Hp.
  - inversion H; subst. exists a; auto.
  - destruct (Js.findIndex p l) as [j|]; [|discriminate].
    inversion H; subst. simpl. apply IH. reflexivity.
Qed.

(** Replacing the found element by one that still satisfies [p] does not
    move the search. *)
Lemma findIndex_set_nth {A : Type} (p : A -> bool) (v : A) (l : list A) :
  forall i, Js.findIndex p l = Some i -> p v = true ->
    Js.findIndex p (Js.set_nth i v l) = Some i.
Proof.
  induction l as [|a l IH]; simpl; intros i H Hv; [discriminate|].
  destruct (p a) eqn:Hp.
  - inversion H; subst. simpl. rewrite Hv. reflexivity.
  - destruct (Js.findIndex p l) as [j|] eqn:Hj; [|discriminate].
    inversion H; subst. simpl. rewrite Hp. rewrite (IH j); auto.
Qed.

(** ** Position lists *)

Lemma remove_position_positions (idx : Z) (sc : Scene.t) :
  Scene.positions (remove_position idx sc)
  = Js.filter_index (drop_index idx) (Scene.positions sc).
Proof. reflexivity. Qed.

Lemma remove_position_stages (idx : Z) (sc : Scene.t) :
  Scene.stages (remove_position idx sc)
  = map (remove_from_stage idx) (Scene.stages sc).
Proof. reflexivity. Qed.

Lemma remove_from_stage_outside (idx : Z) (stage : Stage.t) :
  (idx < 0 \/ Z.of_nat (length (Stage.positions stage)) <= idx)%Z ->
  remove_from_stage idx stage = stage.
Proof.
  intros Hout. unfold remove_from_stage.
  destruct (Z.leb_spec 0 idx); destruct (Z.ltb_spec idx (Z.of_nat (length (Stage.positions stage))));
    simpl; try reflexivity; lia.
Qed.

Lemma remove_from_stage_inside_length (idx : Z) (stage : Stage.t) :
  (0 <= idx < Z.of_nat (length (Stage.positions stage)))%Z ->
  S (length (Stage.positions (remove_from_stage idx stage)))
  = length (Stage.positions stage).
Proof.
  intros Hin. unfold remove_from_stage.
  destruct (Z.leb_spec 0 idx); destruct (Z.ltb_spec idx (Z.of_nat (length (Stage.positions stage))));
    simpl; try lia.
  apply filter_index_inside_length. lia.
Qed.

Lemma remove_position_parallel (idx : Z) (sc : Scene.t) :
  parallel sc -> parallel (remove_position idx sc).
Proof.
  unfold parallel. rewrite remove_position_positions, remove_position_stages.
  intros H. apply Forall_map. eapply Forall_impl; [|exact H].
  intros stage Hlen. cbv beta in *.
  destruct (Z_lt_le_dec idx 0) as [Hneg|Hpos].
  - rewrite remove_from_stage_outside, filter_index_outside by lia. exact Hlen.
  - destruct (Z_lt_le_dec idx (Z.of_nat (length (Scene.positions sc)))) as [Hin|Hout].
    + pose proof (@filter_index_inside_length _ idx (Scene.positions sc)) as H1.
      pose proof (@remove_from_stage_inside_length idx stage) as H2.
      rewrite Hlen in H2. specialize (H1 ltac:(lia)). specialize (H2 ltac:(lia)). lia.
    + rewrite remove_from_stage_outside, filter_index_outside by lia. exact Hlen.
Qed.

Lemma push_to_stages_grow (w : World) (p : Info) (stages : list Stage.t) :
  forall k,
    Forall2 (fun before after =>
               length (Stage.positions after) = S (length (Stage.positions before)))
      stages (push_to_stages w k p stages).
Proof.
  induction stages as [|s stages IH]; intros k; simpl; constructor; auto.
  simpl. unfold Js.push. rewrite length_app. simpl. lia.
Qed.

Lemma add_position_parallel (w : World) (k : nat) (m : PositionAddMsg) (sc : Scene.t) :
  parallel sc -> parallel (add_position w k m sc).
Proof.
  unfold parallel, add_position. simpl. intros H.
  unfold Js.push at 1. rewrite length_app. simpl.
  generalize (S k). induction H as [|s l Hs Hl IH]; intros k'; simpl; constructor; auto.
  simpl. unfold Js.push. rewrite length_app. simpl. lia.
Qed.

(** ** Dispatch of the position listeners *)

Lemma nth_error_in_range {A : Type} (l : list A) (i : nat) (a : A) :
  nth_error l i = Some a -> i < length l.
Proof. intros H. apply nth_error_Some. congruence. Qed.

Lemma target_slot_listed (st : State) (sceneId : string) (i : nat) :
  target_slot st sceneId = Some (Listed i) ->
  targetsActive st sceneId = Some false /\
  Js.findIndex (fun it => String.eqb (Scene.id it) sceneId) (scenes st) = Some i.
Proof.
  unfold target_slot. destruct (targetsActive st sceneId) as [[|]|]; try discriminate.
  destruct (Js.findIndex _ _) as [j|]; try discriminate.
  intros H. inversion H; subst. auto.
Qed.

Lemma target_slot_active (st : State) (sceneId : string) :
  target_slot st sceneId = Some ActiveSlot -> targetsActive st sceneId = Some true.
Proof.
  unfold target_slot. destruct (targetsActive st sceneId) as [[|]|]; try discriminate; auto.
  destruct (Js.findIndex _ _); discriminate.
Qed.

Lemma on_position_remove_hit (st : State) (m : PositionRemoveMsg) (s : Slot)
    (sc : Scene.t) :
  target_slot st (rm_sceneId m) = Some s ->
  scene_at st s = Some sc ->
  exists st',
    on_position_remove st m = Ok st' /\
    scene_at st' s = Some (remove_position (rm_positionIdx m) sc) /\
    (forall s', s' <> s -> scene_at st' s' = scene_at st s') /\
    idCalls st' = idCalls st.
Proof.
  intros Ht Hs. destruct s as [|i].
  - apply target_slot_active in Ht. simpl in Hs.
    unfold on_position_remove. rewrite Ht, Hs.
    eexists. split; [reflexivity|]. repeat split.
    intros [|j] Hne; [congruence|reflexivity].
  - apply target_slot_listed in Ht. destruct Ht as [Ht Hi]. simpl in Hs.
    unfold on_position_remove. rewrite Ht, Hi, Hs.
    eexists. split; [reflexivity|]. repeat split.
    + simpl. apply nth_error_set_nth_same. eapply nth_error_in_range; eauto.
    + intros [|j] Hne; [reflexivity|]. simpl.
      apply nth_error_set_nth_other. congruence.
Qed.

Lemma on_position_add_hit (w : World) (st : State) (m : PositionAddMsg)
    (s : Slot) (sc : Scene.t) :
  target_slot st (add_sceneId m) = Some s ->
  scene_at st s = Some sc ->
  exists st',
    on_position_add w st m = Ok st' /\
    scene_at st' s = Some (add_position w (idCalls st) m sc) /\
    (forall s', s' <> s -> scene_at st' s' = scene_at st s') /\
    idCalls st' = idCalls st + add_position_calls sc /\
    target_slot st' (add_sceneId m) = Some s.
Proof.
  intros Ht Hs. destruct s as [|i].
  - pose proof (target_slot_active _ _ Ht) as Hta. simpl in Hs.
    unfold on_position_add. rewrite Hta, Hs.
    eexists. split; [reflexivity|]. repeat split.
    + intros [|j] Hne; [congruence|reflexivity].
    + unfold target_slot, targetsActive in *. simpl.
      destruct (length (scenes st) =? 0); [reflexivity|].
      rewrite Hs in Hta. inversion Hta as [Hid]. rewrite Hid. reflexivity.
  - pose proof (target_slot_listed _ _ Ht) as [Hta Hi]. simpl in Hs.
    unfold on_position_add. rewrite Hta, Hi, Hs.
    eexists. split; [reflexivity|]. repeat split.
    + simpl. apply nth_error_set_nth_same. eapply nth_error_in_range; eauto.
    + intros [|j] Hne; [reflexivity|]. simpl.
      apply nth_error_set_nth_other. congruence.
    + destruct (findIndex_some _ _ Hi) as (a & Ha & Hpa).
      rewrite Hs in Ha. inversion Ha; subst a.
      unfold target_slot, targetsActive in *. simpl.
      rewrite set_nth_length.
      destruct (length (scenes st) =? 0); [discriminate|].
      destruct (activeScene st) as [act|]; [|discriminate].
      inversion Hta as [Hid]. rewrite Hid.
      rewrite findIndex_set_nth; auto.
Qed.

Lemma scene_at_set_nth (st : State) (idx : nat) (old new : Scene.t) (s : Slot)
    (sc : Scene.t) :
  nth_error (scenes st) idx = Some old ->
  scene_at st s = Some sc ->
  scene_at (with_scenes (Js.set_nth idx new (scenes st)) st) s = Some sc
  \/ (s = Listed idx /\ sc = old /\
      scene_at (with_scenes (Js.set_nth idx new (scenes st)) st) s = Some new).
Proof.
  intros Hold Hs. destruct s as [|i]; simpl in *; [left; exact Hs|].
  destruct (Nat.eq_dec idx i) as [->|Hne].
  - right. repeat split; [congruence|].
    apply nth_error_set_nth_same. eapply nth_error_in_range; eauto.
  - left. rewrite nth_error_set_nth_other by exact Hne. exact Hs.
Qed.

(** After the edit every slot holds its former scene, or that scene with one
    position added or removed. *)
Lemma deliver_slot (w : World) (st : State) (e : PositionEdit) (s : Slot)
    (sc : Scene.t) :
  scene_at st s = Some sc ->
  exists sc',
    scene_at (state_of (deliver w st e)) s = Some sc' /\
    (sc' = sc
     \/ (exists k m, sc' = add_position w k m sc)
     \/ (exists idx, sc' = remove_position idx sc)).
Proof.
  intros Hs. destruct e as [m|m]; simpl.
  - unfold on_position_add.
    destruct (targetsActive st (add_sceneId m)) as [[|]|]; simpl; eauto.
    + destruct (activeScene st) as [a|] eqn:Ha; simpl; eauto.
      destruct s as [|i]; simpl in *; eauto.
      rewrite Ha in Hs. inversion Hs; subst.
      eexists. split; [reflexivity|]. right. left. eauto.
    + destruct (Js.findIndex _ (scenes st)) as [idx|]; simpl; eauto.
      destruct (nth_error (scenes st) idx) as [old|] eqn:Hold; simpl; eauto.
      destruct (scene_at_set_nth st idx (add_position w (idCalls st) m old) s Hold Hs)
        as [Hsame|(-> & -> & Hnew)].
      * exists sc. split; [|auto]. destruct s; simpl in *; exact Hsame.
      * eexists. split; [simpl in *; exact Hnew|]. right. left. eauto.
  - unfold on_position_remove.
    destruct (targetsActive st (rm_sceneId m)) as [[|]|]; simpl; eauto.
    + destruct (activeScene st) as [a|] eqn:Ha; simpl; eauto.
      destruct s as [|i]; simpl in *; eauto.
      rewrite Ha in Hs. inversion Hs; subst.
      eexists. split; [reflexivity|]. right. right. eauto.
    + destruct (Js.findIndex _ (scenes st)) as [idx|]; simpl; eauto.
      destruct (nth_error (scenes st) idx) as [old|] eqn:Hold; simpl; eauto.
      destruct (scene_at_set_nth st idx (remove_position (rm_positionIdx m) old) s Hold Hs)
        as [Hsame|(-> & -> & Hnew)].
      * exists sc. split; [exact Hsame|auto].
      * eexists. split; [exact Hnew|]. right. right. eauto.
Qed.

Lemma deliver_parallel (w : World) (st : State) (e : PositionEdit) (s : Slot)
    (sc : Scene.t) :
  scene_at st s = Some sc -> parallel sc ->
  exists sc', scene_at (state_of (deliver w st e)) s = Some sc' /\ parallel sc'.
Proof.
  intros Hs Hp.
  destruct (deliver_slot w st e s Hs) as (sc' & Hat & [->|[(k & m & ->)|(idx & ->)]]);
    eexists; (split; [exact Hat|]);
    auto using add_position_parallel, remove_position_parallel.
Qed.

Lemma run_edits_parallel (w : World) (es : list PositionEdit) :
  forall (st : State) (s : Slot) (sc : Scene.t),
    scene_at st s = Some sc ->
    parallel sc ->
    exists sc', scene_at (run_edits w st es) s = Some sc' /\ parallel sc'.
Proof.
  unfold run_edits.
  induction es as [|e es IH]; intros st s sc Hs Hp; simpl.
  - exists sc. auto.
  - destruct (deliver_parallel w st e s Hs Hp) as (sc1 & Hs1 & Hp1).
    exact (IH _ s sc1 Hs1 Hp1).
Qed.

Lemma remove_from_stage_filter (idx : Z) (stage : Stage.t) :
  Stage.positions (remove_from_stage idx stage)
  = Js.filter_index (drop_index idx) (Stage.positions stage).
Proof.
  unfold remove_from_stage.
  destruct (Z.leb_spec 0 idx);
    destruct (Z.ltb_spec idx (Z.of_nat (length (Stage.positions stage))));
    simpl; try reflexivity; symmetry; apply filter_index_outside; lia.
Qed.

Lemma remove_position_same_index (idx : Z) (sc : Scene.t) :
  Forall2 (fun before after =>
             Stage.positions after
             = Js.filter_index (drop_index idx) (Stage.positions before))
    (Scene.stages sc) (Scene.stages (remove_position idx sc)).
Proof.
  rewrite remove_position_stages.
  induction (Scene.stages sc) as [|stage l IH]; simpl; constructor; auto.
  apply remove_from_stage_filter.
Qed.

(** C1.  In a scene whose stages' position lists are all as long as
    [scene.positions], that stays so after any sequence of position-added and
    position-removed messages: whatever slot of the store the scene is in
    (active or listed), after the whole sequence, hence after each of its
    messages, the slot still holds a scene with parallel lists.  An add makes
    [scene.positions] and every stage's list one entry longer; a remove
    filters the same index out of [scene.positions] and of every stage's
    list. *)
Theorem position_edits_keep_lists_parallel (w : World) (es : list PositionEdit)
    (st : State) (s : Slot) (sc : Scene.t) :
  scene_at st s = Some sc ->
  parallel sc ->
  (exists sc', scene_at (run_edits w st es) s = Some sc' /\ parallel sc')
  /\ (forall k m,
        length (Scene.positions (add_position w k m sc))
        = S (length (Scene.positions sc))
        /\ Forall2 (fun before after =>
                      length (Stage.positions after)
                      = S (length (Stage.positions before)))
             (Scene.stages sc) (Scene.stages (add_position w k m sc)))
  /\ (forall idx,
        Scene.positions (remove_position idx sc)
        = Js.filter_index (drop_index idx) (Scene.positions sc)
        /\ Forall2 (fun before after =>
                      Stage.positions after
                      = Js.filter_index (drop_index idx) (Stage.positions before))
             (Scene.stages sc) (Scene.stages (remove_position idx sc))).
Proof.
  intros Hs Hp. split; [|split].
  - exact (run_edits_parallel w es st s Hs Hp).
  - intros k m. split.
    + simpl. unfold Js.push. rewrite length_app. simpl. lia.
    + apply push_to_stages_grow.
  - intros idx. split; [reflexivity|apply remove_position_same_index].
Qed.

(** C10.  A position-removed message whose index lies outside
    [0, |scene.positions|) is processed without an exception; the target
    scene keeps [scene.positions] and gets [has_warnings = true].  A stage
    keeps its list when the index is outside that stage's own range
    [0, |stage.positions|), which the listener tests stage by stage; so all
    stages keep theirs when their lists are as long as [scene.positions]. *)
Theorem remove_out_of_range_only_warns (st : State) (m : PositionRemoveMsg)
    (s : Slot) (sc : Scene.t) :
  target_slot st (rm_sceneId m) = Some s ->
  scene_at st s = Some sc ->
  (rm_positionIdx m < 0
   \/ Z.of_nat (length (Scene.positions sc)) <= rm_positionIdx m)%Z ->
  exists st' sc',
    on_position_remove st m = Ok st' /\
    scene_at st' s = Some sc' /\
    Scene.positions sc' = Scene.positions sc /\
    Scene.has_warnings sc' = true /\
    Forall2 (fun before after =>
               (rm_positionIdx m < 0
                \/ Z.of_nat (length (Stage.positions before)) <= rm_positionIdx m)%Z ->
               after = before)
      (Scene.stages sc) (Scene.stages sc') /\
    (parallel sc -> Scene.stages sc' = Scene.stages sc).
Proof.
  intros Ht Hs Hout.
  destruct (on_position_remove_hit st m Ht Hs) as (st' & Hrun & Hat & _).
  exists st', (remove_position (rm_positionIdx m) sc).
  split; [exact Hrun|]. split; [exact Hat|]. split; [|split; [|split]].
  - rewrite remove_position_positions. apply filter_index_outside. exact Hout.
  - reflexivity.
  - rewrite remove_position_stages.
    induction (Scene.stages sc) as [|stage l IH]; simpl; constructor; auto.
    apply remove_from_stage_outside.
  - intros Hp. rewrite remove_position_stages.
    unfold parallel in Hp.
    induction Hp as [|stage l Hlen Hl IH]; simpl; [reflexivity|].
    rewrite IH. f_equal. apply remove_from_stage_outside. rewrite Hlen. exact Hout.
Qed.

(** ** Replaying an add *)

Lemma appended_ids_two (l : list Position.t) (p q : Position.t) :
  appended_ids l (Js.push (Js.push l p) q) = [Position.id p; Position.id q].
Proof.
  unfold appended_ids, Js.push. rewrite <- app_assoc, skipn_app.
  rewrite skipn_all, Nat.sub_diag. reflexivity.
Qed.

Lemma stage_ids_of_two_adds (w : World) (p : Info) (stages : list Stage.t) :
  forall a b,
    flat_map
      (fun x => appended_ids (Stage.positions (fst x)) (Stage.positions (snd x)))
      (combine stages (push_to_stages w b p (push_to_stages w a p stages)))
    = map (fun c => generatePositionId (w c)) (call_pairs a b (length stages)).
Proof.
  induction stages as [|s stages IH]; intros a b; simpl; [reflexivity|].
  rewrite appended_ids_two. simpl. rewrite IH. reflexivity.
Qed.

Lemma call_pairs_range (n : nat) :
  forall a b x, In x (call_pairs a b n) -> a <= x < a + n \/ b <= x < b + n.
Proof.
  induction n as [|n IH]; intros a b x Hin; simpl in Hin; [contradiction|].
  destruct Hin as [<-|[<-|Hin]]; try lia.
  apply IH in Hin. lia.
Qed.

Lemma call_pairs_nodup (n : nat) :
  forall a b, a + n <= b -> NoDup (call_pairs a b n).
Proof.
  induction n as [|n IH]; intros a b Hab; simpl; constructor.
  - intros [Heq|Hin]; [lia|]. apply call_pairs_range in Hin. lia.
  - constructor.
    + intros Hin. apply call_pairs_range in Hin. lia.
    + apply IH. lia.
Qed.

(** The calls of two consecutive runs of [add_position] on [n] stages. *)
Lemma calls_of_two_adds_nodup (k n : nat) :
  NoDup (k :: (k + S n) :: call_pairs (S k) (S (k + S n)) n).
Proof.
  constructor.
  - intros [Heq|Hin]; [lia|]. apply call_pairs_range in Hin. lia.
  - constructor.
    + intros Hin. apply call_pairs_range in Hin. lia.
    + apply call_pairs_nodup. lia.
Qed.

Lemma new_ids_of_two_adds (w : World) (k : nat) (m : PositionAddMsg) (sc : Scene.t) :
  let n := length (Scene.stages sc) in
  new_position_ids sc (add_position w (k + S n) m (add_position w k m sc))
  = map (fun c => generatePositionId (w c))
      (k :: (k + S n) :: call_pairs (S k) (S (k + S n)) n).
Proof.
  intros n. unfold new_position_ids, add_position. simpl.
  rewrite appended_ids_two. simpl. f_equal. f_equal.
  apply stage_ids_of_two_adds.
Qed.

(** ** The identifiers of [generatePositionId] *)

Lemma timestamp_then_suffix (u1 : Decimal.uint) :
  forall (u2 : Decimal.uint) (s1 s2 : string),
    String.append (NilEmpty.string_of_uint u1) (String.append "_" s1)
    = String.append (NilEmpty.string_of_uint u2) (String.append "_" s2) ->
    u1 = u2 /\ s1 = s2.
Proof.
  induction u1; intros u2 s1 s2 H; destruct u2; simpl in H;
    try discriminate H; injection H as H;
    try (split; [reflexivity|exact H]);
    destruct (IHu1 _ _ _ H) as [-> ->]; split; reflexivity.
Qed.

(** Two calls return the same identifier exactly when they read the same
    millisecond and the same suffix. *)
Lemma generatePositionId_same (d1 d2 : Draw) :
  generatePositionId d1 = generatePositionId d2 <-> same_reading d1 d2.
Proof.
  unfold same_reading, suffix, generatePositionId. split.
  - intros H. apply timestamp_then_suffix in H. destruct H as [Hnow Hsuffix].
    apply Unsigned.to_uint_inj in Hnow. split; assumption.
  - intros [Hnow Hsuffix]. rewrite Hnow, Hsuffix. reflexivity.
Qed.

Lemma nodup_map_calls {B : Type} (f : nat -> B) (l : list nat) :
  NoDup l ->
  (NoDup (map f l)
   <-> forall x y, In x l -> In y l -> x <> y -> f x <> f y).
Proof.
  intros Hl. split.
  - induction l as [|a l IH]; intros Hm x y Hx Hy Hxy Heq; [destruct Hx|].
    simpl in Hm. inversion Hm as [|? ? Hnotin Hrest]; subst.
    inversion Hl as [|? ? _ Hl']; subst.
    destruct Hx as [<-|Hx], Hy as [<-|Hy].
    + apply Hxy. reflexivity.
    + apply Hnotin. rewrite Heq. apply in_map. exact Hy.
    + apply Hnotin. rewrite <- Heq. apply in_map. exact Hx.
    + exact (IH Hl' Hrest x y Hx Hy Hxy Heq).
  - intros Hfresh. apply NoDup_map_NoDup_ForallPairs; [|exact Hl].
    intros x y Hx Hy Heq.
    destruct (Nat.eq_dec x y) as [Hxy|Hxy]; [exact Hxy|].
    exfalso. exact (Hfresh x y Hx Hy Hxy Heq).
Qed.

(** C8.  Processing the same position-added message twice gives two
    entries, not one: each processing succeeds and makes [scene.positions]
    and every stage's list of the target scene exactly one entry longer.
    Every appended entry takes its id from a call of [generatePositionId] of
    its own, none of them made before.  Nothing compares the ids: those of
    the appended entries are pairwise different exactly when no two of
    these calls read the same millisecond together with the same random
    suffix. *)
Theorem replayed_add_makes_two_positions (w : World) (st : State)
    (m : PositionAddMsg) (s : Slot) (sc : Scene.t) :
  target_slot st (add_sceneId m) = Some s ->
  scene_at st s = Some sc ->
  exists st1 st2 sc1 sc2 calls,
    on_position_add w st m = Ok st1 /\ scene_at st1 s = Some sc1 /\
    on_position_add w st1 m = Ok st2 /\ scene_at st2 s = Some sc2 /\
    length (Scene.positions sc1) = 1 + length (Scene.positions sc) /\
    length (Scene.positions sc2) = 2 + length (Scene.positions sc) /\
    Forall2 (fun before after =>
               length (Stage.positions after) = 1 + length (Stage.positions before))
      (Scene.stages sc) (Scene.stages sc1) /\
    Forall2 (fun before after =>
               length (Stage.positions after) = 1 + length (Stage.positions before))
      (Scene.stages sc1) (Scene.stages sc2) /\
    new_position_ids sc sc2 = map (fun c => generatePositionId (w c)) calls /\
    length calls = 2 * add_position_calls sc /\
    NoDup calls /\
    Forall (fun c => idCalls st <= c < idCalls st + 2 * add_position_calls sc)
      calls /\
    (NoDup (new_position_ids sc sc2)
     <-> forall c1 c2, In c1 calls -> In c2 calls -> c1 <> c2 ->
                       ~ same_reading (w c1) (w c2)).
Proof.
  intros Ht Hs.
  destruct (on_position_add_hit w st m Ht Hs)
    as (st1 & Hrun1 & Hat1 & _ & Hcalls1 & Ht1).
  destruct (on_position_add_hit w st1 m Ht1 Hat1)
    as (st2 & Hrun2 & Hat2 & _ & _ & _).
  set (k := idCalls st) in *. set (n := length (Scene.stages sc)).
  exists st1, st2, (add_position w k m sc),
    (add_position w (idCalls st1) m (add_position w k m sc)),
    (k :: (k + S n) :: call_pairs (S k) (S (k + S n)) n).
  repeat (split; [assumption|]).
  assert (Hk : idCalls st1 = k + S n) by (rewrite Hcalls1; reflexivity).
  rewrite Hk.
  split; [simpl; unfold Js.push; rewrite length_app; simpl; lia|].
  split; [simpl; unfold Js.push; rewrite !length_app; simpl; lia|].
  split; [apply push_to_stages_grow|].
  split; [apply push_to_stages_grow|].
  split; [apply new_ids_of_two_adds|].
  split.
  { assert (Hlen : forall n a b, length (call_pairs a b n) = 2 * n)
      by (induction n0; intros; simpl; [reflexivity|rewrite IHn0; lia]).
    simpl. rewrite Hlen. unfold add_position_calls. fold n. lia. }
  split; [apply calls_of_two_adds_nodup|].
  split.
  { apply Forall_forall. unfold add_position_calls. fold n.
    intros x [<-|[<-|Hin]]; try lia.
    apply call_pairs_range in Hin. lia. }
  rewrite new_ids_of_two_adds. fold n.
  rewrite (nodup_map_calls (fun c => generatePositionId (w c))
             (calls_of_two_adds_nodup k n)).
  split; intros Hfresh c1 c2 Hc1 Hc2 Hne.
  - rewrite <- generatePositionId_same. exact (Hfresh c1 c2 Hc1 Hc2 Hne).
  - rewrite generatePositionId_same. exact (Hfresh c1 c2 Hc1 Hc2 Hne).
Qed.

(** ** Reachability *)

Lemma visitedb_In (x : string) (visited : list string) :
  visitedb x visited = true <-> In x visited.
Proof.
  unfold visitedb. rewrite existsb_exists. split.
  - intros (y & Hy & Heq). apply String.eqb_eq in Heq. subst. exact Hy.
  - intros Hin. exists x. split; [exact Hin|apply String.eqb_refl].
Qed.

Lemma visitedb_not_In (x : string) (visited : list string) :
  visitedb x visited = false <-> ~ In x visited.
Proof.
  rewrite <- visitedb_In. destruct (visitedb x visited); split; congruence.
Qed.

Lemma neighbors_length (g : Canvas.t) (x : string) :
  length (neighbors g x)
  <= length (filter (fun e => String.eqb (fst e) x) (Canvas.edges g)).
Proof.
  unfold neighbors. etransitivity; [apply filter_length_le|].
  rewrite length_map. reflexivity.
Qed.

Lemma pending_visit (g : Canvas.t) (x : string) (visited : list string) :
  visitedb x visited = false ->
  pending g (x :: visited)
  + length (filter (fun e => String.eqb (fst e) x) (Canvas.edges g))
  = pending g visited.
Proof.
  intros Hx. unfold pending.
  induction (Canvas.edges g) as [|e l IH]; [reflexivity|].
  cbn [filter].
  change (visitedb (fst e) (x :: visited))
    with (String.eqb (fst e) x || visitedb (fst e) visited)%bool.
  destruct (String.eqb_spec (fst e) x) as [Heq|Hne]; cbn [orb negb].
  - rewrite Heq, Hx. cbn [negb length]. lia.
  - destruct (visitedb (fst e) visited); cbn [negb length]; lia.
Qed.

Lemma reach_snoc (g : Canvas.t) (x y z : string) :
  reach g x y -> In z (neighbors g y) -> reach g x z.
Proof.
  induction 1 as [x|x y' y Hxy Hreach IH]; intros Hz.
  - eapply reach_next; [exact Hz|apply reach_here].
  - eapply reach_next; [exact Hxy|apply IH; exact Hz].
Qed.

Lemma dfs_sound (g : Canvas.t) (s : string) (fuel : nat) :
  forall stack visited,
    (forall y, In y visited -> reach g s y) ->
    (forall y, In y stack -> reach g s y) ->
    forall y, In y (dfs g fuel stack visited) -> reach g s y.
Proof.
  induction fuel as [|fuel IH]; intros stack visited Hv Hs; simpl; [exact Hv|].
  destruct stack as [|next rest]; [exact Hv|].
  destruct (visitedb next visited).
  - apply IH; [exact Hv|]. intros y Hy. apply Hs. right. exact Hy.
  - apply IH.
    + intros y [<-|Hy]; [apply Hs; left; reflexivity|apply Hv; exact Hy].
    + intros y Hy. apply in_app_or in Hy. destruct Hy as [Hy|Hy].
      * eapply reach_snoc; [apply Hs; left; reflexivity|exact Hy].
      * apply Hs. right. exact Hy.
Qed.

Lemma dfs_nodup (g : Canvas.t) (fuel : nat) :
  forall stack visited, NoDup visited -> NoDup (dfs g fuel stack visited).
Proof.
  induction fuel as [|fuel IH]; intros stack visited Hv; simpl; [exact Hv|].
  destruct stack as [|next rest]; [exact Hv|].
  destruct (visitedb next visited) eqn:Hnext.
  - apply IH. exact Hv.
  - apply IH. constructor; [|exact Hv]. apply visitedb_not_In. exact Hnext.
Qed.

(** With enough fuel the search ends on an empty stack: what it returns is
    closed under the edges and holds everything it was given. *)
Lemma dfs_closed (g : Canvas.t) (fuel : nat) :
  forall stack visited,
    length stack + pending g visited <= fuel ->
    (forall x y, In x visited -> In y (neighbors g x) ->
                 In y visited \/ In y stack) ->
    let R := dfs g fuel stack visited in
    (forall x y, In x R -> In y (neighbors g x) -> In y R)
    /\ incl visited R /\ incl stack R.
Proof.
  induction fuel as [|fuel IH]; intros stack visited Hfuel Hinv; simpl.
  - destruct stack; simpl in Hfuel; [|lia].
    split; [|split]; try (intros x Hx; exact Hx).
    intros x y Hx Hy. destruct (Hinv x y Hx Hy) as [H|[]]. exact H.
    intros x [].
  - destruct stack as [|next rest].
    + split; [|split]; try (intros x Hx; exact Hx).
      intros x y Hx Hy. destruct (Hinv x y Hx Hy) as [H|[]]. exact H.
      intros x [].
    + destruct (visitedb next visited) eqn:Hnext.
      * apply visitedb_In in Hnext.
        destruct (IH rest visited) as (Hc & Hv & Hs).
        { simpl in Hfuel. lia. }
        { intros x y Hx Hy. destruct (Hinv x y Hx Hy) as [H|[<-|H]]; auto. }
        split; [exact Hc|]. split; [exact Hv|].
        intros x [<-|Hx]; [apply Hv; exact Hnext|apply Hs; exact Hx].
      * destruct (IH (neighbors g next ++ rest) (next :: visited)) as (Hc & Hv & Hs).
        { pose proof (pending_visit g next visited Hnext).
          pose proof (neighbors_length g next).
          rewrite length_app. simpl in Hfuel. lia. }
        { intros x y [<-|Hx] Hy.
          - right. apply in_or_app. left. exact Hy.
          - destruct (Hinv x y Hx Hy) as [H|[<-|H]].
            + left. right. exact H.
            + left. left. reflexivity.
            + right. apply in_or_app. right. exact H. }
        split; [exact Hc|]. split.
        { intros x Hx. apply Hv. right. exact Hx. }
        { intros x [<-|Hx]; [apply Hv; left; reflexivity|].
          apply Hs. apply in_or_app. right. exact Hx. }
Qed.

Lemma pending_nil (g : Canvas.t) : pending g [] = length (Canvas.edges g).
Proof.
  unfold pending.
  induction (Canvas.edges g) as [|e l IH]; [reflexivity|].
  cbn [filter visitedb existsb negb length]. f_equal. exact IH.
Qed.

(** What the search from [start] returns is exactly what is reachable. *)
Lemma dfs_reach (g : Canvas.t) (start y : string) :
  In y (dfs g (S (length (Canvas.edges g))) [start] []) <-> reach g start y.
Proof.
  split.
  - apply dfs_sound.
    + intros z [].
    + intros z [<-|[]]. apply reach_here.
  - intros Hreach.
    destruct (@dfs_closed g (S (length (Canvas.edges g))) [start] [])
      as (Hc & _ & Hs).
    { rewrite pending_nil. simpl. lia. }
    { intros x z []. }
    assert (Hstart : In start (dfs g (S (length (Canvas.edges g))) [start] []))
      by (apply Hs; left; reflexivity).
    clear Hs. revert Hc Hstart.
    generalize (dfs g (S (length (Canvas.edges g))) [start] []). intros R Hc.
    induction Hreach as [x|x y' z Hxy Hreach IH]; intros Hx; [exact Hx|].
    apply IH. eapply Hc; [exact Hx|exact Hxy].
Qed.

Lemma getSuccessors_spec (g : Canvas.t) (start y : string) :
  In y (getSuccessors g start) <-> y <> start /\ reach g start y.
Proof.
  unfold getSuccessors. rewrite filter_In, <- in_rev, dfs_reach.
  rewrite negb_true_iff, String.eqb_neq. tauto.
Qed.

Lemma getSuccessors_nodup (g : Canvas.t) (start : string) :
  NoDup (getSuccessors g start).
Proof.
  unfold getSuccessors. apply NoDup_filter, NoDup_rev, dfs_nodup. constructor.
Qed.

Lemma on_canvas_In (g : Canvas.t) (id : string) :
  on_canvas g id = true <-> In id (map Node.id (Canvas.nodes g)).
Proof.
  unfold on_canvas, has_id. rewrite existsb_exists, in_map_iff. split.
  - intros (n & Hn & Heq). apply String.eqb_eq in Heq. eauto.
  - intros (n & Heq & Hn). exists n. split; [exact Hn|]. apply String.eqb_eq. exact Heq.
Qed.

Lemma reach_on_canvas (g : Canvas.t) (x y : string) :
  reach g x y -> y = x \/ on_canvas g y = true.
Proof.
  induction 1 as [x|x y' z Hxy Hreach IH]; [left; reflexivity|].
  destruct IH as [->|H]; [|right; exact H].
  right. unfold neighbors in Hxy. apply filter_In in Hxy. tauto.
Qed.

Lemma filter_hit_length {A : Type} (f : A -> bool) (l : list A) (x : A) :
  In x l -> f x = true -> 1 <= length (filter f l).
Proof.
  intros Hin Hf. assert (H : In x (filter f l)) by (apply filter_In; auto).
  destruct (filter f l); [destruct H|simpl; lia].
Qed.

(** The successors never outnumber the other nodes of the canvas. *)
Lemma getSuccessors_bound (g : Canvas.t) (start : string) :
  on_canvas g start = true ->
  length (getSuccessors g start) + 1 <= length (Canvas.nodes g).
Proof.
  intros Hstart. apply on_canvas_In in Hstart.
  set (others := filter (fun id => negb (String.eqb id start)) (map Node.id (Canvas.nodes g))).
  assert (Hle : length (getSuccessors g start) <= length others).
  { apply NoDup_incl_length; [apply getSuccessors_nodup|].
    intros y Hy. apply getSuccessors_spec in Hy. destruct Hy as [Hne Hreach].
    apply filter_In. split.
    - apply reach_on_canvas in Hreach. destruct Hreach as [->|H]; [congruence|].
      apply on_canvas_In. exact H.
    - apply negb_true_iff, String.eqb_neq. exact Hne. }
  pose proof (filter_length (fun id => negb (String.eqb id start))
                (map Node.id (Canvas.nodes g))) as Hsplit.
  assert (Hone : 1 <= length (filter (fun id => negb (negb (String.eqb id start)))
                            (map Node.id (Canvas.nodes g)))).
  { eapply filter_hit_length; [exact Hstart|].
    rewrite negb_involutive. apply String.eqb_refl. }
  rewrite length_map in Hsplit. fold others in Hsplit. lia.
Qed.

(** ** Saving *)

Lemma find_node_some (id : string) (nodes : list Node.t) (n : Node.t) :
  find_node id nodes = Some n -> In n nodes /\ Node.id n = id.
Proof.
  unfold find_node, has_id. intros H. apply find_some in H.
  destruct H as [Hin Heq]. apply String.eqb_eq in Heq. auto.
Qed.

Lemma find_start_on_canvas (a : Scene.t) (g : Canvas.t) (startNode : Node.t) :
  find_start a g = Some startNode ->
  Scene.root a = Some (Node.id startNode) /\ on_canvas g (Node.id startNode) = true.
Proof.
  unfold find_start. destruct (Scene.root a) as [r|]; [|discriminate].
  intros H. apply find_node_some in H. destruct H as [Hin <-].
  split; [reflexivity|]. apply on_canvas_In. apply in_map. exact Hin.
Qed.

(** C2.  When the active scene has a name, is dirty and its start stage is
    a node of the canvas, [saveScene] hands a scene to the persistence call
    whatever the reachability check finds, and that scene has
    [has_warnings = true] exactly when the number of nodes reachable from the
    start node along outgoing edges, plus one for the start node, differs
    from the number of nodes.  The successors counted are the nodes other
    than the start node that a path of edges leads to, each once. *)
Theorem save_warns_on_unreachable (st : State) (a : Scene.t) (startNode : Node.t) :
  activeScene st = Some a ->
  Scene.name a <> EmptyString ->
  edited st = true ->
  find_start a (graph st) = Some startNode ->
  let reachable := getSuccessors (graph st) (Node.id startNode) in
  (forall id, In id reachable
              <-> id <> Node.id startNode
                  /\ reach (graph st) (Node.id startNode) id)
  /\ NoDup reachable
  /\ exists eff scene,
       saveScene st = inr eff /\
       save_scene eff = Some scene /\
       save st = Ok (on_saved st scene) /\
       (Scene.has_warnings scene = true
        <-> length reachable + 1 <> length (Canvas.nodes (graph st))).
Proof.
  intros Ha Hname Hedited Hstart reachable.
  split; [intros id; apply getSuccessors_spec|].
  split; [apply getSuccessors_nodup|].
  destruct (find_start_on_canvas _ _ Hstart) as [_ Hcanvas].
  pose proof (getSuccessors_bound _ _ Hcanvas) as Hbound.
  fold reachable in Hbound.
  apply String.eqb_neq in Hname.
  unfold save, saveScene. rewrite Ha, Hstart, Hname, Hedited. simpl.
  fold reachable.
  destruct (Nat.ltb_spec (length reachable + 1) (length (Canvas.nodes (graph st))))
    as [Hlt|Hge]; simpl.
  - eexists. eexists. split; [reflexivity|]. split; [reflexivity|].
    split; [reflexivity|]. simpl. split; [lia|reflexivity].
  - eexists. eexists. split; [reflexivity|]. split; [reflexivity|].
    split; [reflexivity|]. simpl. split; [discriminate|lia].
Qed.

(** C4.  With an active scene whose name is empty, [saveScene] shows the
    "Missing Name" notification and makes no persistence call; no
    acknowledgement follows, so the state, with its scene store and its dirty
    flag, is what it was. *)
Theorem save_without_name_aborts (st : State) (a : Scene.t) :
  activeScene st = Some a ->
  Scene.name a = EmptyString ->
  exists eff,
    saveScene st = inr eff /\
    save_scene eff = None /\
    In MissingName (notices eff) /\
    save st = Ok st.
Proof.
  intros Ha Hname. unfold save, saveScene. rewrite Ha, Hname. simpl.
  destruct (find_start a (graph st)) as [startNode|].
  - destruct (length (getSuccessors (graph st) (Node.id startNode)) + 1
              <? length (Canvas.nodes (graph st)));
      eexists; (split; [reflexivity|]); simpl; auto.
  - eexists; (split; [reflexivity|]); simpl; auto.
Qed.

(** ** Scene activation *)

(** C5.  A request to switch the active scene while the dirty flag is set
    (and no rebuild is running) that is answered with Cancel returns the
    state it was given: canvas, active scene, scenes list and dirty flag are
    untouched. *)
Theorem declined_switch_changes_nothing (st : State) (newscene : Scene.t) :
  inEdit st = false ->
  edited st = true ->
  exists st',
    setActiveScene Cancel st newscene = Ok st' /\
    st' = st /\
    graph st' = graph st /\
    activeScene st' = activeScene st /\
    scenes st' = scenes st /\
    edited st' = true.
Proof.
  intros Hguard Hdirty. unfold setActiveScene. rewrite Hguard, Hdirty. simpl.
  exists st. repeat split; auto.
Qed.

(** ** Canvas nodes *)

Lemma update_node_ids (id : string) (f : Node.t -> Node.t) (nodes : list Node.t) :
  (forall n, Node.id (f n) = Node.id n) ->
  map Node.id (update_node id f nodes) = map Node.id nodes.
Proof.
  intros Hf. induction nodes as [|n rest IH]; simpl; [reflexivity|].
  destruct (has_id id n); simpl; [rewrite Hf|rewrite IH]; reflexivity.
Qed.

Lemma find_node_update_node (id : string) (f : Node.t -> Node.t)
    (nodes : list Node.t) (n : Node.t) :
  (forall n, Node.id (f n) = Node.id n) ->
  find_node id nodes = Some n ->
  find_node id (update_node id f nodes) = Some (f n).
Proof.
  intros Hf. unfold find_node.
  induction nodes as [|n0 rest IH]; simpl; [discriminate|].
  destruct (has_id id n0) eqn:Hid; simpl.
  - intros H. inversion H; subst.
    unfold has_id in *. rewrite Hf, Hid. reflexivity.
  - rewrite Hid. exact IH.
Qed.

Lemma find_node_push (id : string) (nodes : list Node.t) (n : Node.t) :
  find_node id nodes = None ->
  has_id id n = true ->
  find_node id (Js.push nodes n) = Some n.
Proof.
  unfold find_node, Js.push. intros Hnone Hid.
  induction nodes as [|n0 rest IH]; simpl in *; [rewrite Hid; reflexivity|].
  destruct (has_id id n0); [discriminate|]. apply IH. exact Hnone.
Qed.

(** The active branch of [on_stage_saved] always has the node of the stage
    at hand when it patches the scene. *)
Lemma node_of_saved_stage (st : State) (stage : Stage.t) (b : option Scene.t) :
  let st1 :=
    match find_node (Stage.id stage) (Canvas.nodes (graph st)) with
    | Some _ => st
    | None => snd (addStageToGraph cursor0 st stage)
    end in
  exists n,
    find_node (Stage.id stage) (Canvas.nodes (graph (updateNodeProps stage b st1)))
    = Some n.
Proof.
  intros st1.
  assert (H1 : exists n0, find_node (Stage.id stage) (Canvas.nodes (graph st1)) = Some n0).
  { subst st1.
    destruct (find_node (Stage.id stage) (Canvas.nodes (graph st))) as [n0|] eqn:Hfind.
    - exists n0. exact Hfind.
    - eexists. simpl. apply find_node_push; [exact Hfind|].
      unfold has_id. simpl. apply String.eqb_refl. }
  destruct H1 as [n0 Hn0].
  eexists. unfold updateNodeProps, node_prop. simpl.
  apply find_node_update_node; [reflexivity|exact Hn0].
Qed.

(** A stage-saved message that is applied to the active scene, for a stage
    whose id the scene does not have yet and that makes the stage list one
    element long, is processed without an exception; afterwards the active
    scene has that stage as its only stage and as its [root], and the canvas
    node with the stage's id has [isStart] set. *)
Lemma first_stage_on_active_scene (st : State) (m : StageSavedMsg) (a : Scene.t) :
  activeScene st = Some a ->
  targetsActive st (ss_scene m) = Some true ->
  Js.findIndex (fun it => String.eqb (Stage.id it) (Stage.id (ss_stage m)))
    (Scene.stages a) = None ->
  length (Js.push (Scene.stages a) (ss_stage m)) = 1 ->
  exists st' a' n,
    on_stage_saved st m = Ok st' /\
    activeScene st' = Some a' /\
    Scene.stages a' = [ss_stage m] /\
    Scene.root a' = Some (Stage.id (ss_stage m)) /\
    find_node (Stage.id (ss_stage m)) (Canvas.nodes (graph st')) = Some n /\
    Node.isStart n = true.
Proof.
  intros Ha Ht Hnew Hone.
  destruct (node_of_saved_stage st (ss_stage m) (Some a)) as [n Hn].
  unfold on_stage_saved, patch_scene. rewrite Ht, Ha, Hnew, Hone. simpl.
  eexists. eexists. exists (Node.with_isStart true n).
  split; [reflexivity|]. simpl. split; [reflexivity|].
  split.
  { unfold Js.push in *. destruct (Scene.stages a) as [|s l]; [reflexivity|].
    simpl in Hone. rewrite length_app in Hone. simpl in Hone. lia. }
  split; [reflexivity|].
  split; [|reflexivity].
  apply find_node_update_node; [reflexivity|exact Hn].
Qed.

(** C6.  A stage-saved message for a stage whose id the scene it addresses
    does not have yet, and that makes the stage list of that scene one
    element long, promotes the stage only when the scene is the active one:
    then the listener returns, the scene has the stage as its only stage and
    as its [root], and the canvas node with the stage's id has [isStart]
    set.  When the message addresses a listed scene that is not the active
    one, the listener throws a ReferenceError at its scene lookup and
    promotes nothing: the state, and in it the listed scene with its stages
    and its [root], is what it was. *)
Theorem first_stage_promoted_only_when_active (st : State) (m : StageSavedMsg)
    (s : Slot) (target : Scene.t) :
  target_slot st (ss_scene m) = Some s ->
  scene_at st s = Some target ->
  Js.findIndex (fun it => String.eqb (Stage.id it) (Stage.id (ss_stage m)))
    (Scene.stages target) = None ->
  length (Js.push (Scene.stages target) (ss_stage m)) = 1 ->
  match s with
  | ActiveSlot =>
      exists st' a' n,
        on_stage_saved st m = Ok st' /\
        activeScene st' = Some a' /\
        Scene.stages a' = [ss_stage m] /\
        Scene.root a' = Some (Stage.id (ss_stage m)) /\
        find_node (Stage.id (ss_stage m)) (Canvas.nodes (graph st')) = Some n /\
        Node.isStart n = true
  | Listed i =>
      on_stage_saved st m = Throw (ReferenceError "sceneId") st /\
      nth_error (scenes st) i = Some target /\
      Scene.stages target = []
  end.
Proof.
  intros Hslot Hat Hnew Hone.
  unfold target_slot in Hslot.
  destruct (targetsActive st (ss_scene m)) as [[|]|] eqn:Ht; [| |discriminate].
  - inversion Hslot; subst s. simpl in Hat.
    exact (first_stage_on_active_scene st m Hat Ht Hnew Hone).
  - destruct (Js.findIndex _ (scenes st)) as [i|]; [|discriminate].
    inversion Hslot; subst s. simpl in Hat.
    split.
    { unfold on_stage_saved. rewrite Ht. unfold sceneId_unbound.
      destruct (scenes st); reflexivity. }
    split; [exact Hat|].
    unfold Js.push in Hone. destruct (Scene.stages target); [reflexivity|].
    rewrite length_app in Hone. simpl in Hone. lia.
Qed.

(** ** The background branch of [on_stage_saved] *)

(** C3.  A stage-saved message that is not applied to the active scene
    never patches a listed scene: the listener throws a ReferenceError when
    it looks the scene up, and the state (canvas and store) is as before. *)
Theorem stage_saved_background_throws (st : State) (m : StageSavedMsg) :
  targetsActive st (ss_scene m) = Some false ->
  on_stage_saved st m = Throw (ReferenceError "sceneId") st.
Proof.
  intros Ht. unfold on_stage_saved. rewrite Ht.
  unfold sceneId_unbound.
  destruct (scenes st); reflexivity.
Qed.

(** ** The start flag *)

Lemma filter_nothing {A : Type} (f : A -> bool) (l : list A) :
  (forall x, In x l -> f x = false) -> filter f l = [].
Proof.
  induction l as [|a l IH]; intros H; simpl; [reflexivity|].
  rewrite (H a (or_introl eq_refl)). apply IH. intros x Hx. apply H. right. exact Hx.
Qed.

Lemma has_id_spec (id : string) (n : Node.t) :
  has_id id n = true <-> Node.id n = id.
Proof. unfold has_id. apply String.eqb_eq. Qed.

Lemma update_node_unflag (r : string) (nodes : list Node.t) :
  NoDup (map Node.id nodes) ->
  (forall n, In n nodes -> Node.isStart n = true -> Node.id n = r) ->
  filter Node.isStart (update_node r (Node.with_isStart false) nodes) = [].
Proof.
  induction nodes as [|n rest IH]; intros Hnd Hflag; simpl; [reflexivity|].
  inversion Hnd as [|? ? Hnotin Hnd']; subst.
  destruct (has_id r n) eqn:Hid; simpl.
  - apply has_id_spec in Hid. apply filter_nothing. intros x Hx.
    destruct (Node.isStart x) eqn:Hs; [|reflexivity].
    exfalso. apply Hnotin. rewrite Hid, <- (Hflag x (or_intror Hx) Hs).
    apply in_map. exact Hx.
  - destruct (Node.isStart n) eqn:Hs.
    + apply (Hflag n (or_introl eq_refl)) in Hs. apply has_id_spec in Hs. congruence.
    + apply IH; [exact Hnd'|]. intros x Hx. apply Hflag. right. exact Hx.
Qed.

Lemma update_node_flag (x : string) (nodes : list Node.t) :
  filter Node.isStart nodes = [] ->
  In x (map Node.id nodes) ->
  map Node.id (filter Node.isStart (update_node x (Node.with_isStart true) nodes))
  = [x].
Proof.
  induction nodes as [|n rest IH]; intros Hnone Hin; simpl in *; [contradiction|].
  destruct (Node.isStart n) eqn:Hs; [discriminate|].
  destruct (has_id x n) eqn:Hid; simpl.
  - apply has_id_spec in Hid. rewrite Hnone, Hid. reflexivity.
  - rewrite Hs. apply IH; [exact Hnone|].
    destruct Hin as [Heq|Hin]; [|exact Hin].
    apply has_id_spec in Heq. congruence.
Qed.

Lemma update_node_again (x : string) (nodes : list Node.t) :
  update_node x (Node.with_isStart true)
    (update_node x (Node.with_isStart false)
       (update_node x (Node.with_isStart true) nodes))
  = update_node x (Node.with_isStart true) nodes.
Proof.
  assert (Hkeep : forall b n, has_id x (Node.with_isStart b n) = has_id x n)
    by reflexivity.
  induction nodes as [|n rest IH]; simpl; [reflexivity|].
  destruct (has_id x n) eqn:Hid; simpl.
  - rewrite Hkeep, Hid. simpl. rewrite !Hkeep, Hid. reflexivity.
  - rewrite Hid. simpl. rewrite Hid. rewrite IH. reflexivity.
Qed.

(** The nodes flagged as start once the root's flag is cleared and the
    marked node's is set. *)
Lemma start_nodes_after_mark (st : State) (a : Scene.t) (node : string) :
  activeScene st = Some a ->
  unique_ids (graph st) ->
  start_mirrors_root st ->
  In node (map Node.id (Canvas.nodes (graph st))) ->
  forall st1, doMarkRoot st node = Ok st1 ->
    start_nodes (graph st1) = [node]
    /\ map Node.id (Canvas.nodes (graph st1)) = map Node.id (Canvas.nodes (graph st)).
Proof.
  intros Ha Huniq Hmirror Hin st1. unfold doMarkRoot. rewrite Ha.
  intros Hrun. inversion Hrun; subst st1; clear Hrun.
  unfold start_nodes, unique_ids, start_mirrors_root in *. rewrite Ha in Hmirror.
  destruct (Scene.root a) as [r|] eqn:Hroot; simpl.
  - split.
    + apply update_node_flag.
      * apply update_node_unflag; [exact Huniq|].
        intros n Hn Hs. destruct (Hmirror n Hn Hs) as (a0 & Ha0 & Hr0).
        inversion Ha0; subst a0. congruence.
      * rewrite update_node_ids by reflexivity. exact Hin.
    + rewrite !update_node_ids by reflexivity. reflexivity.
  - split.
    + apply update_node_flag; [|exact Hin].
      apply filter_nothing. intros n Hn.
      destruct (Node.isStart n) eqn:Hs; [|reflexivity].
      destruct (Hmirror n Hn Hs) as (a0 & Ha0 & Hr0).
      inversion Ha0; subst a0. congruence.
    + rewrite update_node_ids by reflexivity. reflexivity.
Qed.

(** C7.  In a state where node ids are unique and only the node that
    [root] names may carry the start flag, marking a node of the canvas as
    start succeeds and leaves exactly that node flagged, with [root] naming
    it; marking it a second time returns the very same state.  Unique ids
    and the mirroring of the flag by [root] hold again afterwards, so the
    same is true after every later mark. *)
Theorem mark_root_twice_is_once (st : State) (a : Scene.t) (node : string) :
  activeScene st = Some a ->
  unique_ids (graph st) ->
  start_mirrors_root st ->
  In node (map Node.id (Canvas.nodes (graph st))) ->
  exists st1 a1,
    doMarkRoot st node = Ok st1 /\
    doMarkRoot st1 node = Ok st1 /\
    activeScene st1 = Some a1 /\
    Scene.root a1 = Some node /\
    start_nodes (graph st1) = [node] /\
    unique_ids (graph st1) /\
    start_mirrors_root st1.
Proof.
  intros Ha Huniq Hmirror Hin.
  assert (Hrun : exists st1, doMarkRoot st node = Ok st1)
    by (unfold doMarkRoot; rewrite Ha; eauto).
  destruct Hrun as [st1 Hrun].
  destruct (start_nodes_after_mark node Ha Huniq Hmirror Hin Hrun) as [Hstart Hids].
  exists st1, (Scene.with_root (Some node) a).
  split; [exact Hrun|].
  assert (Hact : activeScene st1 = Some (Scene.with_root (Some node) a)).
  { unfold doMarkRoot in Hrun. rewrite Ha in Hrun. inversion Hrun; subst st1.
    reflexivity. }
  split.
  { unfold doMarkRoot in Hrun. rewrite Ha in Hrun. inversion Hrun; subst st1.
    clear Hrun Hact Hstart Hids.
    unfold doMarkRoot. simpl. unfold node_prop, with_graph, with_edited,
      with_activeScene, Canvas.with_nodes. simpl.
    rewrite update_node_again. reflexivity. }
  split; [exact Hact|]. split; [reflexivity|]. split; [exact Hstart|].
  split; [unfold unique_ids; rewrite Hids; exact Huniq|].
  intros n Hn Hs. exists (Scene.with_root (Some node) a). split; [exact Hact|].
  simpl. f_equal.
  assert (Hflagged : In (Node.id n) (start_nodes (graph st1))).
  { unfold start_nodes. apply in_map. apply filter_In. auto. }
  rewrite Hstart in Hflagged. destruct Hflagged as [Heq|[]]. exact Heq.
Qed.

(** ** The guard of the listeners *)

Lemma In_set_nth {A : Type} (v : A) (l : list A) :
  forall i, i < length l -> In v (Js.set_nth i v l).
Proof.
  induction l as [|a l IH]; intros [|i] Hi; simpl in *; try lia; auto.
  right. apply IH. lia.
Qed.

Lemma findIndex_in_range {A : Type} (p : A -> bool) (l : list A) (i : nat) :
  Js.findIndex p l = Some i -> i < length l.
Proof.
  intros H. destruct (findIndex_some _ _ H) as (a & Ha & _).
  eapply nth_error_in_range; eauto.
Qed.

(** With the node at hand the patch of lines 229-245 cannot fail. *)
Lemma patch_scene_with_node (nid : string) (m : StageSavedMsg) (a : Scene.t)
    (st : State) :
  exists a' st',
    patch_scene (Some nid) m a st = inr (a', st') /\
    Scene.id a' = Scene.id a /\
    In (ss_stage m) (Scene.stages a') /\
    Scene.positions a' = ss_positions m.
Proof.
  unfold patch_scene.
  destruct (Js.findIndex _ (Scene.stages a)) as [i|] eqn:Hfind.
  - eexists. eexists. split; [reflexivity|]. simpl. repeat split.
    apply In_set_nth. eapply findIndex_in_range; eauto.
  - destruct (length (Js.push (Scene.stages a) (ss_stage m)) =? 1);
      eexists; eexists; (split; [reflexivity|]); simpl; repeat split;
      unfold Js.push; apply in_or_app; right; left; reflexivity.
Qed.

(** C9.  The guard of the four listeners is [true] whenever the scenes list
    is empty and compares the message's scene id with the active scene's
    only when the list is not empty.  So with an empty list each listener
    applies its message to the active scene whatever scene id the message
    carries: stage-saved patches the stage and the positions into it,
    position-removed and position-added run [remove_position] and
    [add_position] on it, and position-changed, unless it is the echo of
    the scene-level editor ([stageId === 0]), writes the new position into
    its list. *)
Theorem empty_store_targets_active (w : World) (st : State) (a : Scene.t) :
  activeScene st = Some a ->
  (forall sceneId,
      targetsActive st sceneId
      = Some (match scenes st with
              | [] => true
              | _ :: _ => String.eqb (Scene.id a) sceneId
              end))
  /\ (scenes st = [] ->
      (forall m, exists st' a',
            on_stage_saved st m = Ok st' /\
            activeScene st' = Some a' /\
            Scene.id a' = Scene.id a /\
            In (ss_stage m) (Scene.stages a') /\
            Scene.positions a' = ss_positions m)
      /\ (forall m,
            on_position_remove st m
            = Ok (with_activeScene
                    (Some (remove_position (rm_positionIdx m) a)) st))
      /\ (forall m,
            on_position_add w st m
            = Ok (with_idCalls (idCalls st + add_position_calls a)
                    (with_activeScene
                       (Some (add_position w (idCalls st) m a)) st)))
      /\ (forall m origin,
            ch_stageId m = FromStage origin ->
            on_position_change w st m
            = match Js.assign_index (Scene.positions a) (ch_positionIdx m)
                      (Position.mk (generatePositionId (w (idCalls st)))
                         (ch_info m)) with
              | Some ps =>
                  Ok (with_idCalls (S (idCalls st))
                        (with_activeScene (Some (Scene.with_positions ps a)) st))
              | None =>
                  Sparse (with_idCalls (S (idCalls st)) st) (ch_positionIdx m)
                    (Position.mk (generatePositionId (w (idCalls st)))
                       (ch_info m))
              end)).
Proof.
  intros Ha. split.
  - intros sceneId. unfold targetsActive. rewrite Ha.
    destruct (scenes st); reflexivity.
  - intros Hempty.
    assert (Hguard : forall sceneId, targetsActive st sceneId = Some true)
      by (intros; unfold targetsActive; rewrite Hempty; reflexivity).
    split; [|split; [|split]].
    + intros m. unfold on_stage_saved. rewrite Hguard, Ha.
      match goal with
      | |- context [patch_scene ?n m a ?s] =>
          destruct (patch_scene_with_node (Stage.id (ss_stage m)) m a s)
            as (a' & st' & Hpatch & Hid & Hin & Hpos)
      end.
      rewrite Hpatch. exists (with_edited true (with_activeScene (Some a') st')), a'.
      repeat split; assumption.
    + intros m. unfold on_position_remove. rewrite Hguard, Ha. reflexivity.
    + intros m. unfold on_position_add. rewrite Hguard, Ha. reflexivity.
    + intros m origin Horigin. unfold on_position_change.
      rewrite Horigin, Hguard, Ha. reflexivity.
Qed.

(** * Instances on the sample scenes *)

Lemma sceneABC_parallel : parallel sceneABC.
Proof. repeat constructor. Qed.

Lemma canvasAB_unique : unique_ids canvasAB.
Proof.
  unfold unique_ids. simpl.
  repeat constructor; simpl; intuition discriminate.
Qed.

Lemma stateABC_mirrors : start_mirrors_root stateABC.
Proof.
  intros n Hn Hs. exists sceneABC. split; [reflexivity|].
  simpl in Hn. destruct Hn as [<-|[<-|[<-|[]]]]; simpl in Hs;
    try discriminate. reflexivity.
Qed.

(** An add, a remove of the first position and a remove addressed to an
    unknown scene, on the active scene. *)
Lemma position_edits_keep_lists_parallel_witness :
  scene_at stateTwo ActiveSlot = Some sceneABC
  /\ parallel sceneABC
  /\ exists sc',
       scene_at
         (run_edits tickingWorld stateTwo
            [Added addToScene1; Removed (mkRemove "scene-1" 0);
             Removed (mkRemove "scene-9" 7)])
         ActiveSlot = Some sc'
       /\ parallel sc'.
Proof.
  split; [reflexivity|]. split; [exact sceneABC_parallel|].
  exact (proj1 (@position_edits_keep_lists_parallel tickingWorld
                  [Added addToScene1; Removed (mkRemove "scene-1" 0);
                   Removed (mkRemove "scene-9" 7)]
                  stateTwo ActiveSlot sceneABC eq_refl sceneABC_parallel)).
Defined.

(** Index 7 of a scene with one position. *)
Lemma remove_out_of_range_only_warns_witness :
  target_slot stateTwo "scene-1" = Some ActiveSlot
  /\ scene_at stateTwo ActiveSlot = Some sceneABC
  /\ (7 < 0 \/ Z.of_nat (length (Scene.positions sceneABC)) <= 7)%Z
  /\ exists st' sc',
       on_position_remove stateTwo (mkRemove "scene-1" 7) = Ok st' /\
       scene_at st' ActiveSlot = Some sc' /\
       Scene.positions sc' = Scene.positions sceneABC /\
       Scene.has_warnings sc' = true /\
       Scene.stages sc' = Scene.stages sceneABC.
Proof.
  assert (Hout : (7 < 0 \/ Z.of_nat (length (Scene.positions sceneABC)) <= 7)%Z)
    by (right; simpl; lia).
  split; [reflexivity|]. split; [reflexivity|]. split; [exact Hout|].
  destruct (@remove_out_of_range_only_warns stateTwo (mkRemove "scene-1" 7)
              ActiveSlot sceneABC eq_refl eq_refl Hout)
    as (st' & sc' & Hrun & Hat & Hpos & Hwarn & _ & Hpar).
  exists st', sc'. repeat split; try assumption.
  exact (Hpar sceneABC_parallel).
Defined.

(** Index 0 is outside the range of the empty [scene.positions] of
    [sceneShort] but inside the range of its stage's list: the stage loses
    its position. *)
Lemma remove_out_of_range_counterexample :
  ~ (forall (st : State) (m : PositionRemoveMsg) (s : Slot) (sc : Scene.t),
        target_slot st (rm_sceneId m) = Some s ->
        scene_at st s = Some sc ->
        (rm_positionIdx m < 0
         \/ Z.of_nat (length (Scene.positions sc)) <= rm_positionIdx m)%Z ->
        exists st' sc',
          on_position_remove st m = Ok st' /\
          scene_at st' s = Some sc' /\
          Scene.positions sc' = Scene.positions sc /\
          Scene.stages sc' = Scene.stages sc /\
          Scene.has_warnings sc' = true).
Proof.
  intros Hclaim.
  destruct (Hclaim stateShort (mkRemove "scene-3" 0) ActiveSlot sceneShort
              eq_refl eq_refl (or_intror (Z.le_refl 0)))
    as (st' & sc' & Hrun & Hat & _ & Hstages & _).
  vm_compute in Hrun. inversion Hrun; subst st'.
  vm_compute in Hat. inversion Hat; subst sc'.
  vm_compute in Hstages. discriminate Hstages.
Qed.

Lemma tickingWorld_readings :
  forall c1 c2, c1 <> c2 -> ~ same_reading (tickingWorld c1) (tickingWorld c2).
Proof.
  intros c1 c2 Hne [Hnow _]. unfold tickingWorld in Hnow. cbn [now] in Hnow.
  apply N.add_cancel_l in Hnow. lia.
Qed.

(** The add message for the active scene, delivered twice, with a clock that
    advances between the calls: eight new entries with eight different
    ids. *)
Lemma replayed_add_makes_two_positions_witness :
  target_slot stateTwo (add_sceneId addToScene1) = Some ActiveSlot
  /\ scene_at stateTwo ActiveSlot = Some sceneABC
  /\ exists st1 st2 sc2,
       on_position_add tickingWorld stateTwo addToScene1 = Ok st1 /\
       on_position_add tickingWorld st1 addToScene1 = Ok st2 /\
       scene_at st2 ActiveSlot = Some sc2 /\
       length (Scene.positions sc2) = 2 + length (Scene.positions sceneABC) /\
       length (new_position_ids sceneABC sc2) = 8 /\
       NoDup (new_position_ids sceneABC sc2).
Proof.
  split; [reflexivity|]. split; [reflexivity|].
  destruct (@replayed_add_makes_two_positions tickingWorld stateTwo addToScene1
              ActiveSlot sceneABC eq_refl eq_refl)
    as (st1 & st2 & sc1 & sc2 & calls & Hrun1 & _ & Hrun2 & Hat2 & _ & Hlen2
        & _ & _ & Hids & Hcalls & _ & _ & Hdistinct).
  exists st1, st2, sc2.
  split; [exact Hrun1|]. split; [exact Hrun2|]. split; [exact Hat2|].
  split; [exact Hlen2|].
  split; [rewrite Hids, length_map; exact Hcalls|].
  apply Hdistinct. intros c1 c2 _ _ Hne.
  exact (tickingWorld_readings Hne).
Defined.

(** The same message delivered twice while the clock stands still and the
    random source repeats itself: the appended entries share one id. *)
Lemma replayed_add_reuses_id_counterexample :
  ~ (forall (w : World) (st : State) (m : PositionAddMsg) (s : Slot)
            (sc : Scene.t),
        target_slot st (add_sceneId m) = Some s ->
        scene_at st s = Some sc ->
        exists st1 st2 sc2,
          on_position_add w st m = Ok st1 /\
          on_position_add w st1 m = Ok st2 /\
          scene_at st2 s = Some sc2 /\
          length (Scene.positions sc2) = 2 + length (Scene.positions sc) /\
          NoDup (new_position_ids sc sc2)).
Proof.
  intros Hclaim.
  destruct (Hclaim stuckWorld stateTwo addToScene1 ActiveSlot sceneABC
              eq_refl eq_refl)
    as (st1 & st2 & sc2 & Hrun1 & Hrun2 & Hat & _ & Hfresh).
  vm_compute in Hrun1. inversion Hrun1; subst st1.
  vm_compute in Hrun2. inversion Hrun2; subst st2.
  vm_compute in Hat. inversion Hat; subst sc2.
  vm_compute in Hfresh.
  inversion Hfresh as [|? ? Hnotin _]. apply Hnotin. left. reflexivity.
Qed.

(** Stages A, B and C, start A and the single edge A -> B: C cannot be
    reached, and the scene handed to the persistence call carries the
    warning. *)
Lemma save_warns_on_unreachable_witness :
  activeScene stateABC = Some sceneABC
  /\ Scene.name sceneABC <> EmptyString
  /\ edited stateABC = true
  /\ find_start sceneABC (graph stateABC) = Some (nodeOf stageA 40 true)
  /\ exists scene,
       save stateABC = Ok (on_saved stateABC scene)
       /\ Scene.has_warnings scene = true.
Proof.
  assert (Hname : Scene.name sceneABC <> EmptyString) by discriminate.
  split; [reflexivity|]. split; [exact Hname|].
  split; [reflexivity|]. split; [reflexivity|].
  destruct (@save_warns_on_unreachable stateABC sceneABC (nodeOf stageA 40 true)
              eq_refl Hname eq_refl eq_refl)
    as (_ & _ & eff & scene & _ & _ & Hack & Hiff).
  exists scene. split; [exact Hack|].
  apply Hiff. vm_compute. discriminate.
Defined.

(** A scene without a name that has unsaved changes. *)
Lemma save_without_name_aborts_witness :
  activeScene stateUnnamed = Some sceneBlank
  /\ Scene.name sceneBlank = EmptyString
  /\ edited stateUnnamed = true
  /\ exists eff,
       saveScene stateUnnamed = inr eff /\
       save_scene eff = None /\
       In MissingName (notices eff) /\
       save stateUnnamed = Ok stateUnnamed.
Proof.
  split; [reflexivity|]. split; [reflexivity|]. split; [reflexivity|].
  exact (@save_without_name_aborts stateUnnamed sceneBlank eq_refl eq_refl).
Defined.

Lemma declined_switch_changes_nothing_witness :
  inEdit stateTwo = false
  /\ edited stateTwo = true
  /\ exists st',
       setActiveScene Cancel stateTwo sceneBlank = Ok st' /\
       st' = stateTwo /\
       graph st' = graph stateTwo /\
       activeScene st' = activeScene stateTwo /\
       scenes st' = scenes stateTwo /\
       edited st' = true.
Proof.
  split; [reflexivity|]. split; [reflexivity|].
  exact (@declined_switch_changes_nothing stateTwo sceneBlank eq_refl eq_refl).
Defined.

(** Stage A saved for the blank scene "scene-2": while [sceneABC] is the
    active scene the listener throws and the blank scene stays without
    stage and [root]; while the blank scene is the active one, A becomes its
    start. *)
Lemma first_stage_promoted_only_when_active_witness :
  (target_slot stateTwo (ss_scene savedIntoBlank) = Some (Listed 1)
   /\ scene_at stateTwo (Listed 1) = Some sceneBlank
   /\ Js.findIndex (fun it => String.eqb (Stage.id it) (Stage.id stageA))
        (Scene.stages sceneBlank) = None
   /\ length (Js.push (Scene.stages sceneBlank) stageA) = 1
   /\ on_stage_saved stateTwo savedIntoBlank
      = Throw (ReferenceError "sceneId") stateTwo
   /\ nth_error (scenes stateTwo) 1 = Some sceneBlank
   /\ Scene.stages sceneBlank = []
   /\ Scene.root sceneBlank = None)
  /\ (target_slot stateBlank (ss_scene savedIntoBlank) = Some ActiveSlot
      /\ scene_at stateBlank ActiveSlot = Some sceneBlank
      /\ exists st' a' n,
           on_stage_saved stateBlank savedIntoBlank = Ok st' /\
           activeScene st' = Some a' /\
           Scene.stages a' = [stageA] /\
           Scene.root a' = Some (Stage.id stageA) /\
           find_node (Stage.id stageA) (Canvas.nodes (graph st')) = Some n /\
           Node.isStart n = true).
Proof.
  split.
  - split; [reflexivity|]. split; [reflexivity|]. split; [reflexivity|].
    split; [reflexivity|].
    destruct (@first_stage_promoted_only_when_active stateTwo savedIntoBlank
                (Listed 1) sceneBlank eq_refl eq_refl eq_refl eq_refl)
      as (Hthrow & Hlisted & Hstages).
    split; [exact Hthrow|]. split; [exact Hlisted|]. split; [exact Hstages|].
    reflexivity.
  - split; [reflexivity|]. split; [reflexivity|].
    exact (@first_stage_promoted_only_when_active stateBlank savedIntoBlank
             ActiveSlot sceneBlank eq_refl eq_refl eq_refl eq_refl).
Defined.

(** Stage A saved for the blank scene while [sceneABC] is the active one. *)
Lemma stage_saved_background_throws_witness :
  targetsActive stateTwo "scene-2" = Some false
  /\ on_stage_saved stateTwo (mkSaved "scene-2" [pos "p0"] stageA)
     = Throw (ReferenceError "sceneId") stateTwo.
Proof.
  split; [reflexivity|].
  exact (@stage_saved_background_throws stateTwo
           (mkSaved "scene-2" [pos "p0"] stageA) eq_refl).
Defined.

(** B is marked as start while A is. *)
Lemma mark_root_twice_is_once_witness :
  activeScene stateABC = Some sceneABC
  /\ unique_ids (graph stateABC)
  /\ start_mirrors_root stateABC
  /\ In "B"%string (map Node.id (Canvas.nodes (graph stateABC)))
  /\ exists st1 a1,
       doMarkRoot stateABC "B" = Ok st1 /\
       doMarkRoot st1 "B" = Ok st1 /\
       activeScene st1 = Some a1 /\
       Scene.root a1 = Some "B"%string /\
       start_nodes (graph st1) = ["B"%string] /\
       unique_ids (graph st1) /\
       start_mirrors_root st1.
Proof.
  assert (Hin : In "B"%string (map Node.id (Canvas.nodes (graph stateABC))))
    by (simpl; auto).
  split; [reflexivity|]. split; [exact canvasAB_unique|].
  split; [exact stateABC_mirrors|]. split; [exact Hin|].
  exact (@mark_root_twice_is_once stateABC sceneABC "B" eq_refl canvasAB_unique
           stateABC_mirrors Hin).
Defined.

(** With no scene listed, a remove addressed to "scene-9" lands on the
    active scene "scene-1". *)
Lemma empty_store_targets_active_witness :
  activeScene stateABC = Some sceneABC
  /\ scenes stateABC = []
  /\ on_position_remove stateABC (mkRemove "scene-9" 0)
     = Ok (with_activeScene (Some (remove_position 0 sceneABC)) stateABC).
Proof.
  split; [reflexivity|]. split; [reflexivity|].
  destruct (@empty_store_targets_active tickingWorld stateABC sceneABC eq_refl)
    as (_ & Hempty).
  destruct (Hempty eq_refl) as (_ & Hremove & _).
  exact (Hremove (mkRemove "scene-9" 0)).
Defined.


(** ** The code on the sample scenes *)

Example position_id_of_first_call :
  generatePositionId (tickingWorld 0) = "1700000000000_4fzyo82mv"%string.
Proof. reflexivity. Qed.

Example successors_of_A : getSuccessors canvasAB "A" = ["B"%string].
Proof. reflexivity. Qed.

Example successors_on_chain :
  getSuccessors canvasChain "A" = ["B"%string; "C"%string].
Proof. reflexivity. Qed.

(** With the edges A -> B -> C nothing is unreachable and the saved scene
    carries no warning. *)
Example save_chain_has_no_warning :
  exists eff scene,
    saveScene stateChain = inr eff /\ notices eff = [] /\
    save_scene eff = Some scene /\ Scene.has_warnings scene = false.
Proof. eexists. eexists. repeat split; reflexivity. Qed.

(** Not dirty: nothing is saved, though the warning is still shown. *)
Example save_when_clean_is_silent :
  saveScene (with_edited false stateABC) = inr (mkEffects [UnreachableStages] None).
Proof. reflexivity. Qed.

(** An add followed by the removal of index 0 leaves the added position. *)
Example add_then_remove_first :
  option_map (fun sc => map Position.id (Scene.positions sc))
    (activeScene
       (run_edits tickingWorld stateTwo
          [Added addToScene1; Removed (mkRemove "scene-1" 0)]))
  = Some ["1700000000000_4fzyo82mv"%string].
Proof. reflexivity. Qed.

(** A remove addressed to a listed scene patches that entry only. *)
Example remove_in_background :
  exists st', on_position_remove stateBlank (mkRemove "scene-1" 0) = Ok st'
    /\ activeScene st' = Some sceneBlank
    /\ map (fun sc => length (Scene.positions sc)) (scenes st') = [0; 0]
    /\ map Scene.has_warnings (scenes st') = [true; false].
Proof. eexists. repeat split; reflexivity. Qed.

(** Answering "Continue without saving" rebuilds the canvas from the stored
    layout and clears the dirty flag. *)
Example confirmed_switch_rebuilds :
  exists st', setActiveScene ContinueWithoutSaving stateBlank sceneStored = Ok st'
    /\ activeScene st' = Some sceneStored
    /\ map Node.id (Canvas.nodes (graph st')) = ["A"%string; "B"%string; "C"%string]
    /\ Canvas.edges (graph st') = [("A"%string, "B"%string)]
    /\ start_nodes (graph st') = ["A"%string]
    /\ edited st' = false /\ inEdit st' = false.
Proof. eexists. repeat split; reflexivity. Qed.

(** A change from a stage editor replaces the position at its index and
    grows the list at its end; further out the array gets holes. *)
Example change_at_index :
  exists st', on_position_change tickingWorld stateABC
                (mkChange "scene-1" (FromStage "A") 0 []) = Ok st'
    /\ option_map (fun sc => map Position.id (Scene.positions sc)) (activeScene st')
       = Some ["1700000000000_4fzyo82mv"%string].
Proof. eexists. split; reflexivity. Qed.

Example change_beyond_end :
  on_position_change tickingWorld stateABC (mkChange "scene-1" (FromStage "A") 5 [])
  = Sparse (with_idCalls 1 stateABC) 5 (Position.mk "1700000000000_4fzyo82mv" []).
Proof. reflexivity. Qed.

Example change_from_scene_editor_is_skipped :
  on_position_change tickingWorld stateABC (mkChange "scene-1" FromScenePosition 0 [])
  = Ok stateABC.
Proof. reflexivity. Qed.


(** * Further properties of the component *)

(** ** Removing a node *)



(** ** Changes of a position *)

Lemma nth_error_set_nth_any {A : Type} (v : A) (l : list A) (i j : nat) :
  i < length l ->
  nth_error (Js.set_nth i v l) j = if Nat.eqb i j then Some v else nth_error l j.
Proof.
  intros Hi. destruct (Nat.eqb_spec i j) as [<-|Hne].
  - apply nth_error_set_nth_same. exact Hi.
  - apply nth_error_set_nth_other. exact Hne.
Qed.

Lemma assign_index_inside {A : Type} (l : list A) (i : Z) (v : A) :
  (0 <= i < Z.of_nat (length l))%Z ->
  Js.assign_index l i v = Some (Js.set_nth (Z.to_nat i) v l).
Proof.
  intros Hi. unfold Js.assign_index.
  destruct (Z.ltb_spec i 0); [lia|].
  destruct (Nat.ltb_spec (Z.to_nat i) (length l)); [reflexivity|lia].
Qed.

Lemma assign_index_end {A : Type} (l : list A) (v : A) :
  Js.assign_index l (Z.of_nat (length l)) v = Some (l ++ [v]).
Proof.
  unfold Js.assign_index.
  destruct (Z.ltb_spec (Z.of_nat (length l)) 0); [lia|].
  rewrite Nat2Z.id, Nat.ltb_irrefl, Nat.eqb_refl. reflexivity.
Qed.

(** X2.  A position-changed message of a stage editor for the active scene,
    at an index inside [scene.positions], replaces that one entry by the new
    fields under a newly generated id.  The list keeps its length and its
    other entries, no stage is touched, so parallel lists stay parallel; the
    dirty flag, [has_warnings], the scenes list and the canvas are as
    before. *)
Theorem position_change_inside (w : World) (st : State) (m : PositionChangeMsg)
    (a : Scene.t) (origin : string) :
  activeScene st = Some a ->
  targetsActive st (ch_sceneId m) = Some true ->
  ch_stageId m = FromStage origin ->
  (0 <= ch_positionIdx m < Z.of_nat (length (Scene.positions a)))%Z ->
  exists st' a',
    on_position_change w st m = Ok st' /\
    activeScene st' = Some a' /\
    length (Scene.positions a') = length (Scene.positions a) /\
    (forall j,
        nth_error (Scene.positions a') j
        = if Nat.eqb (Z.to_nat (ch_positionIdx m)) j
          then Some (Position.mk (generatePositionId (w (idCalls st))) (ch_info m))
          else nth_error (Scene.positions a) j) /\
    Scene.stages a' = Scene.stages a /\
    (parallel a -> parallel a') /\
    Scene.has_warnings a' = Scene.has_warnings a /\
    edited st' = edited st /\ scenes st' = scenes st /\ graph st' = graph st.
Proof.
  intros Ha Ht Horigin Hidx. unfold on_position_change.
  rewrite Horigin, Ht, Ha, (assign_index_inside _ _ Hidx).
  eexists. eexists. split; [reflexivity|]. split; [reflexivity|]. simpl.
  split; [apply set_nth_length|].
  split; [intros j; apply nth_error_set_nth_any; lia|].
  split; [reflexivity|].
  split.
  { unfold parallel. simpl. rewrite set_nth_length. exact (fun H => H). }
  repeat split.
Qed.

(** X3.  The same message at the index just past the end of
    [scene.positions] appends the new position to [scene.positions] and to
    no stage: a scene with a stage and parallel lists no longer has parallel
    lists afterwards. *)
Theorem position_change_at_end_breaks_parallel (w : World) (st : State)
    (m : PositionChangeMsg) (a : Scene.t) (origin : string) :
  activeScene st = Some a ->
  targetsActive st (ch_sceneId m) = Some true ->
  ch_stageId m = FromStage origin ->
  ch_positionIdx m = Z.of_nat (length (Scene.positions a)) ->
  Scene.stages a <> [] ->
  parallel a ->
  exists st' a',
    on_position_change w st m = Ok st' /\
    activeScene st' = Some a' /\
    Scene.positions a'
    = Scene.positions a
      ++ [Position.mk (generatePositionId (w (idCalls st))) (ch_info m)] /\
    Scene.stages a' = Scene.stages a /\
    ~ parallel a'.
Proof.
  intros Ha Ht Horigin Hidx Hstages Hpar. unfold on_position_change.
  rewrite Horigin, Ht, Ha, Hidx, assign_index_end.
  eexists. eexists. split; [reflexivity|]. split; [reflexivity|]. simpl.
  split; [reflexivity|]. split; [reflexivity|].
  unfold parallel in *. simpl. intros Hpar'.
  destruct (Scene.stages a) as [|stage rest]; [congruence|].
  inversion Hpar as [|? ? H1 _]; subst. inversion Hpar' as [|? ? H2 _]; subst.
  rewrite length_app in H2. simpl in H2. lia.
Qed.

(** X4.  Editing the row of a position in the bottom panel writes the new
    fields at that index and keeps the id the position had (a new id is
    generated only for a position without one); the list keeps its length,
    the stages are not touched and the scene is marked dirty.  The message
    the row emits names the active scene and the row's index, and the
    component's own listener drops it, so the edit is applied once. *)
Theorem scene_row_edit_applies_once (w : World) (st : State) (a : Scene.t)
    (idx : nat) (pos : Position.t) (newPos : Info) :
  activeScene st = Some a ->
  nth_error (Scene.positions a) idx = Some pos ->
  exists st' msg a' p,
    scene_position_onChange w st idx newPos = (st', Some msg) /\
    activeScene st' = Some a' /\
    nth_error (Scene.positions a') idx = Some p /\
    Position.info p = newPos /\
    (Position.id pos <> EmptyString -> Position.id p = Position.id pos) /\
    (forall j, j <> idx ->
               nth_error (Scene.positions a') j = nth_error (Scene.positions a) j) /\
    length (Scene.positions a') = length (Scene.positions a) /\
    Scene.stages a' = Scene.stages a /\
    edited st' = true /\
    ch_sceneId msg = Scene.id a /\ ch_positionIdx msg = Z.of_nat idx /\
    on_position_change w st' msg = Ok st'.
Proof.
  intros Ha Hpos. unfold scene_position_onChange. rewrite Ha, Hpos.
  pose proof (nth_error_in_range _ _ Hpos) as Hidx.
  eexists. eexists. eexists. eexists.
  split; [reflexivity|]. split; [reflexivity|]. simpl.
  split; [apply nth_error_set_nth_same; exact Hidx|]. simpl.
  split; [reflexivity|].
  split.
  { intros Hid. apply String.eqb_neq in Hid. rewrite Hid. reflexivity. }
  split; [intros j Hj; apply nth_error_set_nth_other; congruence|].
  split; [apply set_nth_length|].
  repeat split.
Qed.

(** ** A saved stage of the active scene *)

Lemma findIndex_push_new {A : Type} (p : A -> bool) (v : A) (l : list A) :
  Js.findIndex p l = None -> p v = true ->
  Js.findIndex p (l ++ [v]) = Some (length l).
Proof.
  induction l as [|a l IH]; simpl; intros Hnone Hv; [rewrite Hv; reflexivity|].
  destruct (p a); [discriminate|].
  destruct (Js.findIndex p l); [discriminate|].
  rewrite IH; auto.
Qed.

Lemma set_nth_push_end {A : Type} (v : A) (l : list A) :
  Js.set_nth (length l) v (l ++ [v]) = l ++ [v].
Proof. induction l as [|a l IH]; simpl; [reflexivity|]. rewrite IH. reflexivity. Qed.

Lemma set_nth_twice {A : Type} (v : A) (l : list A) :
  forall i, Js.set_nth i v (Js.set_nth i v l) = Js.set_nth i v l.
Proof.
  induction l as [|a l IH]; intros [|i]; simpl; try reflexivity.
  rewrite IH. reflexivity.
Qed.

Lemma map_set_nth {A B : Type} (f : A -> B) (v a : A) (l : list A) :
  forall i, nth_error l i = Some a -> f v = f a ->
    map f (Js.set_nth i v l) = map f l.
Proof.
  induction l as [|x l IH]; intros [|i] Hnth Hf; simpl in *; try discriminate.
  - inversion Hnth; subst. rewrite Hf. reflexivity.
  - rewrite (IH i Hnth Hf). reflexivity.
Qed.

Lemma findIndex_none {A : Type} (p : A -> bool) (l : list A) :
  Js.findIndex p l = None -> forall x, In x l -> p x = false.
Proof.
  induction l as [|a l IH]; simpl; intros Hnone x Hx; [contradiction|].
  destruct (p a) eqn:Hpa; [discriminate|].
  destruct (Js.findIndex p l); [discriminate|].
  destruct Hx as [<-|Hx]; [exact Hpa|apply IH; auto].
Qed.

(** The three ways the active branch ends: the stage was there and is
    replaced; it is the first stage; it is added to other stages. *)
Lemma stage_saved_cases (st : State) (m : StageSavedMsg) (a : Scene.t) :
  activeScene st = Some a ->
  targetsActive st (ss_scene m) = Some true ->
  let stage := ss_stage m in
  let ready := stage_node_ready st stage in
  exists st' a',
    on_stage_saved st m = Ok st' /\
    activeScene st' = Some a' /\
    scenes st' = scenes st /\ edited st' = true /\ inEdit st' = inEdit st /\
    idCalls st' = idCalls st /\
    Canvas.edges (graph st') = Canvas.edges (graph st) /\
    Scene.id a' = Scene.id a /\
    Scene.positions a' = ss_positions m /\
    a' = Scene.with_positions (ss_positions m)
           (Scene.with_root (Scene.root a')
              (Scene.with_stages (Scene.stages a') a)) /\
    ((exists i old,
         Js.findIndex (fun it => String.eqb (Stage.id it) (Stage.id stage))
           (Scene.stages a) = Some i /\
         nth_error (Scene.stages a) i = Some old /\
         Stage.id old = Stage.id stage /\
         Scene.stages a' = Js.set_nth i stage (Scene.stages a) /\
         Scene.root a' = Scene.root a /\
         Canvas.nodes (graph st') = Canvas.nodes (graph ready))
     \/ (Scene.stages a = [] /\
         Scene.stages a' = [stage] /\
         Scene.root a' = Some (Stage.id stage) /\
         Canvas.nodes (graph st')
         = update_node (Stage.id stage) (Node.with_isStart true)
             (Canvas.nodes (graph ready)))
     \/ (Js.findIndex (fun it => String.eqb (Stage.id it) (Stage.id stage))
           (Scene.stages a) = None /\
         Scene.stages a <> [] /\
         Scene.stages a' = Scene.stages a ++ [stage] /\
         Scene.root a' = Scene.root a /\
         Canvas.nodes (graph st') = Canvas.nodes (graph ready))).
Proof.
  intros Ha Ht stage ready.
  unfold on_stage_saved, patch_scene. rewrite Ht, Ha.
  fold stage. rewrite <- Ha. fold (stage_node_ready st stage). fold ready.
  assert (Hedges : Canvas.edges (graph ready) = Canvas.edges (graph st)).
  { unfold ready, stage_node_ready.
    destruct (find_node (Stage.id stage) (Canvas.nodes (graph st))); reflexivity. }
  assert (Hframe : scenes ready = scenes st /\ inEdit ready = inEdit st
                   /\ idCalls ready = idCalls st).
  { unfold ready, stage_node_ready.
    destruct (find_node (Stage.id stage) (Canvas.nodes (graph st))); repeat split. }
  destruct Hframe as (Hscenes & HinEdit & Hcalls).
  destruct (Js.findIndex _ (Scene.stages a)) as [i|] eqn:Hfind.
  - destruct (findIndex_some _ _ Hfind) as (old & Hold & Hid).
    apply String.eqb_eq in Hid.
    eexists. eexists. split; [reflexivity|]. split; [reflexivity|]. simpl.
    repeat (split; [assumption || reflexivity|]).
    left. exists i, old. repeat split; assumption.
  - destruct (Scene.stages a) as [|s0 rest] eqn:Hstages.
    + simpl. eexists. eexists. split; [reflexivity|]. split; [reflexivity|]. simpl.
      repeat (split; [assumption || reflexivity|]).
      right. left. repeat split.
    + assert (Hlen : (length (Js.push (s0 :: rest) stage) =? 1) = false).
      { apply Nat.eqb_neq. unfold Js.push. simpl. rewrite length_app. simpl. lia. }
      rewrite Hlen.
      eexists. eexists. split; [reflexivity|]. split; [reflexivity|]. simpl.
      repeat (split; [assumption || reflexivity|]).
      right. right. repeat split. discriminate.
Qed.

Lemma set_nth_same {A : Type} (v : A) (l : list A) :
  forall i, nth_error l i = Some v -> Js.set_nth i v l = l.
Proof.
  induction l as [|a l IH]; intros [|i] H; simpl in *; try discriminate.
  - inversion H; reflexivity.
  - rewrite (IH i H). reflexivity.
Qed.

Lemma scene_eta (a : Scene.t) :
  Scene.with_positions (Scene.positions a)
    (Scene.with_root (Scene.root a) (Scene.with_stages (Scene.stages a) a)) = a.
Proof. destruct a; reflexivity. Qed.

(** X5.  A stage-saved message for the active scene whose stage id the
    scene already has replaces the first stage with that id where it stands:
    the number of stages, their ids and their order, every other stage and
    [root] are as before, [scene.positions] becomes the message's list
    whatever its length, and the scene is marked dirty. *)
Theorem stage_saved_replaces_in_place (st : State) (m : StageSavedMsg)
    (a : Scene.t) (i : nat) :
  activeScene st = Some a ->
  targetsActive st (ss_scene m) = Some true ->
  Js.findIndex (fun it => String.eqb (Stage.id it) (Stage.id (ss_stage m)))
    (Scene.stages a) = Some i ->
  exists st' a',
    on_stage_saved st m = Ok st' /\
    activeScene st' = Some a' /\
    length (Scene.stages a') = length (Scene.stages a) /\
    map Stage.id (Scene.stages a') = map Stage.id (Scene.stages a) /\
    (forall j, nth_error (Scene.stages a') j
               = if Nat.eqb i j then Some (ss_stage m)
                 else nth_error (Scene.stages a) j) /\
    Scene.root a' = Scene.root a /\
    Scene.positions a' = ss_positions m /\
    edited st' = true /\ scenes st' = scenes st.
Proof.
  intros Ha Ht Hfind.
  destruct (stage_saved_cases st m Ha Ht)
    as (st' & a' & Hrun & Hact & Hscenes & Hedited & _ & _ & _ & _ & Hpos & _
        & [(i0 & old & Hfind0 & Hold & Hid & Hstages & Hroot & _)
          |[(Hnil & _)|(Hnone & _)]]).
  - rewrite Hfind in Hfind0. inversion Hfind0; subst i0.
    exists st', a'. split; [exact Hrun|]. split; [exact Hact|].
    rewrite Hstages.
    split; [apply set_nth_length|].
    split; [eapply map_set_nth; eauto|].
    split; [intros j; apply nth_error_set_nth_any;
            eapply nth_error_in_range; eauto|].
    auto.
  - rewrite Hnil in Hfind. discriminate.
  - rewrite Hfind in Hnone. discriminate.
Qed.

Lemma stage_saved_targets_again (st st' : State) (a a' : Scene.t) (sid : string) :
  targetsActive st sid = Some true ->
  activeScene st = Some a -> activeScene st' = Some a' ->
  scenes st' = scenes st -> Scene.id a' = Scene.id a ->
  targetsActive st' sid = Some true.
Proof.
  unfold targetsActive. intros Ht Ha Ha' Hscenes Hid.
  rewrite Hscenes, Ha', Hid. rewrite Ha in Ht. exact Ht.
Qed.

(** X6.  Delivering the same stage-saved message to the active scene a
    second time changes nothing in the scene: both deliveries succeed, and
    the active scene after the second is the active scene after the first
    (same stages, root and positions).  The scenes list is untouched by
    both. *)
Theorem stage_saved_twice_same_scene (st : State) (m : StageSavedMsg) (a : Scene.t) :
  activeScene st = Some a ->
  targetsActive st (ss_scene m) = Some true ->
  exists st1 st2 a1,
    on_stage_saved st m = Ok st1 /\ activeScene st1 = Some a1 /\
    on_stage_saved st1 m = Ok st2 /\ activeScene st2 = Some a1 /\
    scenes st2 = scenes st.
Proof.
  intros Ha Ht.
  destruct (stage_saved_cases st m Ha Ht)
    as (st1 & a1 & Hrun1 & Hact1 & Hscenes1 & _ & _ & _ & _ & Hid1 & Hpos1 & _
        & Hcase1).
  pose proof (@stage_saved_targets_again st st1 a a1 (ss_scene m)
                Ht Ha Hact1 Hscenes1 Hid1) as Ht1.
  destruct (stage_saved_cases st1 m Hact1 Ht1)
    as (st2 & a2 & Hrun2 & Hact2 & Hscenes2 & _ & _ & _ & _ & _ & _ & Ha2
        & Hcase2).
  exists st1, st2, a1. split; [exact Hrun1|]. split; [exact Hact1|].
  split; [exact Hrun2|]. split; [|congruence].
  rewrite Hact2. f_equal.
  assert (Hthere : exists i,
             Js.findIndex
               (fun it => String.eqb (Stage.id it) (Stage.id (ss_stage m)))
               (Scene.stages a1) = Some i
             /\ nth_error (Scene.stages a1) i = Some (ss_stage m)).
  { destruct Hcase1 as [(i & old & Hfind & Hold & _ & Hstages & _)
                       |[(Hnil & Hstages & _)|(Hnone & _ & Hstages & _)]];
      rewrite Hstages.
    - exists i. split.
      + apply findIndex_set_nth; [exact Hfind|apply String.eqb_refl].
      + apply nth_error_set_nth_same. eapply nth_error_in_range; eauto.
    - exists 0. simpl. rewrite String.eqb_refl. auto.
    - exists (length (Scene.stages a)). split.
      + apply findIndex_push_new; [exact Hnone|apply String.eqb_refl].
      + rewrite nth_error_app2, Nat.sub_diag by lia. reflexivity. }
  destruct Hthere as (i & Hfind & Hnth).
  destruct Hcase2 as [(i0 & old & Hfind0 & _ & _ & Hstages & Hroot & _)
                     |[(Hnil & _)|(Hnone & _)]].
  - rewrite Hfind in Hfind0. inversion Hfind0; subst i0.
    rewrite (set_nth_same _ _ Hnth) in Hstages.
    rewrite Ha2, Hstages, Hroot, <- Hpos1. apply scene_eta.
  - rewrite Hnil in Hnth. destruct i; discriminate.
  - rewrite Hfind in Hnone. discriminate.
Qed.

Lemma find_node_on_canvas (g : Canvas.t) (id : string) :
  on_canvas g id = match find_node id (Canvas.nodes g) with
                   | Some _ => true
                   | None => false
                   end.
Proof.
  unfold on_canvas, find_node.
  induction (Canvas.nodes g) as [|n rest IH]; simpl; [reflexivity|].
  destruct (has_id id n); simpl; [reflexivity|exact IH].
Qed.

Lemma update_node_In (id : string) (f : Node.t -> Node.t) (nodes : list Node.t)
    (n' : Node.t) :
  In n' (update_node id f nodes) ->
  In n' nodes \/ exists n, In n nodes /\ has_id id n = true /\ n' = f n.
Proof.
  induction nodes as [|n rest IH]; simpl; [tauto|].
  destruct (has_id id n) eqn:Hid; simpl.
  - intros [<-|Hin]; [right; exists n; auto|left; right; exact Hin].
  - intros [<-|Hin]; [left; left; reflexivity|].
    destruct (IH Hin) as [H|(n0 & Hn0 & Hid0 & ->)]; [left; right; exact H|].
    right. exists n0. auto.
Qed.

(** The node of the stage once lines 216-219 ran. *)
Lemma ready_node (st : State) (stage : Stage.t) :
  exists n,
    find_node (Stage.id stage) (Canvas.nodes (graph (stage_node_ready st stage)))
    = Some n
    /\ Node.stage n = Some stage
    /\ Node.fixedLen n = Some (Stage.fixed_len stage)
    /\ Node.isStart n = is_root_of (activeScene st) stage.
Proof.
  unfold stage_node_ready, updateNodeProps, node_prop.
  destruct (find_node (Stage.id stage) (Canvas.nodes (graph st))) as [n0|] eqn:Hfind.
  - eexists. split; [simpl; apply find_node_update_node; [reflexivity|exact Hfind]|].
    repeat split.
  - eexists. split.
    + simpl. apply find_node_update_node; [reflexivity|].
      apply find_node_push; [exact Hfind|]. unfold has_id. simpl. apply String.eqb_refl.
    + repeat split.
Qed.

Lemma ready_ids (st : State) (stage : Stage.t) :
  map Node.id (Canvas.nodes (graph (stage_node_ready st stage)))
  = map Node.id (Canvas.nodes (graph st))
    ++ (if on_canvas (graph st) (Stage.id stage) then [] else [Stage.id stage]).
Proof.
  rewrite find_node_on_canvas.
  unfold stage_node_ready, updateNodeProps, node_prop.
  destruct (find_node (Stage.id stage) (Canvas.nodes (graph st))); simpl;
    rewrite update_node_ids by reflexivity.
  - rewrite app_nil_r. reflexivity.
  - unfold Js.push. rewrite map_app. reflexivity.
Qed.

Lemma ready_members (st : State) (stage : Stage.t) (n : Node.t) :
  In n (Canvas.nodes (graph (stage_node_ready st stage))) ->
  In n (Canvas.nodes (graph st))
  \/ (Node.id n = Stage.id stage
      /\ (Node.isStart n = true -> is_root_of (activeScene st) stage = true)).
Proof.
  unfold stage_node_ready, updateNodeProps, node_prop.
  destruct (find_node (Stage.id stage) (Canvas.nodes (graph st))); simpl;
    intros Hin; apply update_node_In in Hin;
    destruct Hin as [Hin|(n0 & Hn0 & Hid & ->)].
  - left. exact Hin.
  - right. apply has_id_spec in Hid. simpl. auto.
  - unfold Js.push in Hin. apply in_app_or in Hin.
    destruct Hin as [Hin|[<-|[]]]; [left; exact Hin|].
    right. simpl. split; [reflexivity|discriminate].
  - right. apply has_id_spec in Hid. simpl. auto.
Qed.

Lemma unique_ids_same_node (g : Canvas.t) (n1 n2 : Node.t) :
  unique_ids g ->
  In n1 (Canvas.nodes g) -> In n2 (Canvas.nodes g) ->
  Node.id n1 = Node.id n2 -> n1 = n2.
Proof.
  unfold unique_ids. induction (Canvas.nodes g) as [|n nodes IH]; simpl;
    intros Hnd H1 H2 Heq; [destruct H1|].
  inversion Hnd as [|? ? Hnotin Hrest]; subst.
  destruct H1 as [<-|H1], H2 as [<-|H2].
  - reflexivity.
  - exfalso. apply Hnotin. rewrite Heq. apply in_map. exact H2.
  - exfalso. apply Hnotin. rewrite <- Heq. apply in_map. exact H1.
  - exact (IH Hrest H1 H2 Heq).
Qed.

Lemma update_node_others (id : string) (f : Node.t -> Node.t)
    (nodes : list Node.t) (other : Node.t) :
  (forall n, Node.id (f n) = Node.id n) ->
  Node.id other <> id ->
  (In other (update_node id f nodes) <-> In other nodes).
Proof.
  intros Hf Hother. induction nodes as [|n nodes IH]; simpl; [tauto|].
  unfold has_id. destruct (String.eqb (Node.id n) id) eqn:Hn; simpl.
  - apply String.eqb_eq in Hn. split; intros [Heq|Hin]; auto; exfalso;
      apply Hother; rewrite <- Heq; [rewrite Hf|]; exact Hn.
  - rewrite IH. tauto.
Qed.

Lemma ready_others (st : State) (stage : Stage.t) (other : Node.t) :
  Node.id other <> Stage.id stage ->
  (In other (Canvas.nodes (graph (stage_node_ready st stage)))
   <-> In other (Canvas.nodes (graph st))).
Proof.
  intros Hother. unfold stage_node_ready, updateNodeProps, node_prop. simpl.
  rewrite update_node_others; [|reflexivity|exact Hother].
  destruct (find_node (Stage.id stage) (Canvas.nodes (graph st))); [tauto|].
  simpl. unfold Js.push. rewrite in_app_iff. simpl. split; [|tauto].
  intros [Hin|[Heq|[]]]; [exact Hin|].
  exfalso. apply Hother. rewrite <- Heq. reflexivity.
Qed.

(** X7.  A stage-saved message for the active scene leaves exactly one node
    more on the canvas when no node had the stage's id, and as many nodes as
    before when one had: the node ids are the former ones and, if it was
    missing, the stage's id, in whatever order the canvas lists them.  The
    nodes of other ids are the nodes that were there, untouched; unique node
    ids stay unique, the edges are not touched, and the canvas has a node of
    the stage's id that carries the saved stage and its [fixed_len], the
    only one of that id when ids are unique. *)
Theorem stage_saved_one_node (st : State) (m : StageSavedMsg) (a : Scene.t) :
  activeScene st = Some a ->
  targetsActive st (ss_scene m) = Some true ->
  exists st' n,
    on_stage_saved st m = Ok st' /\
    Permutation (map Node.id (Canvas.nodes (graph st')))
      ((if on_canvas (graph st) (Stage.id (ss_stage m)) then []
        else [Stage.id (ss_stage m)])
       ++ map Node.id (Canvas.nodes (graph st))) /\
    (forall other, Node.id other <> Stage.id (ss_stage m) ->
       (In other (Canvas.nodes (graph st')) <-> In other (Canvas.nodes (graph st)))) /\
    Canvas.edges (graph st') = Canvas.edges (graph st) /\
    (unique_ids (graph st) ->
     unique_ids (graph st')
     /\ forall n', In n' (Canvas.nodes (graph st')) ->
                   Node.id n' = Stage.id (ss_stage m) -> n' = n) /\
    In n (Canvas.nodes (graph st')) /\
    Node.id n = Stage.id (ss_stage m) /\
    Node.stage n = Some (ss_stage m) /\
    Node.fixedLen n = Some (Stage.fixed_len (ss_stage m)).
Proof.
  intros Ha Ht.
  destruct (stage_saved_cases st m Ha Ht)
    as (st' & a' & Hrun & _ & _ & _ & _ & _ & Hedges & _ & _ & _ & Hcase).
  destruct (ready_node st (ss_stage m)) as (n & Hn & Hstage & Hlen & _).
  assert (Hids : map Node.id (Canvas.nodes (graph st'))
                 = map Node.id (Canvas.nodes (graph st))
                   ++ (if on_canvas (graph st) (Stage.id (ss_stage m)) then []
                       else [Stage.id (ss_stage m)])).
  { rewrite <- ready_ids.
    destruct Hcase as [(i & old & _ & _ & _ & _ & _ & Hnodes)
                      |[(_ & _ & _ & Hnodes)|(_ & _ & _ & _ & Hnodes)]];
      rewrite Hnodes; [reflexivity| |reflexivity].
    apply update_node_ids. reflexivity. }
  assert (Hothers : forall other, Node.id other <> Stage.id (ss_stage m) ->
             (In other (Canvas.nodes (graph st'))
              <-> In other (Canvas.nodes (graph st)))).
  { intros other Hother. rewrite <- (ready_others st (ss_stage m) other Hother).
    destruct Hcase as [(i & old & _ & _ & _ & _ & _ & Hnodes)
                      |[(_ & _ & _ & Hnodes)|(_ & _ & _ & _ & Hnodes)]];
      rewrite Hnodes; [tauto| |tauto].
    apply update_node_others; [reflexivity|exact Hother]. }
  assert (Hnode : exists n',
             find_node (Stage.id (ss_stage m)) (Canvas.nodes (graph st')) = Some n'
             /\ Node.stage n' = Some (ss_stage m)
             /\ Node.fixedLen n' = Some (Stage.fixed_len (ss_stage m))).
  { destruct Hcase as [(i & old & _ & _ & _ & _ & _ & Hnodes)
                      |[(_ & _ & _ & Hnodes)|(_ & _ & _ & _ & Hnodes)]];
      rewrite Hnodes.
    - exists n. auto.
    - exists (Node.with_isStart true n). split; [|auto].
      apply find_node_update_node; [reflexivity|exact Hn].
    - exists n. auto. }
  destruct Hnode as (n' & Hn' & Hstage' & Hlen').
  unfold find_node in Hn'. apply find_some in Hn'. destruct Hn' as [Hin' Hid'].
  unfold has_id in Hid'. apply String.eqb_eq in Hid'.
  assert (Huniq : unique_ids (graph st) -> unique_ids (graph st')).
  { unfold unique_ids. rewrite Hids. intros Huniq.
    destruct (on_canvas (graph st) (Stage.id (ss_stage m))) eqn:Hon.
    - rewrite app_nil_r. exact Huniq.
    - apply NoDup_app; [exact Huniq|repeat constructor; intros []|].
      intros x Hx [<-|[]].
      apply on_canvas_In in Hx. congruence. }
  exists st', n'. split; [exact Hrun|].
  split; [rewrite Hids; apply Permutation_app_comm|].
  split; [exact Hothers|]. split; [exact Hedges|].
  split; [|auto].
  intros Hu. split; [exact (Huniq Hu)|].
  intros n2 Hin2 Hid2.
  apply (@unique_ids_same_node (graph st') n2 n' (Huniq Hu) Hin2 Hin'). congruence.
Qed.

Lemma is_root_of_true (a : Scene.t) (stage : Stage.t) :
  is_root_of (Some a) stage = true -> Scene.root a = Some (Stage.id stage).
Proof.
  unfold is_root_of. destruct (Scene.root a) as [r|]; [|discriminate].
  intros H. apply String.eqb_eq in H. congruence.
Qed.

(** X8.  The active branch of stage-saved keeps the canvas and the scene
    in step: if only the node that [root] names carries the start flag,
    [root] names a stage, and every node stands for a stage of the active
    scene, then all three hold again after the message. *)
Theorem stage_saved_keeps_invariants (st : State) (m : StageSavedMsg) (a : Scene.t) :
  activeScene st = Some a ->
  targetsActive st (ss_scene m) = Some true ->
  start_mirrors_root st ->
  root_in_stages a ->
  nodes_are_stages st ->
  exists st' a',
    on_stage_saved st m = Ok st' /\
    activeScene st' = Some a' /\
    start_mirrors_root st' /\
    root_in_stages a' /\
    nodes_are_stages st'.
Proof.
  intros Ha Ht Hmirror Hroot Hnodes.
  destruct (stage_saved_cases st m Ha Ht)
    as (st' & a' & Hrun & Hact & _ & _ & _ & _ & _ & _ & _ & _ & Hcase).
  exists st', a'. split; [exact Hrun|]. split; [exact Hact|].
  assert (Hold : forall n, In n (Canvas.nodes (graph st)) ->
                   In (Node.id n) (map Stage.id (Scene.stages a))
                   /\ (Node.isStart n = true -> Scene.root a = Some (Node.id n))).
  { intros n Hn. split.
    - destruct (Hnodes n Hn) as (a0 & Ha0 & Hin). congruence.
    - intros Hs. destruct (Hmirror n Hn Hs) as (a0 & Ha0 & Hr). congruence. }
  assert (Hready : forall n,
             In n (Canvas.nodes (graph (stage_node_ready st (ss_stage m)))) ->
             (In (Node.id n) (map Stage.id (Scene.stages a))
              \/ Node.id n = Stage.id (ss_stage m))
             /\ (Node.isStart n = true ->
                 Scene.root a = Some (Node.id n))).
  { intros n Hn. apply ready_members in Hn. rewrite Ha in Hn.
    destruct Hn as [Hn|[Hid Hflag]].
    - destruct (Hold n Hn). auto.
    - split; [right; exact Hid|]. intros Hs. rewrite Hid.
      apply is_root_of_true. auto. }
  destruct Hcase as [(i & old & _ & Hnth & Hid & Hstages & Hr & Hn')
                    |[(Hnil & Hstages & Hr & Hn')
                     |(_ & _ & Hstages & Hr & Hn')]].
  - assert (Hids : map Stage.id (Scene.stages a') = map Stage.id (Scene.stages a))
      by (rewrite Hstages; eapply map_set_nth; eauto).
    assert (Hsid : In (Stage.id (ss_stage m)) (map Stage.id (Scene.stages a))).
    { rewrite <- Hid. apply in_map. eapply nth_error_In; eauto. }
    split; [|split].
    + intros n Hn Hs. exists a'. split; [exact Hact|]. rewrite Hr.
      rewrite Hn' in Hn. apply (Hready n Hn). exact Hs.
    + unfold root_in_stages in *. rewrite Hr, Hids. exact Hroot.
    + intros n Hn. exists a'. split; [exact Hact|]. rewrite Hids.
      rewrite Hn' in Hn. destruct (Hready n Hn) as [[H|H] _]; [exact H|].
      rewrite H. exact Hsid.
  - split; [|split].
    + intros n Hn Hs. exists a'. split; [exact Hact|]. rewrite Hr. f_equal.
      rewrite Hn' in Hn. apply update_node_In in Hn.
      destruct Hn as [Hn|(n0 & _ & Hid0 & ->)].
      * destruct (Hready n Hn) as [[Hin|Hid] Hflag]; [|auto].
        unfold root_in_stages in Hroot. rewrite (Hflag Hs), Hnil in Hroot.
        destruct Hroot.
      * apply has_id_spec in Hid0. symmetry. exact Hid0.
    + unfold root_in_stages. rewrite Hr, Hstages. simpl. auto.
    + intros n Hn. exists a'. split; [exact Hact|]. rewrite Hstages. simpl. left.
      rewrite Hn' in Hn. apply update_node_In in Hn.
      destruct Hn as [Hn|(n0 & _ & Hid0 & ->)].
      * destruct (Hready n Hn) as [[Hin|Hid] _]; [|auto].
        rewrite Hnil in Hin. destruct Hin.
      * apply has_id_spec in Hid0. symmetry. exact Hid0.
  - assert (Hids : forall x, In x (map Stage.id (Scene.stages a)) ->
                             In x (map Stage.id (Scene.stages a'))).
    { intros x Hx. rewrite Hstages, map_app. apply in_or_app. left. exact Hx. }
    assert (Hsid : In (Stage.id (ss_stage m)) (map Stage.id (Scene.stages a'))).
    { rewrite Hstages, map_app. apply in_or_app. right. left. reflexivity. }
    split; [|split].
    + intros n Hn Hs. exists a'. split; [exact Hact|]. rewrite Hr.
      rewrite Hn' in Hn. apply (Hready n Hn). exact Hs.
    + unfold root_in_stages in *. rewrite Hr.
      destruct (Scene.root a); [apply Hids; exact Hroot|exact I].
    + intros n Hn. exists a'. split; [exact Hact|].
      rewrite Hn' in Hn. destruct (Hready n Hn) as [[H|H] _]; [auto|].
      rewrite H. exact Hsid.
Qed.

(** ** Activation *)

Lemma update_node_map {B : Type} (g : Node.t -> B) (id : string)
    (f : Node.t -> Node.t) (nodes : list Node.t) :
  (forall n, g (f n) = g n) ->
  map g (update_node id f nodes) = map g nodes.
Proof.
  intros Hf. induction nodes as [|n rest IH]; simpl; [reflexivity|].
  destruct (has_id id n); simpl; [rewrite Hf|rewrite IH]; reflexivity.
Qed.

Lemma find_stage (stages : list Stage.t) (key : string) :
  In key (map Stage.id stages) ->
  exists stage,
    find (fun stage => String.eqb (Stage.id stage) key) stages = Some stage
    /\ Stage.id stage = key.
Proof.
  induction stages as [|s rest IH]; simpl; [intros []|].
  destruct (String.eqb_spec (Stage.id s) key) as [Heq|Hne].
  - intros _. exists s. auto.
  - intros [H|H]; [congruence|]. exact (IH H).
Qed.

Lemma find_stage_none (stages : list Stage.t) (key : string) :
  ~ In key (map Stage.id stages) ->
  find (fun stage => String.eqb (Stage.id stage) key) stages = None.
Proof.
  induction stages as [|s rest IH]; simpl; [reflexivity|].
  intros Hnot. destruct (String.eqb_spec (Stage.id s) key) as [Heq|Hne].
  - exfalso. apply Hnot. left. exact Heq.
  - apply IH. intros H. apply Hnot. right. exact H.
Qed.

Lemma add_nodes_is_fst (sc : Scene.t) (entries : list (string * Layout.t)) :
  forall c st, add_nodes sc entries c st = fst (add_nodes_from sc entries c st).
Proof.
  induction entries as [|[key l] rest IH]; intros c st; simpl; [reflexivity|].
  destruct (find _ (Scene.stages sc)); [|reflexivity].
  apply IH.
Qed.

Lemma activate_is_fst (st : State) (sc : Scene.t) :
  activate st sc = fst (activate_from cursor0 st sc).
Proof.
  unfold activate, activate_from. rewrite add_nodes_is_fst.
  destruct (add_nodes_from sc (Scene.graph sc) cursor0 _) as [[st4|e st4|st4 i p] c'];
    reflexivity.
Qed.

(** The first loop of the rebuild on nodes whose keys all have a stage. *)
Lemma add_nodes_from_ok (sc : Scene.t) (entries : list (string * Layout.t)) :
  forall c st,
    inEdit st = true ->
    incl (map fst entries) (map Stage.id (Scene.stages sc)) ->
    Forall (flag_follows_root sc) (Canvas.nodes (graph st)) ->
    exists st' c',
      add_nodes_from sc entries c st = (Ok st', c') /\
      map Node.id (Canvas.nodes (graph st'))
      = map Node.id (Canvas.nodes (graph st)) ++ map fst entries /\
      map place (Canvas.nodes (graph st'))
      = map place (Canvas.nodes (graph st))
        ++ match Canvas.nodes (graph st) with
           | [] => cells (Canvas.clientWidth (graph st)) c (length entries)
           | _ :: _ => cells_after (Canvas.clientWidth (graph st)) c (length entries)
           end /\
      Forall (flag_follows_root sc) (Canvas.nodes (graph st')) /\
      Canvas.edges (graph st') = Canvas.edges (graph st) /\
      Canvas.clientWidth (graph st') = Canvas.clientWidth (graph st) /\
      scenes st' = scenes st /\ activeScene st' = activeScene st /\
      edited st' = edited st /\ inEdit st' = true /\ idCalls st' = idCalls st.
Proof.
  induction entries as [|[key l] rest IH]; intros c st Hedit Hkeys Hflags; simpl.
  - exists st, c. split; [reflexivity|].
    rewrite !app_nil_r.
    destruct (Canvas.nodes (graph st)); simpl; rewrite ?app_nil_r; repeat split; auto.
  - destruct (find_stage (Scene.stages sc) key) as (stage & Hfind & Hid).
    { apply Hkeys. left. reflexivity. }
    rewrite Hfind.
    set (c1 := advance (graph st) c).
    set (st2 := updateNodeProps stage (Some sc) (snd (addStageToGraph c st stage))).
    assert (Hnodes2 : Canvas.nodes (graph st2)
                      = update_node (Stage.id stage)
                          (fun n => Node.mk (Node.id n) (Node.x n) (Node.y n)
                                      (Some stage) (Some sc)
                                      (Some (Stage.fixed_len stage))
                                      (is_root_of (Some sc) stage))
                          (Canvas.nodes (graph st)
                           ++ [Node.mk (Stage.id stage) (fst c1) (snd c1)
                                 None None None false]))
      by reflexivity.
    destruct (IH c1 st2) as (st' & c' & Hrun & Hids & Hplaces & Hflags' & Hedges
                             & Hwidth & Hscenes & Hact & Hedited & Hedit' & Hcalls).
    { reflexivity || (unfold st2; simpl; exact Hedit). }
    { intros x Hx. apply Hkeys. right. exact Hx. }
    { rewrite Hnodes2. apply Forall_forall. intros n Hn.
      apply update_node_In in Hn.
      destruct Hn as [Hn|(n0 & _ & Hid0 & ->)].
      - apply in_app_or in Hn. destruct Hn as [Hn|[<-|[]]].
        + rewrite Forall_forall in Hflags. apply Hflags. exact Hn.
        + intros Hs. discriminate Hs.
      - intros Hs. simpl in *. apply has_id_spec in Hid0. rewrite Hid0.
        apply is_root_of_true. exact Hs. }
    assert (Hids2 : map Node.id (Canvas.nodes (graph st2))
                    = map Node.id (Canvas.nodes (graph st)) ++ [key]).
    { rewrite Hnodes2, update_node_ids by reflexivity.
      rewrite map_app. simpl. rewrite Hid. reflexivity. }
    assert (Hplaces2 : map place (Canvas.nodes (graph st2))
                       = map place (Canvas.nodes (graph st)) ++ [c1]).
    { rewrite Hnodes2, update_node_map by reflexivity.
      rewrite map_app. simpl. unfold place. simpl. destruct c1; reflexivity. }
    assert (Hmore : match Canvas.nodes (graph st2) with
                    | [] => cells (Canvas.clientWidth (graph st2)) c1 (length rest)
                    | _ :: _ =>
                        cells_after (Canvas.clientWidth (graph st2)) c1 (length rest)
                    end
                    = cells_after (Canvas.clientWidth (graph st)) c1 (length rest)).
    { destruct (Canvas.nodes (graph st2)) as [|n0 l0]; [|reflexivity].
      destruct (Canvas.nodes (graph st)); discriminate Hids2. }
    rewrite Hmore in Hplaces.
    exists st', c'. split; [exact Hrun|].
    split; [rewrite Hids, Hids2, <- app_assoc; reflexivity|].
    split.
    { rewrite Hplaces, Hplaces2, <- app_assoc. f_equal. simpl.
      unfold c1, advance.
      destruct (Canvas.nodes (graph st)); reflexivity. }
    split; [exact Hflags'|].
    rewrite Hedges, Hwidth, Hscenes, Hact, Hedited, Hcalls.
    unfold st2. simpl. rewrite Hedit. repeat split. exact Hedit'.
Qed.

Lemma has_id_among (target : string) (nodes : list Node.t) :
  existsb (has_id target) nodes = existsb (String.eqb target) (map Node.id nodes).
Proof.
  induction nodes as [|n rest IH]; simpl; [reflexivity|].
  unfold has_id at 1. rewrite String.eqb_sym, IH. reflexivity.
Qed.

Lemma find_node_among (target : string) (nodes : list Node.t) :
  existsb (String.eqb target) (map Node.id nodes)
  = match find_node target nodes with Some _ => true | None => false end.
Proof.
  rewrite <- has_id_among. unfold find_node.
  induction nodes as [|n rest IH]; simpl; [reflexivity|].
  destruct (has_id target n); simpl; [reflexivity|exact IH].
Qed.

Lemma add_edges_from_spec (nodes : list Node.t) (sourceid : string)
    (dest : list string) :
  forall g,
    Canvas.edges (add_edges_from nodes sourceid dest g)
    = Canvas.edges g
      ++ map (pair sourceid)
           (filter (fun target => existsb (String.eqb target) (map Node.id nodes))
              dest)
    /\ Canvas.nodes (add_edges_from nodes sourceid dest g) = Canvas.nodes g
    /\ Canvas.clientWidth (add_edges_from nodes sourceid dest g)
       = Canvas.clientWidth g.
Proof.
  unfold add_edges_from.
  induction dest as [|t dest IH]; intros g; simpl.
  - rewrite app_nil_r. auto.
  - rewrite find_node_among.
    destruct (find_node t nodes).
    + destruct (IH (Canvas.with_edges (Js.push (Canvas.edges g) (sourceid, t)) g))
        as (He & Hn & Hw).
      rewrite He, Hn, Hw. simpl. unfold Js.push. rewrite <- app_assoc. auto.
    + apply IH.
Qed.

Lemma add_edges_spec (nodes : list Node.t) (entries : list (string * Layout.t)) :
  incl (map fst entries) (map Node.id nodes) ->
  forall g,
    Canvas.edges (add_edges nodes entries g)
    = Canvas.edges g ++ drawn_edges (map Node.id nodes) entries
    /\ Canvas.nodes (add_edges nodes entries g) = Canvas.nodes g
    /\ Canvas.clientWidth (add_edges nodes entries g) = Canvas.clientWidth g.
Proof.
  unfold add_edges, drawn_edges.
  induction entries as [|[key l] rest IH]; intros Hkeys g;
    cbn [fold_left flat_map fst snd].
  - rewrite app_nil_r. auto.
  - assert (Hrest : incl (map fst rest) (map Node.id nodes))
      by (intros x Hx; apply Hkeys; right; exact Hx).
    assert (Hkey : find_node key nodes <> None).
    { pose proof (find_node_among key nodes) as H.
      destruct (find_node key nodes); [discriminate|].
      assert (Hin : In key (map Node.id nodes)) by (apply Hkeys; left; reflexivity).
      assert (Ht : existsb (String.eqb key) (map Node.id nodes) = true)
        by (apply existsb_exists; exists key; split; [exact Hin|apply String.eqb_refl]).
      congruence. }
    destruct (Layout.dest l) as [|t dest] eqn:Hdest.
    + cbn [filter map app]. apply IH. exact Hrest.
    + destruct (find_node key nodes) as [n|]; [|congruence].
      destruct (add_edges_from_spec nodes key (t :: dest) g) as (He & Hn & Hw).
      destruct (IH Hrest (add_edges_from nodes key (t :: dest) g)) as (He' & Hn' & Hw').
      rewrite He', Hn', Hw', He, Hn, Hw. rewrite <- app_assoc. auto.
Qed.

(** The rebuild of a scene whose layout keys all have a stage. *)
Lemma activate_from_shape (c : Cursor) (st : State) (sc : Scene.t) :
  incl (map fst (Scene.graph sc)) (map Stage.id (Scene.stages sc)) ->
  exists st' c',
    activate_from c st sc = (Ok st', c') /\
    map Node.id (Canvas.nodes (graph st')) = map fst (Scene.graph sc) /\
    map place (Canvas.nodes (graph st'))
    = cells (Canvas.clientWidth (graph st)) c (length (Scene.graph sc)) /\
    Forall (flag_follows_root sc) (Canvas.nodes (graph st')) /\
    Canvas.edges (graph st')
    = drawn_edges (map fst (Scene.graph sc)) (Scene.graph sc) /\
    Canvas.clientWidth (graph st') = Canvas.clientWidth (graph st) /\
    activeScene st' = Some sc /\
    edited st' = false /\ inEdit st' = false /\
    scenes st' = scenes st /\ idCalls st' = idCalls st.
Proof.
  intros Hkeys.
  set (st3 := with_activeScene (Some sc)
                (with_graph (Canvas.mk [] [] (Canvas.clientWidth (graph st)))
                   (with_inEdit true st))).
  destruct (@add_nodes_from_ok sc (Scene.graph sc) c st3 eq_refl Hkeys (Forall_nil _))
    as (st4 & c' & Hrun & Hids & Hplaces & Hflags & Hedges & Hwidth & Hscenes & Hact
        & _ & _ & Hcalls).
  simpl in Hids, Hplaces, Hedges, Hwidth, Hscenes, Hact, Hcalls.
  destruct (@add_edges_spec (Canvas.nodes (graph st4)) (Scene.graph sc)) with (g := graph st4)
    as (He & Hn & Hw).
  { rewrite Hids. apply incl_refl. }
  assert (Heq : activate_from c st sc
                = (Ok (with_edited false
                         (with_inEdit false
                            (with_graph
                               (add_edges (Canvas.nodes (graph st4)) (Scene.graph sc)
                                  (graph st4)) st4))), c')).
  { unfold activate_from. cbv zeta.
    change (add_nodes_from sc (Scene.graph sc) c _)
      with (add_nodes_from sc (Scene.graph sc) c st3).
    rewrite Hrun. reflexivity. }
  eexists. exists c'. split; [exact Heq|].
  simpl. rewrite Hn, He, Hw, Hids, Hplaces, Hedges, Hwidth.
  repeat split; assumption.
Qed.

(** X9.  When every key of the stored layout is the id of a stage of the
    scene, activation succeeds: the canvas then has one node per key, in the
    order of the keys, and an edge for each stored destination that is a
    key, and nothing else; the scene is the active one, neither the dirty
    flag nor the rebuild guard is set, the scenes list is as before.  The
    nodes sit on the cells of the placement grid, counted from the cursor of
    the calling closure; the stored coordinates play no part. *)
Theorem activation_rebuilds_canvas (c : Cursor) (st : State) (sc : Scene.t) :
  incl (map fst (Scene.graph sc)) (map Stage.id (Scene.stages sc)) ->
  exists st' c',
    activate_from c st sc = (Ok st', c') /\
    (c = cursor0 -> activate st sc = Ok st') /\
    map Node.id (Canvas.nodes (graph st')) = map fst (Scene.graph sc) /\
    map place (Canvas.nodes (graph st'))
    = cells (Canvas.clientWidth (graph st)) c (length (Scene.graph sc)) /\
    Canvas.edges (graph st')
    = drawn_edges (map fst (Scene.graph sc)) (Scene.graph sc) /\
    Canvas.clientWidth (graph st') = Canvas.clientWidth (graph st) /\
    activeScene st' = Some sc /\
    edited st' = false /\ inEdit st' = false /\
    scenes st' = scenes st /\ idCalls st' = idCalls st.
Proof.
  intros Hkeys.
  destruct (@activate_from_shape c st sc Hkeys)
    as (st' & c' & Hrun & Hids & Hplaces & _ & Hedges & Hwidth & Hact & Hedited
        & Hedit & Hscenes & Hcalls).
  exists st', c'. split; [exact Hrun|].
  split; [intros ->; rewrite activate_is_fst, Hrun; reflexivity|].
  repeat split; assumption.
Qed.

(** X10.  After the activation of a scene whose layout keys are distinct
    and are all ids of its stages, node ids are unique, only the node that
    [root] names carries the start flag, and every node stands for a stage
    of the active scene. *)
Theorem activation_establishes_invariants (c : Cursor) (st : State) (sc : Scene.t) :
  incl (map fst (Scene.graph sc)) (map Stage.id (Scene.stages sc)) ->
  NoDup (map fst (Scene.graph sc)) ->
  exists st' c',
    activate_from c st sc = (Ok st', c') /\
    activeScene st' = Some sc /\
    unique_ids (graph st') /\
    start_mirrors_root st' /\
    nodes_are_stages st'.
Proof.
  intros Hkeys Hnodup.
  destruct (@activate_from_shape c st sc Hkeys)
    as (st' & c' & Hrun & Hids & _ & Hflags & _ & _ & Hact & _).
  exists st', c'. split; [exact Hrun|]. split; [exact Hact|].
  split; [unfold unique_ids; rewrite Hids; exact Hnodup|].
  split.
  - intros n Hn Hs. exists sc. split; [exact Hact|].
    rewrite Forall_forall in Hflags. exact (Hflags n Hn Hs).
  - intros n Hn. exists sc. split; [exact Hact|].
    apply Hkeys. rewrite <- Hids. apply in_map. exact Hn.
Qed.

(** ** The saved layout *)

Lemma obj_set_fresh {V : Type} (obj : list (string * V)) (key : string) (v : V) :
  ~ In key (map fst obj) -> Js.obj_set obj key v = obj ++ [(key, v)].
Proof.
  induction obj as [|[k w] rest IH]; simpl; intros Hnot; [reflexivity|].
  destruct (String.eqb_spec k key) as [Heq|Hne].
  - exfalso. apply Hnot. left. exact Heq.
  - rewrite IH; [reflexivity|]. intros H. apply Hnot. right. exact H.
Qed.

Lemma serialize_fold (g : Canvas.t) (nodes : list Node.t) :
  forall acc,
    NoDup (map fst acc ++ map Node.id nodes) ->
    fold_left
      (fun ret node =>
         Js.obj_set ret (Node.id node)
           (Layout.mk (Node.x node) (Node.y node) (outgoing g (Node.id node))))
      nodes acc
    = acc ++ map (fun node =>
                    (Node.id node,
                     Layout.mk (Node.x node) (Node.y node)
                       (outgoing g (Node.id node)))) nodes.
Proof.
  induction nodes as [|n rest IH]; intros acc Hnodup; simpl.
  - rewrite app_nil_r. reflexivity.
  - rewrite obj_set_fresh.
    + rewrite IH.
      * rewrite <- app_assoc. reflexivity.
      * rewrite map_app. simpl. rewrite <- app_assoc. exact Hnodup.
    + intros Hin. simpl in Hnodup. apply NoDup_remove_2 in Hnodup.
      apply Hnodup. apply in_or_app. left. exact Hin.
Qed.

(** X11.  On a canvas whose node ids are unique the layout that
    [saveScene] stores has one entry per node, written in the order of the
    nodes, keyed by the node's id and holding the node's coordinates and the
    targets of the edges that leave it. *)
Theorem saved_layout_is_one_entry_per_node (g : Canvas.t) :
  unique_ids g ->
  serialize_graph g
  = map (fun node =>
           (Node.id node,
            Layout.mk (Node.x node) (Node.y node) (outgoing g (Node.id node))))
      (Canvas.nodes g).
Proof.
  intros Huniq. unfold serialize_graph.
  rewrite serialize_fold; [reflexivity|exact Huniq].
Qed.

Lemma filter_source_pairs (k k' : string) (targets : list string) :
  filter (fun e : string * string => String.eqb (fst e) k') (map (pair k) targets)
  = if String.eqb k k' then map (pair k) targets else [].
Proof.
  induction targets as [|t rest IH]; simpl.
  - destruct (String.eqb k k'); reflexivity.
  - rewrite IH. destruct (String.eqb k k'); reflexivity.
Qed.

Lemma drawn_edges_no_source (ids : list string) (layout : list (string * Layout.t))
    (k : string) :
  ~ In k (map fst layout) ->
  filter (fun e : string * string => String.eqb (fst e) k) (drawn_edges ids layout)
  = [].
Proof.
  unfold drawn_edges.
  induction layout as [|[k0 l] rest IH]; simpl; intros Hnot; [reflexivity|].
  rewrite filter_app, filter_source_pairs.
  destruct (String.eqb_spec k0 k) as [Heq|Hne].
  - exfalso. apply Hnot. left. exact Heq.
  - simpl. apply IH. intros H. apply Hnot. right. exact H.
Qed.

Lemma drawn_edges_of_source (ids : list string) (layout : list (string * Layout.t))
    (entry : string * Layout.t) :
  NoDup (map fst layout) ->
  In entry layout ->
  map snd
    (filter (fun e : string * string => String.eqb (fst e) (fst entry))
       (drawn_edges ids layout))
  = filter (fun target => existsb (String.eqb target) ids)
      (Layout.dest (snd entry)).
Proof.
  induction layout as [|[k0 l] rest IH]; intros Hnodup Hin; [destruct Hin|].
  inversion Hnodup as [|? ? Hnot Hnodup']; subst.
  change (drawn_edges ids ((k0, l) :: rest))
    with (map (pair k0)
            (filter (fun target => existsb (String.eqb target) ids) (Layout.dest l))
          ++ drawn_edges ids rest).
  rewrite filter_app, filter_source_pairs, map_app.
  destruct Hin as [<-|Hin].
  - simpl. rewrite String.eqb_refl.
    rewrite drawn_edges_no_source by exact Hnot.
    rewrite app_nil_r, map_map. simpl. apply map_id.
  - assert (Hne : k0 <> fst entry).
    { intros ->. apply Hnot. apply in_map. exact Hin. }
    apply String.eqb_neq in Hne. rewrite Hne. simpl.
    apply IH; assumption.
Qed.

Lemma filter_all_kept {A : Type} (f : A -> bool) (l : list A) :
  (forall x, In x l -> f x = true) -> filter f l = l.
Proof.
  induction l as [|a l IH]; intros H; simpl; [reflexivity|].
  rewrite (H a (or_introl eq_refl)), IH; [reflexivity|].
  intros x Hx. apply H. right. exact Hx.
Qed.

(** X12.  Activating a scene and storing the canvas again gives back the
    transitions of the layout: for distinct keys that are all ids of stages,
    the layout serialised right after the activation has the same keys in
    the same order, each with those of its stored destinations that are
    keys; so the very same transitions when every destination is a key. *)
Theorem activation_then_layout_keeps_transitions (c : Cursor) (st : State)
    (sc : Scene.t) :
  incl (map fst (Scene.graph sc)) (map Stage.id (Scene.stages sc)) ->
  NoDup (map fst (Scene.graph sc)) ->
  exists st' c',
    activate_from c st sc = (Ok st', c') /\
    transitions (serialize_graph (graph st'))
    = map (fun entry =>
             (fst entry,
              filter (fun target =>
                        existsb (String.eqb target) (map fst (Scene.graph sc)))
                (Layout.dest (snd entry))))
        (Scene.graph sc) /\
    ((forall entry, In entry (Scene.graph sc) ->
                    incl (Layout.dest (snd entry)) (map fst (Scene.graph sc))) ->
     transitions (serialize_graph (graph st')) = transitions (Scene.graph sc)).
Proof.
  intros Hkeys Hnodup.
  destruct (@activate_from_shape c st sc Hkeys)
    as (st' & c' & Hrun & Hids & _ & _ & Hedges & _).
  assert (Huniq : unique_ids (graph st'))
    by (unfold unique_ids; rewrite Hids; exact Hnodup).
  assert (Htrans : transitions (serialize_graph (graph st'))
                   = map (fun entry =>
                            (fst entry,
                             filter (fun target =>
                                       existsb (String.eqb target)
                                         (map fst (Scene.graph sc)))
                               (Layout.dest (snd entry))))
                       (Scene.graph sc)).
  { unfold transitions, serialize_graph. rewrite serialize_fold by exact Huniq.
    simpl. rewrite map_map. simpl.
    rewrite <- (map_map Node.id (fun k => (k, outgoing (graph st') k))).
    rewrite Hids, map_map.
    apply map_ext_in. intros entry Hin. f_equal.
    unfold outgoing. rewrite Hedges.
    apply drawn_edges_of_source; assumption. }
  exists st', c'. split; [exact Hrun|]. split; [exact Htrans|].
  intros Hdest. rewrite Htrans. unfold transitions.
  apply map_ext_in. intros entry Hin. f_equal.
  apply filter_all_kept. intros t Ht.
  apply existsb_exists. exists t. split; [|apply String.eqb_refl].
  exact (Hdest entry Hin t Ht).
Qed.

(** ** A layout key without a stage *)

Lemma add_nodes_from_app (sc : Scene.t) (pre rest : list (string * Layout.t)) :
  forall c st,
    add_nodes_from sc (pre ++ rest) c st
    = match add_nodes_from sc pre c st with
      | (Ok st1, c1) => add_nodes_from sc rest c1 st1
      | other => other
      end.
Proof.
  induction pre as [|[key l] pre IH]; intros c st; simpl; [reflexivity|].
  destruct (find _ (Scene.stages sc)); [|reflexivity].
  apply IH.
Qed.

(** X13.  If a key of the stored layout is not the id of a stage of the
    scene, activation throws a TypeError at that key.  By then the scene is
    already the active one and the canvas holds the nodes of the keys before
    it and no edge; the dirty flag is what it was, and the rebuild guard is
    left set.  From that state on [setActiveScene] never asks before it
    discards changes, and [node:removed] events are ignored. *)
Theorem activation_stops_at_missing_stage (c : Cursor) (st : State) (sc : Scene.t)
    (pre post : list (string * Layout.t)) (key : string) (l : Layout.t) :
  Scene.graph sc = pre ++ (key, l) :: post ->
  incl (map fst pre) (map Stage.id (Scene.stages sc)) ->
  ~ In key (map Stage.id (Scene.stages sc)) ->
  exists st' c',
    activate_from c st sc = (Throw (TypeError "stage is undefined") st', c') /\
    (c = cursor0 -> activate st sc = Throw (TypeError "stage is undefined") st') /\
    inEdit st' = true /\
    activeScene st' = Some sc /\
    map Node.id (Canvas.nodes (graph st')) = map fst pre /\
    Canvas.edges (graph st') = [] /\
    edited st' = edited st /\ scenes st' = scenes st /\
    (forall answer sc2, setActiveScene answer st' sc2 = activate st' sc2) /\
    (forall node, on_node_removed st' node = Ok st').
Proof.
  intros Hgraph Hpre Hkey.
  set (st3 := with_activeScene (Some sc)
                (with_graph (Canvas.mk [] [] (Canvas.clientWidth (graph st)))
                   (with_inEdit true st))).
  destruct (@add_nodes_from_ok sc pre c st3 eq_refl Hpre (Forall_nil _))
    as (st4 & c4 & Hrun & Hids & _ & _ & Hedges & _ & Hscenes & Hact
        & Hedited & Hedit & _).
  simpl in Hids, Hedges, Hscenes, Hact, Hedited.
  assert (Heq : activate_from c st sc
                = (Throw (TypeError "stage is undefined") st4,
                   advance (graph st4) c4)).
  { unfold activate_from. cbv zeta.
    change (add_nodes_from sc (Scene.graph sc) c _)
      with (add_nodes_from sc (Scene.graph sc) c st3).
    rewrite Hgraph, add_nodes_from_app, Hrun. simpl.
    rewrite (find_stage_none _ _ Hkey). reflexivity. }
  exists st4, (advance (graph st4) c4). split; [exact Heq|].
  split; [intros ->; rewrite activate_is_fst, Heq; reflexivity|].
  repeat (split; [assumption|]).
  split.
  - intros answer sc2. unfold setActiveScene. rewrite Hedit. reflexivity.
  - intros node. unfold on_node_removed. rewrite Hedit. reflexivity.
Qed.

(** ** Saving again *)

Lemma save_when_clean (st : State) (a : Scene.t) :
  activeScene st = Some a ->
  edited st = false ->
  exists eff,
    saveScene st = inr eff /\ save_scene eff = None /\ save st = Ok st.
Proof.
  intros Ha Hclean. unfold save, saveScene. rewrite Ha, Hclean.
  rewrite orb_true_r.
  destruct (find_start a (graph st)) as [startNode|].
  - destruct (length (getSuccessors (graph st) (Node.id startNode)) + 1
              <? length (Canvas.nodes (graph st)));
      eexists; repeat split.
  - eexists; repeat split.
Qed.

Lemma saveScene_runs (st : State) (a : Scene.t) :
  activeScene st = Some a -> exists eff, saveScene st = inr eff.
Proof.
  intros Ha. unfold saveScene. rewrite Ha.
  destruct (find_start a (graph st)) as [startNode|].
  - destruct (length (getSuccessors (graph st) (Node.id startNode)) + 1
              <? length (Canvas.nodes (graph st)));
      destruct (negb (negb _) || _)%bool; eexists; reflexivity.
  - destruct (negb (negb _) || _)%bool; eexists; reflexivity.
Qed.

(** X14.  Right after a successful activation the Store button does
    nothing: the scene is not dirty, so [saveScene] makes no persistence
    call, whatever the name and the canvas, and the state stays as it is. *)
Theorem store_after_activation_does_nothing (c : Cursor) (st : State) (sc : Scene.t) :
  incl (map fst (Scene.graph sc)) (map Stage.id (Scene.stages sc)) ->
  exists st' c' eff,
    activate_from c st sc = (Ok st', c') /\
    saveScene st' = inr eff /\ save_scene eff = None /\
    save st' = Ok st'.
Proof.
  intros Hkeys.
  destruct (@activate_from_shape c st sc Hkeys)
    as (st' & c' & Hrun & _ & _ & _ & _ & _ & Hact & Hedited & _).
  destruct (save_when_clean st' Hact Hedited) as (eff & Hsave & Hnone & Hnoop).
  exists st', c', eff. auto.
Qed.

(** X15.  Saving is idempotent: with an active scene, whatever [save]
    does the first time (abort for a missing name, nothing for a clean
    scene, or a persistence call and its acknowledgement), a second [save]
    right after it returns the state unchanged, and makes no persistence
    call if the first one made one. *)
Theorem save_twice_is_once (st : State) (a : Scene.t) :
  activeScene st = Some a ->
  exists st1,
    save st = Ok st1 /\ save st1 = Ok st1
    /\ (forall eff scene,
           saveScene st = inr eff -> save_scene eff = Some scene ->
           exists eff1, saveScene st1 = inr eff1 /\ save_scene eff1 = None).
Proof.
  intros Ha.
  destruct (saveScene_runs st Ha) as [eff Heff].
  destruct (save_scene eff) as [scene|] eqn:Hcall.
  - exists (on_saved st scene).
    assert (Hsave : save st = Ok (on_saved st scene))
      by (unfold save; rewrite Heff, Hcall; reflexivity).
    destruct (@save_when_clean (on_saved st scene) scene eq_refl eq_refl)
      as (eff1 & Heff1 & Hnone1 & Hnoop).
    split; [exact Hsave|]. split; [exact Hnoop|].
    intros eff0 scene0 _ _. exists eff1. auto.
  - exists st.
    assert (Hsave : save st = Ok st)
      by (unfold save; rewrite Heff, Hcall; reflexivity).
    split; [exact Hsave|]. split; [exact Hsave|].
    intros eff0 scene0 Heff0 Hcall0. rewrite Heff in Heff0.
    inversion Heff0; subst eff0. congruence.
Qed.

(** ** Storing a scene and opening it again *)

Lemma saveScene_scene (st : State) (a : Scene.t) (eff : SaveEffects)
    (scene : Scene.t) :
  activeScene st = Some a ->
  saveScene st = inr eff ->
  save_scene eff = Some scene ->
  exists has_warnings,
    scene = Scene.with_has_warnings has_warnings
              (Scene.with_graph (serialize_graph (graph st)) a).
Proof.
  intros Ha Heff Hcall. unfold saveScene in Heff. rewrite Ha in Heff.
  destruct (find_start a (graph st)) as [startNode|].
  - destruct (length (getSuccessors (graph st) (Node.id startNode)) + 1
              <? length (Canvas.nodes (graph st)));
      destruct (negb (negb _) || _)%bool; inversion Heff; subst eff;
      simpl in Hcall; inversion Hcall; eexists; reflexivity.
  - destruct (negb (negb _) || _)%bool; inversion Heff; subst eff;
      simpl in Hcall; inversion Hcall; eexists; reflexivity.
Qed.

Lemma flat_map_agree {A B : Type} (f g : A -> list B) (l : list A) :
  (forall x, In x l -> f x = g x) -> flat_map f l = flat_map g l.
Proof.
  induction l as [|x l IH]; intros Hfg; simpl; [reflexivity|].
  rewrite (Hfg x (or_introl eq_refl)), IH; [reflexivity|].
  intros y Hy. apply Hfg. right. exact Hy.
Qed.

Lemma flat_map_of_map {A B C : Type} (h : A -> B) (f : B -> list C) (l : list A) :
  flat_map f (map h l) = flat_map (fun x => f (h x)) l.
Proof.
  induction l as [|x l IH]; simpl; [reflexivity|]. rewrite IH. reflexivity.
Qed.

Lemma pairs_of_source (E : list (string * string)) (k : string) :
  map (pair k) (map snd (filter (fun e => String.eqb (fst e) k) E))
  = filter (fun e => String.eqb (fst e) k) E.
Proof.
  induction E as [|[s t] E IH]; simpl; [reflexivity|].
  destruct (String.eqb s k) eqn:Hs; simpl; [|exact IH].
  apply String.eqb_eq in Hs. subst s. rewrite IH. reflexivity.
Qed.

Lemma filter_split_perm {A : Type} (f : A -> bool) (l : list A) :
  Permutation (filter f l ++ filter (fun x => negb (f x)) l) l.
Proof.
  induction l as [|x l IH]; simpl; [constructor|].
  destruct (f x); simpl.
  - constructor. exact IH.
  - apply Permutation_sym, Permutation_cons_app, Permutation_sym. exact IH.
Qed.

Lemma filter_other_source (E : list (string * string)) (i j : string) :
  i <> j ->
  filter (fun e => String.eqb (fst e) j)
    (filter (fun e => negb (String.eqb (fst e) i)) E)
  = filter (fun e => String.eqb (fst e) j) E.
Proof.
  intros Hij. induction E as [|[s t] E IH]; simpl; [reflexivity|].
  destruct (String.eqb s i) eqn:Hi; simpl.
  - apply String.eqb_eq in Hi. subst s.
    destruct (String.eqb i j) eqn:Hj; [|exact IH].
    apply String.eqb_eq in Hj. contradiction.
  - rewrite IH. reflexivity.
Qed.

Lemma edges_by_source (l : list string) :
  forall E : list (string * string),
    NoDup l ->
    (forall e, In e E -> In (fst e) l) ->
    Permutation (flat_map (fun i => filter (fun e => String.eqb (fst e) i) E) l) E.
Proof.
  induction l as [|i l IH]; intros E Hnd Hsrc.
  - destruct E as [|e E]; [constructor|].
    destruct (Hsrc e (or_introl eq_refl)).
  - inversion Hnd as [|? ? Hnotin Hnd']; subst. simpl.
    rewrite (@flat_map_agree _ _
               (fun j => filter (fun e => String.eqb (fst e) j) E)
               (fun j => filter (fun e => String.eqb (fst e) j)
                           (filter (fun e => negb (String.eqb (fst e) i)) E))).
    + eapply Permutation_trans; [|apply (filter_split_perm (fun e => String.eqb (fst e) i))].
      apply Permutation_app_head. apply IH; [exact Hnd'|].
      intros e He. apply filter_In in He. destruct He as [He Hne].
      destruct (Hsrc e He) as [Heq|Hin]; [|exact Hin].
      subst i. rewrite String.eqb_refl in Hne. discriminate.
    + intros j Hj. symmetry. apply filter_other_source.
      intros ->. contradiction.
Qed.

Lemma serialize_graph_keys (g : Canvas.t) :
  unique_ids g -> map fst (serialize_graph g) = map Node.id (Canvas.nodes g).
Proof.
  intros Huniq. unfold serialize_graph.
  rewrite serialize_fold by exact Huniq. simpl.
  rewrite map_map. reflexivity.
Qed.

(** X16.  A stored scene opens with the graph that was on the canvas when
    it was stored.  If node ids are unique, every node stands for a stage of
    the scene and every edge joins two nodes of the canvas, then activating
    the scene that [saveScene] handed to the persistence call, in whatever
    order the entries of its layout are enumerated, succeeds and gives a
    canvas with one node per node of the old canvas, under the same ids, and
    the same edges up to their order. *)
Theorem stored_scene_reopens_with_same_graph (c : Cursor) (st st0 : State)
    (a scene : Scene.t) (eff : SaveEffects) (layout : list (string * Layout.t)) :
  activeScene st = Some a ->
  saveScene st = inr eff ->
  save_scene eff = Some scene ->
  unique_ids (graph st) ->
  incl (map Node.id (Canvas.nodes (graph st))) (map Stage.id (Scene.stages a)) ->
  (forall e, In e (Canvas.edges (graph st)) ->
             In (fst e) (map Node.id (Canvas.nodes (graph st)))
             /\ In (snd e) (map Node.id (Canvas.nodes (graph st)))) ->
  Permutation layout (Scene.graph scene) ->
  exists st' c',
    activate_from c st0 (Scene.with_graph layout scene) = (Ok st', c') /\
    map Node.id (Canvas.nodes (graph st')) = map fst layout /\
    Permutation (map Node.id (Canvas.nodes (graph st')))
      (map Node.id (Canvas.nodes (graph st))) /\
    Permutation (Canvas.edges (graph st')) (Canvas.edges (graph st)) /\
    (layout = Scene.graph scene ->
     map Node.id (Canvas.nodes (graph st'))
     = map Node.id (Canvas.nodes (graph st))).
Proof.
  intros Ha Heff Hcall Huniq Hstages Hends Hperm.
  destruct (saveScene_scene st Ha Heff Hcall) as [hw ->].
  simpl in Hperm.
  pose proof (serialize_graph_keys Huniq) as Hkeys.
  assert (Hpk : Permutation (map fst layout)
                  (map Node.id (Canvas.nodes (graph st)))).
  { rewrite <- Hkeys. apply Permutation_map. exact Hperm. }
  set (sc := Scene.with_graph layout
               (Scene.with_has_warnings hw
                  (Scene.with_graph (serialize_graph (graph st)) a))).
  assert (Hincl : incl (map fst (Scene.graph sc)) (map Stage.id (Scene.stages sc))).
  { simpl. intros k Hk. apply Hstages.
    apply (Permutation_in _ Hpk). exact Hk. }
  destruct (@activate_from_shape c st0 sc Hincl)
    as (st' & c' & Hrun & Hids & _ & _ & Hedges & _).
  simpl in Hids, Hedges.
  exists st', c'. split; [exact Hrun|]. split; [exact Hids|].
  split; [rewrite Hids; exact Hpk|].
  split; [|intros ->; rewrite Hids; exact Hkeys].
  rewrite Hedges. unfold drawn_edges.
  eapply Permutation_trans; [apply Permutation_flat_map; exact Hperm|].
  unfold serialize_graph. rewrite serialize_fold by exact Huniq. simpl.
  rewrite flat_map_of_map. simpl.
  rewrite (@flat_map_agree _ _ _
             (fun node => filter (fun e => String.eqb (fst e) (Node.id node))
                            (Canvas.edges (graph st)))).
  - rewrite <- (flat_map_of_map Node.id
                  (fun i => filter (fun e => String.eqb (fst e) i)
                              (Canvas.edges (graph st)))).
    apply edges_by_source; [exact Huniq|].
    intros e He. apply (Hends e He).
  - intros node Hnode. rewrite filter_all_kept.
    + apply pairs_of_source.
    + intros target Ht. unfold outgoing in Ht.
      apply in_map_iff in Ht. destruct Ht as (e & <- & He).
      apply filter_In in He. destruct He as [He _].
      apply existsb_exists. exists (snd e). split; [|apply String.eqb_refl].
      apply (Permutation_in _ (Permutation_sym Hpk)). apply (Hends e He).
Qed.

(** ** The scenes list after a save *)



(** ** Opening a project *)

(** X18.  A project update whose first scene has a stage for every key of
    its layout replaces the scenes list by the scenes of the payload, in
    their order, and, unless the dialog of the listener's [setActiveScene]
    is opened and declined, activates the first of them: the canvas is
    rebuilt for it and the dirty flag is cleared, without a question when
    the listener was registered before anything was edited, however dirty
    the scene on the canvas is.  If the dialog is declined the list is
    replaced and the dirty flag cleared all the same, while the scene and
    the canvas that were active stay. *)
Theorem project_update_replaces_scenes (editedSeen : bool) (answer : Answer)
    (c : Cursor) (st : State) (key : string) (first : Scene.t)
    (rest : list (string * Scene.t)) :
  incl (map fst (Scene.graph first)) (map Stage.id (Scene.stages first)) ->
  (editedSeen = false \/ inEdit st = true \/ answer = ContinueWithoutSaving ->
   exists st' c',
     on_project_update editedSeen answer c st ((key, first) :: rest)
     = (Ok st', c') /\
     scenes st' = first :: map snd rest /\
     activeScene st' = Some first /\
     edited st' = false /\ inEdit st' = false /\
     map Node.id (Canvas.nodes (graph st')) = map fst (Scene.graph first) /\
     Canvas.edges (graph st')
     = drawn_edges (map fst (Scene.graph first)) (Scene.graph first)) /\
  (editedSeen = true -> inEdit st = false -> answer = Cancel ->
   exists st',
     on_project_update editedSeen answer c st ((key, first) :: rest)
     = (Ok st', c) /\
     scenes st' = first :: map snd rest /\
     edited st' = false /\
     activeScene st' = activeScene st /\ graph st' = graph st).
Proof.
  intros Hkeys. split.
  - intros Hopen.
    set (st1 := with_edited false (with_scenes (first :: map snd rest) st)).
    assert (Hrun : on_project_update editedSeen answer c st ((key, first) :: rest)
                   = activate_from c st1 first
                   \/ on_project_update editedSeen answer c st ((key, first) :: rest)
                      = activate_from c (with_inEdit true st1) first).
    { unfold on_project_update. simpl. fold st1.
      destruct (inEdit st) eqn:Hedit; simpl; [left; reflexivity|].
      destruct editedSeen; simpl; [|left; reflexivity].
      destruct answer; [right; reflexivity|].
      destruct Hopen as [H|[H|H]]; discriminate. }
    destruct Hrun as [Hrun|Hrun]; rewrite Hrun.
    + destruct (@activate_from_shape c st1 first Hkeys)
        as (st' & c' & Hact & Hids & _ & _ & Hedges & _ & Hactive & Hedited
            & Hedit & Hscenes & _).
      exists st', c'. repeat split; assumption.
    + destruct (@activate_from_shape c (with_inEdit true st1) first Hkeys)
        as (st' & c' & Hact & Hids & _ & _ & Hedges & _ & Hactive & Hedited
            & Hedit & Hscenes & _).
      exists st', c'. repeat split; assumption.
  - intros -> Hedit ->.
    exists (with_edited false (with_scenes (first :: map snd rest) st)).
    unfold on_project_update. simpl. rewrite Hedit. simpl.
    repeat split.
Qed.

(** ** The keys of the sidebar menu *)

Lemma lastIndexOf_found (c : Ascii.ascii) (a b : string) :
  lastIndexOf c (String.append a (String c b)) <> None.
Proof.
  induction a as [|x a IH]; simpl.
  - destruct (lastIndexOf c b); [discriminate|].
    rewrite Ascii.eqb_refl. discriminate.
  - destruct (lastIndexOf c (String.append a (String c b)));
      [discriminate|contradiction].
Qed.

Lemma lastIndexOf_last (c : Ascii.ascii) (a b : string) :
  lastIndexOf c b = None ->
  lastIndexOf c (String.append a (String c b)) = Some (String.length a).
Proof.
  intros Hb. induction a as [|x a IH]; simpl.
  - rewrite Hb, Ascii.eqb_refl. reflexivity.
  - rewrite IH. reflexivity.
Qed.

Lemma lastIndexOf_split (c : Ascii.ascii) (s : string) :
  lastIndexOf c s <> None ->
  exists a b, s = String.append a (String c b) /\ lastIndexOf c b = None.
Proof.
  induction s as [|x s IH]; simpl; [intros H; contradiction|].
  destruct (lastIndexOf c s) as [i|] eqn:Hs.
  - intros _. destruct IH as (a & b & -> & Hb); [discriminate|].
    exists (String x a), b. split; [reflexivity|exact Hb].
  - destruct (Ascii.eqb x c) eqn:Hx; [|intros H; contradiction].
    intros _. apply Ascii.eqb_eq in Hx. subst x.
    exists EmptyString, s. split; [reflexivity|exact Hs].
Qed.

Lemma substring_prefix (a s : string) :
  substring 0 (String.length a) (String.append a s) = a.
Proof.
  induction a as [|x a IH]; simpl; [destruct s; reflexivity|].
  rewrite IH. reflexivity.
Qed.

Lemma substring_skip (a b : string) (c : Ascii.ascii) (m : nat) :
  substring (S (String.length a)) m (String.append a (String c b))
  = substring 0 m b.
Proof. induction a as [|x a IH]; simpl; [reflexivity|exact IH]. Qed.

Lemma substring_all (b : string) : substring 0 (String.length b) b = b.
Proof. induction b as [|x b IH]; simpl; [reflexivity|]. rewrite IH. reflexivity. Qed.

Lemma length_append (a s : string) :
  String.length (String.append a s) = String.length a + String.length s.
Proof. induction a as [|x a IH]; simpl; [reflexivity|]. rewrite IH. reflexivity. Qed.

Lemma parse_key_split (a b : string) :
  lastIndexOf underscore b = None ->
  parse_key (String.append a (String underscore b)) = (a, b).
Proof.
  intros Hb. unfold parse_key. rewrite (@lastIndexOf_last underscore a b Hb).
  rewrite substring_prefix, substring_skip, length_append. simpl.
  replace (String.length a + S (String.length b) - S (String.length a))
    with (String.length b) by lia.
  rewrite substring_all. reflexivity.
Qed.

Lemma append_step (a b : string) (c : Ascii.ascii) (prefix : string) :
  String.append prefix (String.append a (String c b))
  = String.append (String.append prefix a) (String c b).
Proof.
  induction prefix as [|x prefix IH]; simpl; [reflexivity|].
  rewrite IH. reflexivity.
Qed.

Lemma delete_scene_gone (id : string) (l : list Scene.t) :
  find (fun scene => String.eqb (Scene.id scene) id)
    (filter (fun scene => negb (String.eqb (Scene.id scene) id)) l) = None.
Proof.
  induction l as [|x l IH]; simpl; [reflexivity|].
  destruct (String.eqb (Scene.id x) id) eqn:Hx; simpl; [exact IH|].
  rewrite Hx. exact IH.
Qed.

(** X19.  The Edit entry of a listed scene whose id holds no underscore
    does what [setActiveScene] does for the first listed scene of that id:
    the key the menu builds is split back into the option and the id. *)
Theorem edit_entry_activates_listed_scene (answer : Answer) (deleteOk : bool)
    (new_anim : Scene.t) (st : State) (sc listed : Scene.t) :
  lastIndexOf underscore (Scene.id sc) = None ->
  find (fun scene => String.eqb (Scene.id scene) (Scene.id sc)) (scenes st)
  = Some listed ->
  parse_key (editKey sc) = ("editanim"%string, Scene.id sc) /\
  onSiderSelect answer deleteOk new_anim st (editKey sc)
  = setActiveScene answer st listed.
Proof.
  intros Hclean Hfind.
  assert (Hkey : parse_key (editKey sc) = ("editanim"%string, Scene.id sc))
    by exact (@parse_key_split "editanim" (Scene.id sc) Hclean).
  split; [exact Hkey|].
  unfold onSiderSelect. rewrite Hkey, Hfind. reflexivity.
Qed.

(** X20.  The Delete entry of a listed scene whose id holds no underscore,
    once confirmed, leaves no scene of that id in the list and every other
    scene where it was; the canvas is not touched, and the active scene and
    the dirty flag are cleared exactly when the active scene has that id.
    Declined, it changes nothing. *)
Theorem delete_entry_removes_scene (answer : Answer) (new_anim : Scene.t)
    (st : State) (sc listed : Scene.t) :
  lastIndexOf underscore (Scene.id sc) = None ->
  find (fun scene => String.eqb (Scene.id scene) (Scene.id sc)) (scenes st)
  = Some listed ->
  onSiderSelect answer false new_anim st (deleteKey sc) = Ok st /\
  exists st',
    onSiderSelect answer true new_anim st (deleteKey sc) = Ok st' /\
    find (fun scene => String.eqb (Scene.id scene) (Scene.id sc)) (scenes st')
    = None /\
    (forall other, Scene.id other <> Scene.id sc ->
                   (In other (scenes st') <-> In other (scenes st))) /\
    scenes st'
    = filter (fun scene => negb (String.eqb (Scene.id scene) (Scene.id sc)))
        (scenes st) /\
    graph st' = graph st /\
    (forall a, activeScene st = Some a -> Scene.id a = Scene.id sc ->
               activeScene st' = None /\ edited st' = false) /\
    (forall a, activeScene st = Some a -> Scene.id a <> Scene.id sc ->
               activeScene st' = Some a /\ edited st' = edited st) /\
    (activeScene st = None ->
     activeScene st' = None /\ edited st' = edited st).
Proof.
  intros Hclean Hfind.
  assert (Hkey : parse_key (deleteKey sc) = ("delanim"%string, Scene.id sc))
    by exact (@parse_key_split "delanim" (Scene.id sc) Hclean).
  split; [unfold onSiderSelect; rewrite Hkey, Hfind; reflexivity|].
  exists (delete_scene st (Scene.id sc)).
  split; [unfold onSiderSelect; rewrite Hkey, Hfind; reflexivity|].
  assert (Hscenes : scenes (delete_scene st (Scene.id sc))
                    = filter (fun scene =>
                                negb (String.eqb (Scene.id scene) (Scene.id sc)))
                        (scenes st)).
  { unfold delete_scene. destruct (activeScene st) as [a|]; [|reflexivity].
    destruct (String.eqb (Scene.id a) (Scene.id sc)); reflexivity. }
  split; [rewrite Hscenes; apply delete_scene_gone|].
  split.
  { intros other Hother. rewrite Hscenes, filter_In.
    apply String.eqb_neq in Hother. rewrite Hother. simpl. tauto. }
  split; [exact Hscenes|].
  split.
  { unfold delete_scene. destruct (activeScene st) as [a|]; [|reflexivity].
    destruct (String.eqb (Scene.id a) (Scene.id sc)); reflexivity. }
  split.
  { intros a Ha Hid. unfold delete_scene. rewrite Ha.
    apply String.eqb_eq in Hid. rewrite Hid. split; reflexivity. }
  split.
  { intros a Ha Hid. unfold delete_scene. rewrite Ha.
    apply String.eqb_neq in Hid. rewrite Hid. split; [exact Ha|reflexivity]. }
  intros Hnone. unfold delete_scene. rewrite Hnone.
  split; [exact Hnone|reflexivity].
Qed.

(** X21.  For a scene whose id holds an underscore neither menu entry does
    anything: the key is cut at its last underscore, so the option read from
    it is none of the three the handler knows, and the state is returned as
    it is, whatever is listed and whatever the dialogs would answer. *)
Theorem entries_of_underscore_id_do_nothing (answer : Answer) (deleteOk : bool)
    (new_anim : Scene.t) (st : State) (sc : Scene.t) (a b : string) :
  Scene.id sc = String.append a (String underscore b) ->
  onSiderSelect answer deleteOk new_anim st (editKey sc) = Ok st /\
  onSiderSelect answer deleteOk new_anim st (deleteKey sc) = Ok st.
Proof.
  intros Hid.
  destruct (@lastIndexOf_split underscore (Scene.id sc)) as (a' & b' & Hsplit & Hb').
  { rewrite Hid. apply lastIndexOf_found. }
  unfold onSiderSelect, editKey, deleteKey. rewrite Hsplit.
  rewrite !append_step, !(fun p => @parse_key_split p b' Hb').
  split; reflexivity.
Qed.

(** ** The furniture panel *)

Lemma indexOf_absent (v : string) (l : list string) :
  ~ In v l -> indexOf v l = None.
Proof.
  unfold indexOf. induction l as [|x l IH]; simpl; intros Hnot; [reflexivity|].
  destruct (String.eqb v x) eqn:Hx.
  - apply String.eqb_eq in Hx. subst x. exfalso. apply Hnot. left. reflexivity.
  - rewrite IH; [reflexivity|]. intros Hin. apply Hnot. right. exact Hin.
Qed.

Lemma includes_In (v : string) (l : list string) :
  includes v l = true <-> In v l.
Proof.
  unfold includes. rewrite existsb_exists. split.
  - intros (x & Hx & Heq). apply String.eqb_eq in Heq. subst x. exact Hx.
  - intros Hin. exists v. split; [exact Hin|apply String.eqb_refl].
Qed.

(** X22.  The furniture panel keeps its settings consistent: if some type
    is chosen, "None" is chosen only alone and a bed is allowed only with
    "None", then the same holds after a selection, after a deselection and
    after a click on the "Allow Bed" checkbox while it is enabled.
    Selecting a type other than "None" takes the place of "None" and
    forbids the bed; deselecting the last type leaves "None". *)
Theorem furniture_panel_keeps_settings_consistent (value : string)
    (checked : bool) (prev : Furniture.t) :
  furniture_ok prev ->
  furniture_ok (furniture_onSelect value prev) /\
  furniture_ok (furniture_onDeselect value prev) /\
  (allow_bed_disabled prev = false ->
   furniture_ok (allow_bed_onChange checked prev)) /\
  (value <> none_type ->
   Furniture.allow_bed (furniture_onSelect value prev) = false /\
   ~ In none_type (Furniture.furni_types (furniture_onSelect value prev)) /\
   In value (Furniture.furni_types (furniture_onSelect value prev))) /\
  (Furniture.furni_types prev = [value] ->
   Furniture.furni_types (furniture_onDeselect value prev) = [none_type]).
Proof.
  intros (Hsome & Halone & Hbed).
  assert (Hselect : value <> none_type ->
            Furniture.allow_bed (furniture_onSelect value prev) = false /\
            ~ In none_type (Furniture.furni_types (furniture_onSelect value prev)) /\
            In value (Furniture.furni_types (furniture_onSelect value prev))).
  { intros Hvalue. unfold furniture_onSelect.
    pose proof Hvalue as Hneq. apply String.eqb_neq in Hneq. rewrite Hneq.
    simpl. split; [reflexivity|].
    destruct (in_dec string_dec none_type (Furniture.furni_types prev)) as [Hin|Hnot].
    - rewrite (Halone Hin). simpl. split; [|left; reflexivity].
      intros [Heq|[]]. apply Hvalue. exact Heq.
    - rewrite (@indexOf_absent _ _ Hnot). unfold Js.push. split.
      + intros Hin. apply in_app_or in Hin. destruct Hin as [Hin|[Heq|[]]];
          [exact (Hnot Hin)|exact (Hvalue Heq)].
      + apply in_or_app. right. left. reflexivity. }
  split.
  { destruct (string_dec value none_type) as [->|Hvalue].
    - unfold furniture_onSelect. rewrite String.eqb_refl.
      repeat split; simpl.
      + discriminate.
      + intros _. left. reflexivity.
    - destruct (Hselect Hvalue) as (Hoff & Hnone & Hin).
      split; [intros Hnil; rewrite Hnil in Hin; exact Hin|].
      split; [intros Hin'; contradiction|].
      intros Hon. rewrite Hoff in Hon. discriminate. }
  split.
  { unfold furniture_onDeselect, furniture_ok. simpl.
    destruct (filter (fun it => negb (String.eqb it value))
                (Furniture.furni_types prev)) as [|t types] eqn:Hrest; simpl.
    - split; [discriminate|]. split; [reflexivity|].
      intros _. left. reflexivity.
    - split; [discriminate|].
      assert (Hkept : forall x, In x (t :: types) ->
                                In x (Furniture.furni_types prev)).
      { intros x Hx. rewrite <- Hrest in Hx. apply filter_In in Hx. apply Hx. }
      split.
      + intros Hin. pose proof (Halone (Hkept _ Hin)) as Hprev.
        rewrite Hprev in Hrest. cbn [filter] in Hrest.
        destruct (negb (String.eqb none_type value)); [|discriminate].
        symmetry. exact Hrest.
      + intros Hon. pose proof (Halone (Hbed Hon)) as Hprev.
        rewrite Hprev in Hrest. cbn [filter] in Hrest.
        destruct (negb (String.eqb none_type value)); [|discriminate].
        inversion Hrest. left. reflexivity. }
  split.
  { intros Henabled. unfold allow_bed_disabled in Henabled.
    apply negb_false_iff, includes_In in Henabled.
    unfold allow_bed_onChange, furniture_ok. simpl.
    split; [exact Hsome|]. split; [exact Halone|]. intros _. exact Henabled. }
  split; [exact Hselect|].
  intros Hone. unfold furniture_onDeselect. rewrite Hone. simpl.
  rewrite String.eqb_refl. reflexivity.
Qed.

(** * Instances of the further properties *)

Lemma stateABC_nodes_are_stages : nodes_are_stages stateABC.
Proof.
  intros n Hn. exists sceneABC. split; [reflexivity|].
  simpl in Hn. destruct Hn as [<-|[<-|[<-|[]]]]; simpl; auto.
Qed.

Lemma sceneStored_keys :
  incl (map fst (Scene.graph sceneStored)) (map Stage.id (Scene.stages sceneStored)).
Proof. intros k Hk. exact Hk. Qed.

Lemma sceneStored_distinct : NoDup (map fst (Scene.graph sceneStored)).
Proof. simpl. repeat constructor; simpl; intuition discriminate. Qed.

Lemma furnitureBed_ok : furniture_ok furnitureBed.
Proof.
  split; [discriminate|]. split; [reflexivity|]. intros _. left. reflexivity.
Qed.


(** The first position of [sceneABC] is changed by a stage editor. *)
Lemma position_change_inside_witness :
  activeScene stateABC = Some sceneABC
  /\ targetsActive stateABC (ch_sceneId changeFirst) = Some true
  /\ ch_stageId changeFirst = FromStage "A"%string
  /\ (0 <= ch_positionIdx changeFirst < Z.of_nat (length (Scene.positions sceneABC)))%Z
  /\ exists st' a',
     on_position_change tickingWorld stateABC changeFirst = Ok st' /\
     activeScene st' = Some a' /\
     length (Scene.positions a') = length (Scene.positions sceneABC) /\
     (forall j,
     nth_error (Scene.positions a') j
     = if Nat.eqb (Z.to_nat (ch_positionIdx changeFirst)) j
     then Some (Position.mk (generatePositionId (tickingWorld (idCalls stateABC))) (ch_info changeFirst))
     else nth_error (Scene.positions sceneABC) j) /\
     Scene.stages a' = Scene.stages sceneABC /\
     (parallel sceneABC -> parallel a') /\
     Scene.has_warnings a' = Scene.has_warnings sceneABC /\
     edited st' = edited stateABC /\ scenes st' = scenes stateABC /\ graph st' = graph stateABC.
Proof.
  assert (H1 : activeScene stateABC = Some sceneABC)
    by (reflexivity).
  assert (H2 : targetsActive stateABC (ch_sceneId changeFirst) = Some true)
    by (reflexivity).
  assert (H3 : ch_stageId changeFirst = FromStage "A"%string)
    by (reflexivity).
  assert (H4 : (0 <= ch_positionIdx changeFirst < Z.of_nat (length (Scene.positions sceneABC)))%Z)
    by (simpl; lia).
  split; [exact H1|].
  split; [exact H2|].
  split; [exact H3|].
  split; [exact H4|].
  exact (@position_change_inside tickingWorld stateABC changeFirst sceneABC "A"%string H1 H2 H3 H4).
Defined.

(** The same change at index 1 of the one position of [sceneABC]. *)
Lemma position_change_at_end_breaks_parallel_witness :
  activeScene stateABC = Some sceneABC
  /\ targetsActive stateABC (ch_sceneId changePastEnd) = Some true
  /\ ch_stageId changePastEnd = FromStage "A"%string
  /\ ch_positionIdx changePastEnd = Z.of_nat (length (Scene.positions sceneABC))
  /\ Scene.stages sceneABC <> []
  /\ parallel sceneABC
  /\ exists st' a',
     on_position_change tickingWorld stateABC changePastEnd = Ok st' /\
     activeScene st' = Some a' /\
     Scene.positions a'
     = Scene.positions sceneABC
     ++ [Position.mk (generatePositionId (tickingWorld (idCalls stateABC))) (ch_info changePastEnd)] /\
     Scene.stages a' = Scene.stages sceneABC /\
     ~ parallel a'.
Proof.
  assert (H1 : activeScene stateABC = Some sceneABC)
    by (reflexivity).
  assert (H2 : targetsActive stateABC (ch_sceneId changePastEnd) = Some true)
    by (reflexivity).
  assert (H3 : ch_stageId changePastEnd = FromStage "A"%string)
    by (reflexivity).
  assert (H4 : ch_positionIdx changePastEnd = Z.of_nat (length (Scene.positions sceneABC)))
    by (reflexivity).
  assert (H5 : Scene.stages sceneABC <> [])
    by (discriminate).
  assert (H6 : parallel sceneABC)
    by (exact sceneABC_parallel).
  split; [exact H1|].
  split; [exact H2|].
  split; [exact H3|].
  split; [exact H4|].
  split; [exact H5|].
  split; [exact H6|].
  exact (@position_change_at_end_breaks_parallel tickingWorld stateABC changePastEnd sceneABC "A"%string H1 H2 H3 H4 H5 H6).
Defined.

(** The row of position p0 of [sceneABC] is edited. *)
Lemma scene_row_edit_applies_once_witness :
  activeScene stateABC = Some sceneABC
  /\ nth_error (Scene.positions sceneABC) 0 = Some (pos "p0")
  /\ exists st' msg a' p,
     scene_position_onChange tickingWorld stateABC 0 [("sex"%string, "female"%string)] = (st', Some msg) /\
     activeScene st' = Some a' /\
     nth_error (Scene.positions a') 0 = Some p /\
     Position.info p = [("sex"%string, "female"%string)] /\
     (Position.id (pos "p0") <> EmptyString -> Position.id p = Position.id (pos "p0")) /\
     (forall j, j <> 0 ->
     nth_error (Scene.positions a') j = nth_error (Scene.positions sceneABC) j) /\
     length (Scene.positions a') = length (Scene.positions sceneABC) /\
     Scene.stages a' = Scene.stages sceneABC /\
     edited st' = true /\
     ch_sceneId msg = Scene.id sceneABC /\ ch_positionIdx msg = Z.of_nat 0 /\
     on_position_change tickingWorld st' msg = Ok st'.
Proof.
  assert (H1 : activeScene stateABC = Some sceneABC)
    by (reflexivity).
  assert (H2 : nth_error (Scene.positions sceneABC) 0 = Some (pos "p0"))
    by (reflexivity).
  split; [exact H1|].
  split; [exact H2|].
  exact (@scene_row_edit_applies_once tickingWorld stateABC sceneABC 0 (pos "p0") [("sex"%string, "female"%string)] H1 H2).
Defined.

(** Stage B, the second stage of [sceneABC], is saved again. *)
Lemma stage_saved_replaces_in_place_witness :
  activeScene stateABC = Some sceneABC
  /\ targetsActive stateABC (ss_scene savedB) = Some true
  /\ Js.findIndex (fun it => String.eqb (Stage.id it) (Stage.id (ss_stage savedB)))
     (Scene.stages sceneABC) = Some 1
  /\ exists st' a',
     on_stage_saved stateABC savedB = Ok st' /\
     activeScene st' = Some a' /\
     length (Scene.stages a') = length (Scene.stages sceneABC) /\
     map Stage.id (Scene.stages a') = map Stage.id (Scene.stages sceneABC) /\
     (forall j, nth_error (Scene.stages a') j
     = if Nat.eqb 1 j then Some (ss_stage savedB)
     else nth_error (Scene.stages sceneABC) j) /\
     Scene.root a' = Scene.root sceneABC /\
     Scene.positions a' = ss_positions savedB /\
     edited st' = true /\ scenes st' = scenes stateABC.
Proof.
  assert (H1 : activeScene stateABC = Some sceneABC)
    by (reflexivity).
  assert (H2 : targetsActive stateABC (ss_scene savedB) = Some true)
    by (reflexivity).
  assert (H3 : Js.findIndex (fun it => String.eqb (Stage.id it) (Stage.id (ss_stage savedB)))
     (Scene.stages sceneABC) = Some 1)
    by (reflexivity).
  split; [exact H1|].
  split; [exact H2|].
  split; [exact H3|].
  exact (@stage_saved_replaces_in_place stateABC savedB sceneABC 1 H1 H2 H3).
Defined.

(** Stage B is saved twice. *)
Lemma stage_saved_twice_same_scene_witness :
  activeScene stateABC = Some sceneABC
  /\ targetsActive stateABC (ss_scene savedB) = Some true
  /\ exists st1 st2 a1,
     on_stage_saved stateABC savedB = Ok st1 /\ activeScene st1 = Some a1 /\
     on_stage_saved st1 savedB = Ok st2 /\ activeScene st2 = Some a1 /\
     scenes st2 = scenes stateABC.
Proof.
  assert (H1 : activeScene stateABC = Some sceneABC)
    by (reflexivity).
  assert (H2 : targetsActive stateABC (ss_scene savedB) = Some true)
    by (reflexivity).
  split; [exact H1|].
  split; [exact H2|].
  exact (@stage_saved_twice_same_scene stateABC savedB sceneABC H1 H2).
Defined.

(** A new stage D is saved for [sceneABC]: the canvas of A, B and C gets a
    node D. *)
Lemma stage_saved_one_node_witness :
  activeScene stateABC = Some sceneABC
  /\ targetsActive stateABC (ss_scene savedD) = Some true
  /\ on_canvas (graph stateABC) (Stage.id stageD) = false
  /\ exists st' n,
       on_stage_saved stateABC savedD = Ok st' /\
       Permutation (map Node.id (Canvas.nodes (graph st')))
         ["D"; "A"; "B"; "C"]%string /\
       (forall other, Node.id other <> "D"%string ->
          (In other (Canvas.nodes (graph st'))
           <-> In other (Canvas.nodes canvasAB))) /\
       Canvas.edges (graph st') = [("A"%string, "B"%string)] /\
       (unique_ids canvasAB ->
        unique_ids (graph st')
        /\ forall n', In n' (Canvas.nodes (graph st')) ->
                      Node.id n' = "D"%string -> n' = n) /\
       In n (Canvas.nodes (graph st')) /\
       Node.id n = "D"%string /\
       Node.stage n = Some stageD /\
       Node.fixedLen n = Some (Stage.fixed_len stageD).
Proof.
  split; [reflexivity|]. split; [reflexivity|]. split; [reflexivity|].
  exact (@stage_saved_one_node stateABC savedD sceneABC eq_refl eq_refl).
Defined.

(** Stage B is saved in [stateABC]. *)
Lemma stage_saved_keeps_invariants_witness :
  activeScene stateABC = Some sceneABC
  /\ targetsActive stateABC (ss_scene savedB) = Some true
  /\ start_mirrors_root stateABC
  /\ root_in_stages sceneABC
  /\ nodes_are_stages stateABC
  /\ exists st' a',
     on_stage_saved stateABC savedB = Ok st' /\
     activeScene st' = Some a' /\
     start_mirrors_root st' /\
     root_in_stages a' /\
     nodes_are_stages st'.
Proof.
  assert (H1 : activeScene stateABC = Some sceneABC)
    by (reflexivity).
  assert (H2 : targetsActive stateABC (ss_scene savedB) = Some true)
    by (reflexivity).
  assert (H3 : start_mirrors_root stateABC)
    by (exact stateABC_mirrors).
  assert (H4 : root_in_stages sceneABC)
    by (unfold root_in_stages; simpl; auto).
  assert (H5 : nodes_are_stages stateABC)
    by (exact stateABC_nodes_are_stages).
  split; [exact H1|].
  split; [exact H2|].
  split; [exact H3|].
  split; [exact H4|].
  split; [exact H5|].
  exact (@stage_saved_keeps_invariants stateABC savedB sceneABC H1 H2 H3 H4 H5).
Defined.

(** [sceneStored] is activated over the blank scene. *)
Lemma activation_rebuilds_canvas_witness :
  incl (map fst (Scene.graph sceneStored)) (map Stage.id (Scene.stages sceneStored))
  /\ exists st' c',
     activate_from cursor0 stateBlank sceneStored = (Ok st', c') /\
     (cursor0 = cursor0 -> activate stateBlank sceneStored = Ok st') /\
     map Node.id (Canvas.nodes (graph st')) = map fst (Scene.graph sceneStored) /\
     map place (Canvas.nodes (graph st'))
     = cells (Canvas.clientWidth (graph stateBlank)) cursor0 (length (Scene.graph sceneStored)) /\
     Canvas.edges (graph st')
     = drawn_edges (map fst (Scene.graph sceneStored)) (Scene.graph sceneStored) /\
     Canvas.clientWidth (graph st') = Canvas.clientWidth (graph stateBlank) /\
     activeScene st' = Some sceneStored /\
     edited st' = false /\ inEdit st' = false /\
     scenes st' = scenes stateBlank /\ idCalls st' = idCalls stateBlank.
Proof.
  assert (H1 : incl (map fst (Scene.graph sceneStored)) (map Stage.id (Scene.stages sceneStored)))
    by (exact sceneStored_keys).
  split; [exact H1|].
  exact (@activation_rebuilds_canvas cursor0 stateBlank sceneStored H1).
Defined.

(** [sceneStored] is activated over the blank scene. *)
Lemma activation_establishes_invariants_witness :
  incl (map fst (Scene.graph sceneStored)) (map Stage.id (Scene.stages sceneStored))
  /\ NoDup (map fst (Scene.graph sceneStored))
  /\ exists st' c',
     activate_from cursor0 stateBlank sceneStored = (Ok st', c') /\
     activeScene st' = Some sceneStored /\
     unique_ids (graph st') /\
     start_mirrors_root st' /\
     nodes_are_stages st'.
Proof.
  assert (H1 : incl (map fst (Scene.graph sceneStored)) (map Stage.id (Scene.stages sceneStored)))
    by (exact sceneStored_keys).
  assert (H2 : NoDup (map fst (Scene.graph sceneStored)))
    by (exact sceneStored_distinct).
  split; [exact H1|].
  split; [exact H2|].
  exact (@activation_establishes_invariants cursor0 stateBlank sceneStored H1 H2).
Defined.

(** The layout of [canvasAB]. *)
Lemma saved_layout_is_one_entry_per_node_witness :
  unique_ids canvasAB
  /\ serialize_graph canvasAB
     = map (fun node =>
     (Node.id node,
     Layout.mk (Node.x node) (Node.y node) (outgoing canvasAB (Node.id node))))
     (Canvas.nodes canvasAB).
Proof.
  assert (H1 : unique_ids canvasAB)
    by (exact canvasAB_unique).
  split; [exact H1|].
  exact (@saved_layout_is_one_entry_per_node canvasAB H1).
Defined.

(** [sceneStored] is activated and its canvas serialised. *)
Lemma activation_then_layout_keeps_transitions_witness :
  incl (map fst (Scene.graph sceneStored)) (map Stage.id (Scene.stages sceneStored))
  /\ NoDup (map fst (Scene.graph sceneStored))
  /\ exists st' c',
     activate_from cursor0 stateBlank sceneStored = (Ok st', c') /\
     transitions (serialize_graph (graph st'))
     = map (fun entry =>
     (fst entry,
     filter (fun target =>
     existsb (String.eqb target) (map fst (Scene.graph sceneStored)))
     (Layout.dest (snd entry))))
     (Scene.graph sceneStored) /\
     ((forall entry, In entry (Scene.graph sceneStored) ->
     incl (Layout.dest (snd entry)) (map fst (Scene.graph sceneStored))) ->
     transitions (serialize_graph (graph st')) = transitions (Scene.graph sceneStored)).
Proof.
  assert (H1 : incl (map fst (Scene.graph sceneStored)) (map Stage.id (Scene.stages sceneStored)))
    by (exact sceneStored_keys).
  assert (H2 : NoDup (map fst (Scene.graph sceneStored)))
    by (exact sceneStored_distinct).
  split; [exact H1|].
  split; [exact H2|].
  exact (@activation_then_layout_keeps_transitions cursor0 stateBlank sceneStored H1 H2).
Defined.

(** [sceneTorn] has a layout entry for "Z" after the one for "A". *)
Lemma activation_stops_at_missing_stage_witness :
  Scene.graph sceneTorn = ([("A"%string, Layout.mk 40 40 ["B"%string])]) ++ ("Z"%string, (Layout.mk 240 40 [])) :: ([("B"%string, Layout.mk 440 40 [])])
  /\ incl (map fst ([("A"%string, Layout.mk 40 40 ["B"%string])])) (map Stage.id (Scene.stages sceneTorn))
  /\ ~ In "Z"%string (map Stage.id (Scene.stages sceneTorn))
  /\ exists st' c',
     activate_from cursor0 stateBlank sceneTorn = (Throw (TypeError "stage is undefined") st', c') /\
     (cursor0 = cursor0 -> activate stateBlank sceneTorn = Throw (TypeError "stage is undefined") st') /\
     inEdit st' = true /\
     activeScene st' = Some sceneTorn /\
     map Node.id (Canvas.nodes (graph st')) = map fst ([("A"%string, Layout.mk 40 40 ["B"%string])]) /\
     Canvas.edges (graph st') = [] /\
     edited st' = edited stateBlank /\ scenes st' = scenes stateBlank /\
     (forall answer sc2, setActiveScene answer st' sc2 = activate st' sc2) /\
     (forall node, on_node_removed st' node = Ok st').
Proof.
  assert (H1 : Scene.graph sceneTorn = ([("A"%string, Layout.mk 40 40 ["B"%string])]) ++ ("Z"%string, (Layout.mk 240 40 [])) :: ([("B"%string, Layout.mk 440 40 [])]))
    by (reflexivity).
  assert (H2 : incl (map fst ([("A"%string, Layout.mk 40 40 ["B"%string])])) (map Stage.id (Scene.stages sceneTorn)))
    by (intros k [<-|[]]; simpl; auto).
  assert (H3 : ~ In "Z"%string (map Stage.id (Scene.stages sceneTorn)))
    by (simpl; intuition discriminate).
  split; [exact H1|].
  split; [exact H2|].
  split; [exact H3|].
  exact (@activation_stops_at_missing_stage cursor0 stateBlank sceneTorn ([("A"%string, Layout.mk 40 40 ["B"%string])]) ([("B"%string, Layout.mk 440 40 [])]) "Z"%string (Layout.mk 240 40 []) H1 H2 H3).
Defined.

(** [sceneStored] is activated over the blank scene. *)
Lemma store_after_activation_does_nothing_witness :
  incl (map fst (Scene.graph sceneStored)) (map Stage.id (Scene.stages sceneStored))
  /\ exists st' c' eff,
     activate_from cursor0 stateBlank sceneStored = (Ok st', c') /\
     saveScene st' = inr eff /\ save_scene eff = None /\
     save st' = Ok st'.
Proof.
  assert (H1 : incl (map fst (Scene.graph sceneStored)) (map Stage.id (Scene.stages sceneStored)))
    by (exact sceneStored_keys).
  split; [exact H1|].
  exact (@store_after_activation_does_nothing cursor0 stateBlank sceneStored H1).
Defined.

(** [sceneABC] is saved twice from [stateTwo]. *)
Lemma save_twice_is_once_witness :
  activeScene stateTwo = Some sceneABC
  /\ exists st1,
     save stateTwo = Ok st1 /\ save st1 = Ok st1
     /\ (forall eff scene,
     saveScene stateTwo = inr eff -> save_scene eff = Some scene ->
     exists eff1, saveScene st1 = inr eff1 /\ save_scene eff1 = None).
Proof.
  assert (H1 : activeScene stateTwo = Some sceneABC)
    by (reflexivity).
  split; [exact H1|].
  exact (@save_twice_is_once stateTwo sceneABC H1).
Defined.

(** The scene saved from [stateABC] is opened over the blank scene. *)
Lemma stored_scene_reopens_with_same_graph_witness :
  activeScene stateABC = Some sceneABC
  /\ saveScene stateABC = inr effectsABC
  /\ save_scene effectsABC = Some sceneHanded
  /\ unique_ids (graph stateABC)
  /\ incl (map Node.id (Canvas.nodes (graph stateABC))) (map Stage.id (Scene.stages sceneABC))
  /\ ((forall e, In e (Canvas.edges (graph stateABC)) ->
     In (fst e) (map Node.id (Canvas.nodes (graph stateABC)))
     /\ In (snd e) (map Node.id (Canvas.nodes (graph stateABC)))))
  /\ Permutation (Scene.graph sceneHanded) (Scene.graph sceneHanded)
  /\ exists st' c',
     activate_from cursor0 stateBlank (Scene.with_graph (Scene.graph sceneHanded) sceneHanded) = (Ok st', c') /\
     map Node.id (Canvas.nodes (graph st')) = map fst (Scene.graph sceneHanded) /\
     Permutation (map Node.id (Canvas.nodes (graph st')))
     (map Node.id (Canvas.nodes (graph stateABC))) /\
     Permutation (Canvas.edges (graph st')) (Canvas.edges (graph stateABC)) /\
     ((Scene.graph sceneHanded) = Scene.graph sceneHanded ->
     map Node.id (Canvas.nodes (graph st'))
     = map Node.id (Canvas.nodes (graph stateABC))).
Proof.
  assert (H1 : activeScene stateABC = Some sceneABC)
    by (reflexivity).
  assert (H2 : saveScene stateABC = inr effectsABC)
    by (reflexivity).
  assert (H3 : save_scene effectsABC = Some sceneHanded)
    by (reflexivity).
  assert (H4 : unique_ids (graph stateABC))
    by (exact canvasAB_unique).
  assert (H5 : incl (map Node.id (Canvas.nodes (graph stateABC))) (map Stage.id (Scene.stages sceneABC)))
    by (intros k Hk; exact Hk).
  assert (H6 : (forall e, In e (Canvas.edges (graph stateABC)) ->
     In (fst e) (map Node.id (Canvas.nodes (graph stateABC)))
     /\ In (snd e) (map Node.id (Canvas.nodes (graph stateABC)))))
    by (intros e [<-|[]]; simpl; auto).
  assert (H7 : Permutation (Scene.graph sceneHanded) (Scene.graph sceneHanded))
    by (apply Permutation_refl).
  split; [exact H1|].
  split; [exact H2|].
  split; [exact H3|].
  split; [exact H4|].
  split; [exact H5|].
  split; [exact H6|].
  split; [exact H7|].
  exact (@stored_scene_reopens_with_same_graph cursor0 stateABC stateBlank sceneABC sceneHanded effectsABC (Scene.graph sceneHanded) H1 H2 H3 H4 H5 H6 H7).
Defined.


(** A project with the one scene [sceneStored] arrives while [sceneABC] is dirty. *)
Lemma project_update_replaces_scenes_witness :
  incl (map fst (Scene.graph sceneStored)) (map Stage.id (Scene.stages sceneStored))
  /\ (false = false \/ inEdit stateABC = true \/ Cancel = ContinueWithoutSaving ->
     exists st' c',
     on_project_update false Cancel cursor0 stateABC (("scene-1"%string, sceneStored) :: (@nil (string * Scene.t)))
     = (Ok st', c') /\
     scenes st' = sceneStored :: map snd (@nil (string * Scene.t)) /\
     activeScene st' = Some sceneStored /\
     edited st' = false /\ inEdit st' = false /\
     map Node.id (Canvas.nodes (graph st')) = map fst (Scene.graph sceneStored) /\
     Canvas.edges (graph st')
     = drawn_edges (map fst (Scene.graph sceneStored)) (Scene.graph sceneStored)) /\
     (false = true -> inEdit stateABC = false -> Cancel = Cancel ->
     exists st',
     on_project_update false Cancel cursor0 stateABC (("scene-1"%string, sceneStored) :: (@nil (string * Scene.t)))
     = (Ok st', cursor0) /\
     scenes st' = sceneStored :: map snd (@nil (string * Scene.t)) /\
     edited st' = false /\
     activeScene st' = activeScene stateABC /\ graph st' = graph stateABC).
Proof.
  assert (H1 : incl (map fst (Scene.graph sceneStored)) (map Stage.id (Scene.stages sceneStored)))
    by (exact sceneStored_keys).
  split; [exact H1|].
  exact (@project_update_replaces_scenes false Cancel cursor0 stateABC "scene-1"%string sceneStored (@nil (string * Scene.t)) H1).
Defined.

(** The Edit entry of [sceneABC] in [stateTwo]. *)
Lemma edit_entry_activates_listed_scene_witness :
  lastIndexOf underscore (Scene.id sceneABC) = None
  /\ find (fun scene => String.eqb (Scene.id scene) (Scene.id sceneABC)) (scenes stateTwo)
     = Some sceneABC
  /\ parse_key (editKey sceneABC) = ("editanim"%string, Scene.id sceneABC) /\
     onSiderSelect ContinueWithoutSaving true sceneBlank stateTwo (editKey sceneABC)
     = setActiveScene ContinueWithoutSaving stateTwo sceneABC.
Proof.
  assert (H1 : lastIndexOf underscore (Scene.id sceneABC) = None)
    by (reflexivity).
  assert (H2 : find (fun scene => String.eqb (Scene.id scene) (Scene.id sceneABC)) (scenes stateTwo)
     = Some sceneABC)
    by (reflexivity).
  split; [exact H1|].
  split; [exact H2|].
  exact (@edit_entry_activates_listed_scene ContinueWithoutSaving true sceneBlank stateTwo sceneABC sceneABC H1 H2).
Defined.

(** The Delete entry of [sceneABC] in [stateTwo]. *)
Lemma delete_entry_removes_scene_witness :
  lastIndexOf underscore (Scene.id sceneABC) = None
  /\ find (fun scene => String.eqb (Scene.id scene) (Scene.id sceneABC)) (scenes stateTwo)
     = Some sceneABC
  /\ onSiderSelect Cancel false sceneBlank stateTwo (deleteKey sceneABC) = Ok stateTwo /\
     exists st',
     onSiderSelect Cancel true sceneBlank stateTwo (deleteKey sceneABC) = Ok st' /\
     find (fun scene => String.eqb (Scene.id scene) (Scene.id sceneABC)) (scenes st')
     = None /\
     (forall other, Scene.id other <> Scene.id sceneABC ->
     (In other (scenes st') <-> In other (scenes stateTwo))) /\
     scenes st'
     = filter (fun scene => negb (String.eqb (Scene.id scene) (Scene.id sceneABC)))
     (scenes stateTwo) /\
     graph st' = graph stateTwo /\
     (forall a, activeScene stateTwo = Some a -> Scene.id a = Scene.id sceneABC ->
     activeScene st' = None /\ edited st' = false) /\
     (forall a, activeScene stateTwo = Some a -> Scene.id a <> Scene.id sceneABC ->
     activeScene st' = Some a /\ edited st' = edited stateTwo) /\
     (activeScene stateTwo = None ->
     activeScene st' = None /\ edited st' = edited stateTwo).
Proof.
  assert (H1 : lastIndexOf underscore (Scene.id sceneABC) = None)
    by (reflexivity).
  assert (H2 : find (fun scene => String.eqb (Scene.id scene) (Scene.id sceneABC)) (scenes stateTwo)
     = Some sceneABC)
    by (reflexivity).
  split; [exact H1|].
  split; [exact H2|].
  exact (@delete_entry_removes_scene Cancel sceneBlank stateTwo sceneABC sceneABC H1 H2).
Defined.

(** The entries of the scene "my_scene". *)
Lemma entries_of_underscore_id_do_nothing_witness :
  Scene.id sceneUnder = String.append "my"%string (String underscore "scene"%string)
  /\ onSiderSelect ContinueWithoutSaving true sceneBlank stateUnder (editKey sceneUnder) = Ok stateUnder /\
     onSiderSelect ContinueWithoutSaving true sceneBlank stateUnder (deleteKey sceneUnder) = Ok stateUnder.
Proof.
  assert (H1 : Scene.id sceneUnder = String.append "my"%string (String underscore "scene"%string))
    by (reflexivity).
  split; [exact H1|].
  exact (@entries_of_underscore_id_do_nothing ContinueWithoutSaving true sceneBlank stateUnder sceneUnder "my"%string "scene"%string H1).
Defined.

(** A bed is selected where no furniture was chosen and a bed allowed. *)
Lemma furniture_panel_keeps_settings_consistent_witness :
  furniture_ok furnitureBed
  /\ furniture_ok (furniture_onSelect "BedSingle"%string furnitureBed) /\
     furniture_ok (furniture_onDeselect "BedSingle"%string furnitureBed) /\
     (allow_bed_disabled furnitureBed = false ->
     furniture_ok (allow_bed_onChange true furnitureBed)) /\
     ("BedSingle"%string <> none_type ->
     Furniture.allow_bed (furniture_onSelect "BedSingle"%string furnitureBed) = false /\
     ~ In none_type (Furniture.furni_types (furniture_onSelect "BedSingle"%string furnitureBed)) /\
     In "BedSingle"%string (Furniture.furni_types (furniture_onSelect "BedSingle"%string furnitureBed))) /\
     (Furniture.furni_types furnitureBed = ["BedSingle"%string] ->
     Furniture.furni_types (furniture_onDeselect "BedSingle"%string furnitureBed) = [none_type]).
Proof.
  assert (H1 : furniture_ok furnitureBed)
    by (exact furnitureBed_ok).
  split; [exact H1|].
  exact (@furniture_panel_keeps_settings_consistent "BedSingle"%string true furnitureBed H1).
Defined.
